(** * d3-complex-charts: the network-graph component, embedded and verified

    Shallow embedding of [NetworkGraph.tsx] (dataset loader, resize handler,
    zoom controls, layout adapter, drag and hover handlers, legend), of the
    resize handler and the leaf labels of [Treemap.tsx] and of the resize
    handler and the label groups of [PackedCircles.tsx].

    Conventions of the embedding
    - a JavaScript [number] that holds a measure (a coordinate, a scale
      factor, a link weight) is a rational [Q]: the statements below rest on
      copies and comparisons of such numbers, on [Math.min]/[Math.max] and
      on one addition of 0.2 or multiplication by 0.75, never on rounding;
    - a JavaScript [Set] or [Map] that is only queried is a [gset]/[gmap];
      the one [Set] whose iteration order is observed ([groupIds]) is a list
      kept in insertion order;
    - an object reference to a simulation node is a handle: the index of the
      node in the simulation's node array, which is the shared store;
    - [try]/[catch] is a sum type; React state and the console output of
      the loader are threaded explicitly;
    - what d3 does inside one integration step, how [zoom.scaleTo] moves
      the translation and how JavaScript prints a number inside a template
      literal are parameters of the development. *)

From Stdlib Require Import ZArith QArith Qminmax Lqa.
From stdpp Require Import base option list strings pretty gmap sets.

Open Scope string_scope.
Open Scope list_scope.

(** JavaScript numbers. *)
Abbreviation number := Q.

(** ** types.ts *)

Module NetworkNode.
Record t : Type := mk { id : string; group : Z }.
End NetworkNode.

Module NetworkLink.
Record t : Type := mk { source : string; target : string; value : number }.
End NetworkLink.

Module NetworkData.
Record t : Type := mk { nodes : list NetworkNode.t; links : list NetworkLink.t }.
End NetworkData.

(** ** Exceptions and console output *)

Inductive exn : Type :=
| TypeError (msg : string)      (* fetch rejected: transport failure *)
| SyntaxError (msg : string)    (* response.json() rejected: malformed JSON *)
| Error (msg : string).         (* new Error(msg) *)

Inductive result (A : Type) : Type :=
| Ok (a : A)
| Throw (e : exn).
Arguments Ok {A} a.
Arguments Throw {A} e.

#[global] Instance result_ret : MRet result := λ A, @Ok A.
#[global] Instance result_bind : MBind result := λ A B k m,
  match m with
  | Ok a => k a
  | Throw e => Throw e
  end.

Inductive console : Type :=
| ConsoleWarn (msg : string) (invalidLinks : list NetworkLink.t)
| ConsoleError (e : exn).

(** ** The dataset resource, as [fetch] and [response.json()] see it *)

Inductive Body : Type :=
| Malformed                           (* response.json() rejects *)
| Parsed (jsonData : NetworkData.t).

Inductive FetchOutcome : Type :=
| TransportFailure                    (* fetch() rejects *)
| Response (ok : bool) (body : Body).

Definition fetch (r : FetchOutcome) : result (bool * Body) :=
  match r with
  | TransportFailure => Throw (TypeError "Failed to fetch")
  | Response ok body => Ok (ok, body)
  end.

Definition json (body : Body) : result NetworkData.t :=
  match body with
  | Malformed => Throw (SyntaxError "Unexpected token")
  | Parsed jsonData => Ok jsonData
  end.

(** ** JavaScript [Set], where its iteration order is observed *)

Module JsSet.

(** [set.add(v)] on an insertion-ordered collection without duplicates. *)
Definition add (seen : list Z) (v : Z) : list Z :=
  if bool_decide (v ∈ seen) then seen else seen ++ [v].

(** [new Set(values)], read back in iteration order ([Array.from]). *)
Definition newSet (values : list Z) : list Z := fold_left add values [].

End JsSet.

(** ** d3-zoom, as far as the component drives it *)

Module D3Zoom.

(** The zoom transform of an element: scale [k] and translation ([x], [y]). *)
Record Transform : Type := mkTransform { k : number; x : number; y : number }.

(** Modelled from the spec: [d3.zoomIdentity], a constant of d3-zoom, which is
    not among the sources; the specification gives reset as the identity
    transform, scale 1.0 and translation (0, 0). *)
Definition zoomIdentity : Transform := {| k := 1; x := 0; y := 0 |}.

(** A zoom behaviour carries the scale extent it was configured with. *)
Record ZoomBehavior : Type := mkZoomBehavior { scaleExtent : number * number }.

(** Modelled from the spec: the clamping d3-zoom applies to every scale
    request that goes through a behaviour ([scaleTo] here); d3-zoom is not
    among the sources, the specification says the scale is clamped to the
    extent at all times, programmatic changes included:
    [Math.max(scaleExtent[0], Math.min(scaleExtent[1], k))]. *)
Definition constrainScale (zb : ZoomBehavior) (k1 : number) : number :=
  Qmax (fst (scaleExtent zb)) (Qmin (snd (scaleExtent zb)) k1).

End D3Zoom.

(** ** d3-scale: the ordinal scale behind [colorScale] *)

Module D3Scale.

Record Ordinal : Type := mkOrdinal { domain : list Z; range : list string }.

(** Modelled from the spec: [d3.scaleOrdinal()] with its [domain] and [range]
    setters and its call; d3-scale is not among the sources.  The
    specification describes a deterministic categorical assignment over the
    distinct groups in first-seen order that repeats the palette cyclically:
    [domain(_)] keeps the first occurrence of each value, [scale(d)] looks up
    the position [i] of [d] in the domain, appending [d] when it is unknown,
    and answers [range[i % range.length]]. *)
Definition scaleOrdinal : Ordinal := {| domain := []; range := [] |}.

Definition setDomain (values : list Z) (s : Ordinal) : Ordinal :=
  {| domain := JsSet.newSet values; range := range s |}.

Definition setRange (colors : list string) (s : Ordinal) : Ordinal :=
  {| domain := domain s; range := colors |}.

(** Position of [d] in the domain. *)
Fixpoint indexOf (d : Z) (dom : list Z) : option nat :=
  match dom with
  | [] => None
  | v :: rest => if bool_decide (v = d) then Some 0%nat else S <$> indexOf d rest
  end.

(** [scale(d)]: the colour ([None] for [undefined]) and the scale afterwards. *)
Definition scale (s : Ordinal) (d : Z) : option string * Ordinal :=
  match indexOf d (domain s) with
  | Some i => (range s !! (i mod length (range s))%nat, s)
  | None =>
      let i := length (domain s) in
      (range s !! (i mod length (range s))%nat,
       {| domain := domain s ++ [d]; range := range s |})
  end.

(** Modelled from the spec: [d3.schemeCategory10], the fixed 10-colour
    palette; d3-scale-chromatic is not among the sources.  The entries are
    the ten colours d3 publishes under that name. *)
Definition schemeCategory10 : list string :=
  ["#1f77b4"; "#ff7f0e"; "#2ca02c"; "#d62728"; "#9467bd";
   "#8c564b"; "#e377c2"; "#7f7f7f"; "#bcbd22"; "#17becf"].

End D3Scale.

(** ** NetworkGraph.tsx *)

(** Extended node type: the fields of [NetworkNode] (the spread [...node])
    and those of [d3.SimulationNodeDatum] that the component initialises. *)
Module SimulationNetworkNode.
Record t : Type := mk {
  id : string;
  group : Z;
  x : number;
  y : number;
  vx : number;
  vy : number;
  fx : option number;
  fy : option number
}.
End SimulationNetworkNode.

(** Extended link type: [source] and [target] are references to simulation
    nodes, that is handles into the simulation's node array. *)
Module SimulationLink.
Record t : Type := mk { source : nat; target : nat; value : number }.
End SimulationLink.

Module NetworkGraph.

Record Dimensions : Type := mkDimensions { width : number; height : number }.

(** The five [useState] cells of the component. *)
Record State : Type := mkState {
  data : option NetworkData.t;
  dimensions : Dimensions;
  isLoading : bool;
  error : option string;
  zoomLevel : number
}.

Definition initialState : State :=
  {| data := None;
     dimensions := {| width := 800; height := 600 |};
     isLoading := true;
     error := None;
     zoomLevel := 1 |}.

Definition setData (d : NetworkData.t) (s : State) : State :=
  {| data := Some d; dimensions := dimensions s; isLoading := isLoading s;
     error := error s; zoomLevel := zoomLevel s |}.
Definition setDimensions (d : Dimensions) (s : State) : State :=
  {| data := data s; dimensions := d; isLoading := isLoading s;
     error := error s; zoomLevel := zoomLevel s |}.
Definition setIsLoading (b : bool) (s : State) : State :=
  {| data := data s; dimensions := dimensions s; isLoading := b;
     error := error s; zoomLevel := zoomLevel s |}.
Definition setError (e : string) (s : State) : State :=
  {| data := data s; dimensions := dimensions s; isLoading := isLoading s;
     error := Some e; zoomLevel := zoomLevel s |}.
Definition setZoomLevel (z : number) (s : State) : State :=
  {| data := data s; dimensions := dimensions s; isLoading := isLoading s;
     error := error s; zoomLevel := z |}.

(** *** fetchData: validation of the payload (lines 38-52) *)

(** [new Set(jsonData.nodes.map(node => node.id))] *)
Definition nodeIds (jsonData : NetworkData.t) : gset string :=
  list_to_set (NetworkNode.id <$> NetworkData.nodes jsonData).

(** [nodeIds.has(x)] *)
Definition has (s : gset string) (x : string) : bool := bool_decide (x ∈ s).

(** [!nodeIds.has(link.source) || !nodeIds.has(link.target)] *)
Definition isInvalidLink (ids : gset string) (link : NetworkLink.t) : bool :=
  negb (has ids (NetworkLink.source link)) || negb (has ids (NetworkLink.target link)).

(** [nodeIds.has(link.source) && nodeIds.has(link.target)] *)
Definition isValidLink (ids : gset string) (link : NetworkLink.t) : bool :=
  has ids (NetworkLink.source link) && has ids (NetworkLink.target link).

(** [array.filter(p)] with a boolean callback. *)
Definition jsFilter {A : Type} (p : A → bool) (l : list A) : list A :=
  List.filter p l.

Definition invalidLinks (jsonData : NetworkData.t) : list NetworkLink.t :=
  jsFilter (isInvalidLink (nodeIds jsonData)) (NetworkData.links jsonData).

(** The validation block: returns the (possibly updated) payload and what was
    written to the console. *)
Definition validate (jsonData : NetworkData.t) : NetworkData.t * list console :=
  let ids := nodeIds jsonData in
  let invalid := invalidLinks jsonData in
  if (0 <? length invalid)%nat then
    ({| NetworkData.nodes := NetworkData.nodes jsonData;
        NetworkData.links := jsFilter (isValidLink ids) (NetworkData.links jsonData) |},
     [ConsoleWarn "Found invalid links referencing non-existent nodes:" invalid])
  else (jsonData, []).

(** The body of the [try] block, up to the state updates. *)
Definition fetchBody (r : FetchOutcome) : result (NetworkData.t * list console) :=
  response ← fetch r;
  (if negb (fst response) then Throw (Error "Failed to fetch data") else Ok ());;
  jsonData ← json (snd response);
  mret (validate jsonData).

(** [fetchData]: the state after the promise settles and the console output. *)
Definition fetchData (r : FetchOutcome) (s : State) : State * list console :=
  let s1 := setIsLoading true s in
  match fetchBody r with
  | Ok (jsonData, out) => (setIsLoading false (setData jsonData s1), out)
  | Throw err =>
      (setIsLoading false (setError "Error loading network graph data" s1),
       [ConsoleError err])
  end.

(** *** handleResize (lines 67-88)

    [containerRef.current] is [None] while the container is not mounted and
    otherwise gives the element's [clientWidth], a non-negative integer. *)

(** [clientWidth || 800]: 0 is falsy. *)
Definition orDefault (w d : N) : N := if (w =? 0)%N then d else w.

Definition ofN (n : N) : number := inject_Z (Z.of_N n).

Definition handleResize (containerRef : option N) (s : State) : State :=
  match containerRef with
  | Some clientWidth =>
      let containerWidth := ofN (orDefault clientWidth 800) in
      setDimensions {| width := containerWidth;
                       height := Qmin (containerWidth * 0.75) 600 |} s
  | None => s
  end.

(** *** Zoom controls (lines 91-126) and the zoom listener (lines 258-262)

    The [svg] element carries d3's zoom transform in its [__zoom] property;
    the listener copies each new transform to the [transform] attribute of
    the zoom container [g].  A transition is modelled by the state it ends
    in: the target transform is installed and the listener has run on it.
    The zoom events d3 dispatches while the 300 ms transition is in flight,
    each of which runs the listener on an interpolated transform, are not
    modelled: a trigger here is a click together with its finished
    transition, and the statements about the zoom controls speak of the
    states in which no transition is in flight. *)

Record Svg : Type := mkSvg {
  __zoom : D3Zoom.Transform;
  g_transform : option D3Zoom.Transform
}.

Record Refs : Type := mkRefs {
  svgRef : option Svg;
  zoomBehaviorRef : option D3Zoom.ZoomBehavior
}.

(** [handleZoom]: the [zoom] listener. *)
Definition handleZoom (transform : D3Zoom.Transform) (s : State) (svg : Svg)
  : State * Svg :=
  (setZoomLevel (D3Zoom.k transform) s,
   {| __zoom := __zoom svg; g_transform := Some transform |}).

(** The end of [selection.transition().call(zoom.transform, t)]. *)
Definition zoomTransition (t : D3Zoom.Transform) (s : State) (svg : Svg)
  : State * Svg :=
  handleZoom t s {| __zoom := t; g_transform := g_transform svg |}.

Section ZoomControls.

(** [zoom.scaleTo] keeps the centre of the viewport fixed while it changes the
    scale; the translation it computes for that is the library's and is left
    open here. *)
Variable anchor : D3Zoom.Transform → number → number * number.

Definition scaleTo (zb : D3Zoom.ZoomBehavior) (t0 : D3Zoom.Transform) (k1 : number)
  : D3Zoom.Transform :=
  let k' := D3Zoom.constrainScale zb k1 in
  {| D3Zoom.k := k'; D3Zoom.x := fst (anchor t0 k'); D3Zoom.y := snd (anchor t0 k') |}.

Definition handleZoomIn (s : State) (r : Refs) : State * Refs :=
  match svgRef r, zoomBehaviorRef r with
  | Some svg, Some zb =>
      let newZoomLevel := Qmin (zoomLevel s + 0.2) 3 in
      let s1 := setZoomLevel newZoomLevel s in
      let '(s2, svg') := zoomTransition (scaleTo zb (__zoom svg) newZoomLevel) s1 svg in
      (s2, {| svgRef := Some svg'; zoomBehaviorRef := Some zb |})
  | _, _ => (s, r)
  end.

Definition handleZoomOut (s : State) (r : Refs) : State * Refs :=
  match svgRef r, zoomBehaviorRef r with
  | Some svg, Some zb =>
      let newZoomLevel := Qmax (zoomLevel s - 0.2) 0.5 in
      let s1 := setZoomLevel newZoomLevel s in
      let '(s2, svg') := zoomTransition (scaleTo zb (__zoom svg) newZoomLevel) s1 svg in
      (s2, {| svgRef := Some svg'; zoomBehaviorRef := Some zb |})
  | _, _ => (s, r)
  end.

Definition handleZoomReset (s : State) (r : Refs) : State * Refs :=
  match svgRef r, zoomBehaviorRef r with
  | Some svg, Some zb =>
      let s1 := setZoomLevel 1 s in
      let '(s2, svg') := zoomTransition D3Zoom.zoomIdentity s1 svg in
      (s2, {| svgRef := Some svg'; zoomBehaviorRef := Some zb |})
  | _, _ => (s, r)
  end.

Inductive ZoomOp : Type := ZoomIn | ZoomOut | ZoomReset.

Definition zoomOp (op : ZoomOp) (c : State * Refs) : State * Refs :=
  match op with
  | ZoomIn => handleZoomIn (fst c) (snd c)
  | ZoomOut => handleZoomOut (fst c) (snd c)
  | ZoomReset => handleZoomReset (fst c) (snd c)
  end.

(** Consecutive triggers, first to last. *)
Definition zoomOps (ops : list ZoomOp) (c : State * Refs) : State * Refs :=
  fold_left (fun c op => zoomOp op c) ops c.

End ZoomControls.

(** The zoom behaviour the render effect creates (lines 264-266). *)
Definition zoomBehavior : D3Zoom.ZoomBehavior :=
  {| D3Zoom.scaleExtent := (0.5%Q, 3%Q) |}.

(** *** The render effect (lines 129-435): layout adapter *)
Abbreviation SimNode := SimulationNetworkNode.t.

(** One simulation node (lines 166-175); [r1], [r2] are the two values
    [Math.random()] returns.  The sums are exact here, where the source
    rounds each operation to the nearest double: the statements about the
    seeded positions use closed bounds, which the rounding keeps. *)
Definition simNode (dims : Dimensions) (r1 r2 : number) (node : NetworkNode.t) : SimNode :=
  {| SimulationNetworkNode.id := NetworkNode.id node;
     SimulationNetworkNode.group := NetworkNode.group node;
     SimulationNetworkNode.x := width dims / 2 + (r1 - 0.5) * 100;
     SimulationNetworkNode.y := height dims / 2 + (r2 - 0.5) * 100;
     SimulationNetworkNode.vx := 0;
     SimulationNetworkNode.vy := 0;
     SimulationNetworkNode.fx := None;
     SimulationNetworkNode.fy := None |}.

Section Adapter.

(** [random n] is the value of the [n]-th call of [Math.random()]. *)
Variable random : nat → number.

(** [data.nodes.map(node => ...)] with its side effect on [nodeMap]: node
    number [i] of the array gets handle [i]; [calls] counts the calls of
    [Math.random()] made so far. *)
Fixpoint mapNodes (dims : Dimensions) (calls i : nat) (nodes : list NetworkNode.t)
    (nodeMap : gmap string nat) : list SimNode * gmap string nat :=
  match nodes with
  | [] => ([], nodeMap)
  | node :: rest =>
      let sim := simNode dims (random calls) (random (S calls)) node in
      let '(sims, nodeMap') :=
        mapNodes dims (S (S calls)) (S i) rest (<[NetworkNode.id node := i]> nodeMap) in
      (sim :: sims, nodeMap')
  end.

End Adapter.

(** One link (lines 183-197): [None] for the [null] the callback returns when
    an endpoint is missing from [nodeMap]. *)
Definition simLink (nodeMap : gmap string nat) (link : NetworkLink.t)
  : option SimulationLink.t :=
  match nodeMap !! NetworkLink.source link, nodeMap !! NetworkLink.target link with
  | Some sourceNode, Some targetNode =>
      Some {| SimulationLink.source := sourceNode;
              SimulationLink.target := targetNode;
              SimulationLink.value := NetworkLink.value link |}
  | _, _ => None
  end.

(** [data.links.map(...).filter(link => link !== null)] *)
Definition simulationLinks (nodeMap : gmap string nat) (links : list NetworkLink.t)
  : list SimulationLink.t :=
  omap (simLink nodeMap) links.

(** [Array.from(new Set(data.nodes.map(node => node.group)))] *)
Definition groupIds (data : NetworkData.t) : list Z :=
  JsSet.newSet (NetworkNode.group <$> NetworkData.nodes data).

(** [d3.scaleOrdinal().domain(groupIds).range(d3.schemeCategory10)] *)
Definition colorScale (data : NetworkData.t) : D3Scale.Ordinal :=
  D3Scale.setRange D3Scale.schemeCategory10
    (D3Scale.setDomain (groupIds data) D3Scale.scaleOrdinal).

(** Following a node reference.  A handle made by [mapNodes] always resolves;
    the default stands for a dangling one. *)
Definition undefinedNode : SimNode :=
  {| SimulationNetworkNode.id := ""; SimulationNetworkNode.group := 0;
     SimulationNetworkNode.x := 0; SimulationNetworkNode.y := 0;
     SimulationNetworkNode.vx := 0; SimulationNetworkNode.vy := 0;
     SimulationNetworkNode.fx := None; SimulationNetworkNode.fy := None |}.

Definition deref (nodes : list SimNode) (handle : nat) : SimNode :=
  default undefinedNode (nodes !! handle).

Definition sourceId (nodes : list SimNode) (link : SimulationLink.t) : string :=
  SimulationNetworkNode.id (deref nodes (SimulationLink.source link)).
Definition targetId (nodes : list SimNode) (link : SimulationLink.t) : string :=
  SimulationNetworkNode.id (deref nodes (SimulationLink.target link)).

(** *** Connection counts for the tooltip (lines 294-302, 353) *)

Definition bump (k : string) (m : gmap string nat) : gmap string nat :=
  <[k := (default 0 (m !! k) + 1)%nat]> m.

Definition nodeConnectionCounts (nodes : list SimNode) (links : list SimulationLink.t)
  : gmap string nat :=
  fold_left (fun m link => bump (targetId nodes link) (bump (sourceId nodes link) m))
    links ∅.

(** [nodeConnectionCounts.get(d.id) || 0], the number the tooltip prints. *)
Definition tooltipConnections (counts : gmap string nat) (d : SimNode) : nat :=
  default 0%nat (counts !! SimulationNetworkNode.id d).

(** *** Hover: the highlight set (lines 305-319) *)

Definition connectedNodeIds (nodes : list SimNode) (links : list SimulationLink.t)
    (d : SimNode) : gset string :=
  fold_left
    (fun connected link =>
       let s := sourceId nodes link in
       let t := targetId nodes link in
       if bool_decide (s = SimulationNetworkNode.id d)
          || bool_decide (t = SimulationNetworkNode.id d)
       then {[t]} ∪ ({[s]} ∪ connected)
       else connected)
    links {[SimulationNetworkNode.id d]}.

(** *** The force simulation (lines 206-218)

    The forces are configured by the component; how one integration step
    moves the nodes under them is d3-force's and is left open: [physics]
    gives the new position and velocity of node [i] from the forces, the
    temperature and all nodes.  A step never writes a node's identity or
    its pin. *)

Record Forces : Type := mkForces {
  link : list SimulationLink.t;
  distance : number;
  charge : number;
  center : number * number;
  collision : number
}.

Record Simulation : Type := mkSimulation {
  nodes : list SimNode;
  forces : Forces;
  alpha : number;
  alphaTarget : number;
  running : bool                       (* the internal timer *)
}.

Record Kinematics : Type := mkKinematics {
  kx : number; ky : number; kvx : number; kvy : number
}.

Definition moved (n : SimNode) (m : Kinematics) : SimNode :=
  {| SimulationNetworkNode.id := SimulationNetworkNode.id n;
     SimulationNetworkNode.group := SimulationNetworkNode.group n;
     SimulationNetworkNode.x := kx m;
     SimulationNetworkNode.y := ky m;
     SimulationNetworkNode.vx := kvx m;
     SimulationNetworkNode.vy := kvy m;
     SimulationNetworkNode.fx := SimulationNetworkNode.fx n;
     SimulationNetworkNode.fy := SimulationNetworkNode.fy n |}.

Definition nodeRadius : number := 15.

(** [d3.forceSimulation(nodes).force(...)...]: created hot, timer started. *)
Definition forceSimulation (dims : Dimensions) (simulationNodes : list SimNode)
    (links : list SimulationLink.t) : Simulation :=
  {| nodes := simulationNodes;
     forces := {| link := links; distance := 150; charge := -400;
                  center := ((width dims / 2)%Q, (height dims / 2)%Q);
                  collision := nodeRadius * 1.5 |};
     alpha := 1;
     alphaTarget := 0;
     running := true |}.

Definition setAlpha (a : number) (sim : Simulation) : Simulation :=
  {| nodes := nodes sim; forces := forces sim; alpha := a;
     alphaTarget := alphaTarget sim; running := running sim |}.
Definition setAlphaTarget (a : number) (sim : Simulation) : Simulation :=
  {| nodes := nodes sim; forces := forces sim; alpha := alpha sim;
     alphaTarget := a; running := running sim |}.
Definition restart (sim : Simulation) : Simulation :=
  {| nodes := nodes sim; forces := forces sim; alpha := alpha sim;
     alphaTarget := alphaTarget sim; running := true |}.
Definition stop (sim : Simulation) : Simulation :=
  {| nodes := nodes sim; forces := forces sim; alpha := alpha sim;
     alphaTarget := alphaTarget sim; running := false |}.
Definition setNodes (ns : list SimNode) (sim : Simulation) : Simulation :=
  {| nodes := ns; forces := forces sim; alpha := alpha sim;
     alphaTarget := alphaTarget sim; running := running sim |}.

Definition alphaMin : number := 0.001.

Section Engine.

Variable physics : Forces → number → list SimNode → nat → Kinematics.
Variable alphaDecay : number.

(** [simulation.tick()]: one integration step, no event dispatched. *)
Definition tick (sim : Simulation) : Simulation :=
  let alpha' := (alpha sim + (alphaTarget sim - alpha sim) * alphaDecay)%Q in
  setNodes
    (imap (fun i n => moved n (physics (forces sim) alpha' (nodes sim) i)) (nodes sim))
    (setAlpha alpha' sim).

(** The pre-warm loop: [for (let i = 0; i < 50; i++) simulation.tick()]. *)
Definition prewarm (sim : Simulation) : Simulation := Nat.iter 50 tick sim.

End Engine.

(** *** Positional paint: updatePositions (lines 402-419) *)

(** [v || 0] *)
Definition orZero (v : number) : number := if Qeq_bool v 0 then 0 else v.

Record Geometry : Type := mkGeometry {
  circles : list (number * number);                       (* cx, cy *)
  lines : list ((number * number) * (number * number));   (* (x1, y1), (x2, y2) *)
  labels : list (number * number)                         (* x, y *)
}.

Definition position (d : SimNode) : number * number :=
  (orZero (SimulationNetworkNode.x d), orZero (SimulationNetworkNode.y d)).

Definition updatePositions (sim : Simulation) (links : list SimulationLink.t) : Geometry :=
  {| circles := position <$> nodes sim;
     lines := (fun l => (position (deref (nodes sim) (SimulationLink.source l)),
                         position (deref (nodes sim) (SimulationLink.target l)))) <$> links;
     labels := position <$> nodes sim |}.

(** *** Drag behaviour (lines 275-289)

    [active] is the number of other drag gestures in progress, [subject] the
    dragged node (a handle), [x] and [y] the pointer. *)

Record D3DragEvent : Type := mkD3DragEvent {
  active : nat;
  subject : nat;
  x : number;
  y : number
}.

Definition pin (fx fy : option number) (n : SimNode) : SimNode :=
  {| SimulationNetworkNode.id := SimulationNetworkNode.id n;
     SimulationNetworkNode.group := SimulationNetworkNode.group n;
     SimulationNetworkNode.x := SimulationNetworkNode.x n;
     SimulationNetworkNode.y := SimulationNetworkNode.y n;
     SimulationNetworkNode.vx := SimulationNetworkNode.vx n;
     SimulationNetworkNode.vy := SimulationNetworkNode.vy n;
     SimulationNetworkNode.fx := fx;
     SimulationNetworkNode.fy := fy |}.

Definition onDragStart (event : D3DragEvent) (sim : Simulation) : Simulation :=
  let sim1 := if (active event =? 0)%nat then restart (setAlphaTarget 0.3 sim) else sim in
  setNodes
    (alter (fun n => pin (Some (SimulationNetworkNode.x n)) (Some (SimulationNetworkNode.y n)) n)
       (subject event) (nodes sim1))
    sim1.

Definition onDrag (event : D3DragEvent) (sim : Simulation) : Simulation :=
  setNodes (alter (pin (Some (x event)) (Some (y event))) (subject event) (nodes sim)) sim.

Definition onDragEnd (event : D3DragEvent) (sim : Simulation) : Simulation :=
  let sim1 := if (active event =? 0)%nat then setAlphaTarget 0 sim else sim in
  setNodes (alter (pin None None) (subject event) (nodes sim1)) sim1.

(** *** The scene the render effect builds, and the component around it *)

Module Scene.
Record t : Type := mk {
  simulation : Simulation;
  links : list SimulationLink.t;          (* simulationLinks *)
  scale : D3Scale.Ordinal;                (* colorScale *)
  counts : gmap string nat;               (* nodeConnectionCounts *)
  listening : bool;                       (* simulation.on('tick', updatePositions) *)
  painted : list Geometry                 (* every positional paint, oldest first *)
}.
End Scene.

Definition withSimulation (f : Simulation → Simulation) (sc : Scene.t) : Scene.t :=
  {| Scene.simulation := f (Scene.simulation sc);
     Scene.links := Scene.links sc;
     Scene.scale := Scene.scale sc;
     Scene.counts := Scene.counts sc;
     Scene.listening := Scene.listening sc;
     Scene.painted := Scene.painted sc |}.

(** What is mounted: the [svg] and its container exist exactly when the
    component renders its last branch (lines 437-465). *)
Definition mounted (s : State) : bool :=
  negb (isLoading s) && bool_decide (error s = None).

Definition freshSvg : Svg :=
  {| __zoom := D3Zoom.zoomIdentity; g_transform := None |}.

Record Component : Type := mkComponent {
  state : State;
  refs : Refs;
  scene : option Scene.t;      (* the content of the svg *)
  requests : nat;              (* calls of fetch() so far *)
  randomCalls : nat            (* calls of Math.random() so far *)
}.

(** React commits a render: refs follow what is mounted. *)
Definition commit (c : Component) : Component :=
  if mounted (state c) then
    {| state := state c;
       refs := {| svgRef := Some (default freshSvg (svgRef (refs c)));
                  zoomBehaviorRef := zoomBehaviorRef (refs c) |};
       scene := scene c; requests := requests c; randomCalls := randomCalls c |}
  else
    {| state := state c;
       refs := {| svgRef := None; zoomBehaviorRef := zoomBehaviorRef (refs c) |};
       scene := None; requests := requests c; randomCalls := randomCalls c |}.

Section Component.

Variable anchor : D3Zoom.Transform → number → number * number.
Variable random : nat → number.
Variable physics : Forces → number → list SimNode → nat → Kinematics.
Variable alphaDecay : number.

(** The body of the render effect after its guard, in source order: adapter,
    colour scale, simulation, pre-warm, connection counts, first paint, tick
    listener, restart. *)
Definition buildScene (calls : nat) (dims : Dimensions) (d : NetworkData.t) : Scene.t :=
  let '(simulationNodes, nodeMap) := mapNodes random dims calls 0 (NetworkData.nodes d) ∅ in
  let links := simulationLinks nodeMap (NetworkData.links d) in
  let simulation := forceSimulation dims simulationNodes links in
  let simulation := prewarm physics alphaDecay simulation in
  let counts := nodeConnectionCounts (nodes simulation) links in
  let first := updatePositions simulation links in
  {| Scene.simulation := restart (setAlpha 1 simulation);
     Scene.links := links;
     Scene.scale := colorScale d;
     Scene.counts := counts;
     Scene.listening := true;
     Scene.painted := [first] |}.

(** The render effect with its guard (line 130). *)
Definition renderEffect (c : Component) : Component :=
  match data (state c), svgRef (refs c), isLoading (state c) with
  | Some d, Some svg, false =>
      {| state := state c;
         refs := {| svgRef := Some {| __zoom := __zoom svg; g_transform := None |};
                    zoomBehaviorRef := Some zoomBehavior |};
         scene := Some (buildScene (randomCalls c) (dimensions (state c)) d);
         requests := requests c;
         randomCalls := (randomCalls c + 2 * length (NetworkData.nodes d))%nat |}
  | _, _, _ => c
  end.

(** One callback of the simulation's timer: a step, then the [tick] event,
    then the timer stops once the simulation has cooled. *)
Definition frame (sc : Scene.t) : Scene.t :=
  if running (Scene.simulation sc) then
    let sim := tick physics alphaDecay (Scene.simulation sc) in
    {| Scene.simulation := if Qle_bool alphaMin (alpha sim) then sim else stop sim;
       Scene.links := Scene.links sc;
       Scene.scale := Scene.scale sc;
       Scene.counts := Scene.counts sc;
       Scene.listening := Scene.listening sc;
       Scene.painted :=
         if Scene.listening sc
         then Scene.painted sc ++ [updatePositions sim (Scene.links sc)]
         else Scene.painted sc |}
  else sc.

Inductive Event : Type :=
| Resize (clientWidth : N)
| Click (op : ZoomOp)
| Frame
| DragStart (event : D3DragEvent)
| Drag (event : D3DragEvent)
| DragEnd (event : D3DragEvent).

Definition withState (s : State) (c : Component) : Component :=
  {| state := s; refs := refs c; scene := scene c;
     requests := requests c; randomCalls := randomCalls c |}.

Definition withScene (f : Scene.t → Scene.t) (c : Component) : Component :=
  {| state := state c; refs := refs c; scene := f <$> scene c;
     requests := requests c; randomCalls := randomCalls c |}.

(** The component's reaction to one event.  [setDimensions] always stores a
    new object, so the render effect re-runs after every handled resize; the
    zoom handlers leave the effect's dependencies alone. *)
Definition step (c : Component) (ev : Event) : Component :=
  match ev with
  | Resize clientWidth =>
      if mounted (state c)
      then renderEffect (commit (withState (handleResize (Some clientWidth) (state c)) c))
      else withState (handleResize None (state c)) c
  | Click op =>
      let '(s, r) := zoomOp anchor op (state c, refs c) in
      commit {| state := s; refs := r; scene := scene c;
                requests := requests c; randomCalls := randomCalls c |}
  | Frame => withScene frame c
  | DragStart event => withScene (withSimulation (onDragStart event)) c
  | Drag event => withScene (withSimulation (onDrag event)) c
  | DragEnd event => withScene (withSimulation (onDragEnd event)) c
  end.

Definition run (c : Component) (evs : list Event) : Component :=
  fold_left step evs c.

(** Mounting: the first render shows the loading branch; the three effects
    run once: the fetch is issued, the initial [handleResize] finds no
    container, the render effect meets its guard. *)
Definition mount : Component :=
  let c := {| state := initialState;
              refs := {| svgRef := None; zoomBehaviorRef := None |};
              scene := None; requests := 0; randomCalls := 0 |} in
  let c := {| state := state c; refs := refs c; scene := scene c;
              requests := S (requests c); randomCalls := randomCalls c |} in
  renderEffect (withState (handleResize None (state c)) c).

(** The fetch settles: [fetchData] finishes, React re-renders, the render
    effect re-runs. *)
Definition settle (r : FetchOutcome) (c : Component) : Component * list console :=
  let '(s, out) := fetchData r (state c) in
  (renderEffect (commit (withState s c)), out).

End Component.

(** *** The selections the render effect creates (lines 220-255)

    An element of a selection carries the datum bound to it; a circle's datum
    is a simulation node, that is a handle, a line's datum is a simulation
    link.  Only the three style properties the hover handlers write are
    kept; a freshly joined element has none of them set. *)

(** A [stroke-width]: a literal, or one of the two expressions over a link's
    value, [Math.sqrt(d.value)] and [Math.sqrt(d.value) + 1], kept as
    written. *)
Inductive StrokeWidth : Type :=
| Literal (w : number)
| SqrtValue (value : number)
| SqrtValuePlus1 (value : number).

Module Style.
Record t : Type := mk {
  opacity : option number;
  stroke : option string;
  strokeWidth : option StrokeWidth
}.
End Style.

Definition noStyle : Style.t :=
  {| Style.opacity := None; Style.stroke := None; Style.strokeWidth := None |}.

Record Element (D : Type) : Type := mkElement { datum : D; style : Style.t }.
Arguments mkElement {D} datum style.
Arguments datum {D} e.
Arguments style {D} e.

Module Tooltip.
Record t : Type := mk {
  opacity : option number;
  left : option number;       (* in px *)
  top : option number;        (* in px *)
  html : option string
}.
End Tooltip.

Module Dom.
Record t : Type := mk {
  nodes : list (Element nat);
  links : list (Element SimulationLink.t);
  tooltip : Tooltip.t
}.
End Dom.

(** [selectAll(...).data(array).join(...)] *)
Definition joinNodes (simulationNodes : list SimNode) : list (Element nat) :=
  imap (fun i _ => {| datum := i; style := noStyle |}) simulationNodes.

Definition joinLinks (simulationLinks : list SimulationLink.t)
  : list (Element SimulationLink.t) :=
  (fun l => {| datum := l; style := noStyle |}) <$> simulationLinks.

Definition joined (simulationNodes : list SimNode) (simulationLinks : list SimulationLink.t)
  : Dom.t :=
  {| Dom.nodes := joinNodes simulationNodes;
     Dom.links := joinLinks simulationLinks;
     Dom.tooltip := {| Tooltip.opacity := None; Tooltip.left := None;
                       Tooltip.top := None; Tooltip.html := None |} |}.

(** [selection.style(name, value)], three properties at once where the source
    chains them; the value may depend on the datum. *)
Definition restyle {D : Type} (f : D → Style.t → Style.t) (sel : list (Element D))
  : list (Element D) :=
  (fun e => {| datum := datum e; style := f (datum e) (style e) |}) <$> sel.

(** [selection.filter(p).style(...)]: the other elements keep their style. *)
Definition restyleWhere {D : Type} (p : D → bool) (f : D → Style.t → Style.t)
    (sel : list (Element D)) : list (Element D) :=
  restyle (fun d st => if p d then f d st else st) sel.

Definition setOpacity (v : number) (st : Style.t) : Style.t :=
  {| Style.opacity := Some v; Style.stroke := Style.stroke st;
     Style.strokeWidth := Style.strokeWidth st |}.

Definition setAll (v : number) (c : string) (w : StrokeWidth) (st : Style.t) : Style.t :=
  {| Style.opacity := Some v; Style.stroke := Some c; Style.strokeWidth := Some w |}.

Definition nodeStrokeWidth : number := 1.5.

(** [sourceId === d.id || targetId === d.id] *)
Definition incident (store : list SimNode) (d : SimNode) (link : SimulationLink.t) : bool :=
  bool_decide (sourceId store link = SimulationNetworkNode.id d)
  || bool_decide (targetId store link = SimulationNetworkNode.id d).

Section Templates.

(** A template literal prints an interpolated number with JavaScript's own
    number-to-string conversion (the decimal digits of an integer of moderate
    size, fewer digits from 2^53 up, an exponent from 1e21 up), which is the
    language's and is left open here: [numberToString n] is the text of
    [`${n}`] for the integral number [n]. *)
Variable numberToString : Z → string.

(** The [mouseover] listener (lines 305-354) on the circle whose datum is the
    handle [h]; [transform] is [d3.zoomTransform(svg.node())] and [svgRect]
    the left and top of [svgRef.current?.getBoundingClientRect()]. *)
Definition mouseover (store : list SimNode) (simulationLinks : list SimulationLink.t)
    (counts : gmap string nat) (transform : D3Zoom.Transform)
    (svgRect : option (number * number)) (h : nat) (dom : Dom.t) : Dom.t :=
  let d := deref store h in
  let connected := connectedNodeIds store simulationLinks d in
  let nodes1 := restyle (fun _ => setOpacity 0.2) (Dom.nodes dom) in
  let links1 := restyle (fun _ => setOpacity 0.1) (Dom.links dom) in
  let nodes2 :=
    restyleWhere (fun node => has connected (SimulationNetworkNode.id (deref store node)))
      (fun _ => setAll 1 "#fff" (Literal 2)) nodes1 in
  let links2 :=
    restyleWhere (incident store d)
      (fun link => setAll 1 "#555" (SqrtValuePlus1 (SimulationLink.value link))) links1 in
  let nodeX := (orZero (SimulationNetworkNode.x d) * D3Zoom.k transform + D3Zoom.x transform)%Q in
  let nodeY := (orZero (SimulationNetworkNode.y d) * D3Zoom.k transform + D3Zoom.y transform)%Q in
  let screenX := (orZero (from_option fst 0 svgRect) + nodeX)%Q in
  let screenY := (orZero (from_option snd 0 svgRect) + nodeY)%Q in
  {| Dom.nodes := nodes2;
     Dom.links := links2;
     Dom.tooltip :=
       {| Tooltip.opacity := Some 1%Q;
          Tooltip.left := Some (screenX + 20)%Q;
          Tooltip.top := Some (screenY - 20)%Q;
          Tooltip.html :=
            Some ("<strong>" +:+ SimulationNetworkNode.id d +:+ "</strong><br>Group: "
                  +:+ numberToString (SimulationNetworkNode.group d)
                  +:+ "<br>Connections: "
                  +:+ numberToString (Z.of_nat (tooltipConnections counts d))) |} |}.

(** The [mouseout] listener (lines 355-364). *)
Definition mouseout (dom : Dom.t) : Dom.t :=
  {| Dom.nodes := restyle (fun _ => setAll 1 "#fff" (Literal nodeStrokeWidth)) (Dom.nodes dom);
     Dom.links :=
       restyle (fun link => setAll 0.6 "#999" (SqrtValue (SimulationLink.value link)))
         (Dom.links dom);
     Dom.tooltip :=
       {| Tooltip.opacity := Some 0%Q;
          Tooltip.left := Tooltip.left (Dom.tooltip dom);
          Tooltip.top := Tooltip.top (Dom.tooltip dom);
          Tooltip.html := Tooltip.html (Dom.tooltip dom) |} |}.

(** *** Fill colours and legend (lines 237, 366-399)

    The colour scale is an object with state: every call may extend its
    domain.  The circles are filled first, in array order, the legend rows
    are made afterwards. *)

Fixpoint fills (s : D3Scale.Ordinal) (simulationNodes : list SimNode)
  : list (option string) * D3Scale.Ordinal :=
  match simulationNodes with
  | [] => ([], s)
  | d :: rest =>
      let '(c, s1) := D3Scale.scale s (SimulationNetworkNode.group d) in
      let '(cs, s2) := fills s1 rest in
      (c :: cs, s2)
  end.

Record LegendRow : Type := mkLegendRow {
  translateY : nat;              (* translate(0, i * 20 + 20) *)
  fill : option string;
  text : string
}.

(** [groupIds.forEach((groupId, i) => ...)], from index [i] on. *)
Fixpoint legendRows (s : D3Scale.Ordinal) (i : nat) (groupIds : list Z)
  : list LegendRow * D3Scale.Ordinal :=
  match groupIds with
  | [] => ([], s)
  | groupId :: rest =>
      let '(c, s1) := D3Scale.scale s groupId in
      let '(rows, s2) := legendRows s1 (S i) rest in
      ({| translateY := (i * 20 + 20)%nat; fill := c;
          text := "Group " +:+ numberToString groupId |} :: rows, s2)
  end.

(** Fills, then legend, on the scale made for the dataset. *)
Definition paintColours (d : NetworkData.t) (simulationNodes : list SimNode)
  : list (option string) * list LegendRow * D3Scale.Ordinal :=
  let '(nodeFills, s1) := fills (colorScale d) simulationNodes in
  let '(rows, s2) := legendRows s1 0 (groupIds d) in
  (nodeFills, rows, s2).

End Templates.

End NetworkGraph.

(** ** Treemap.tsx: the resize handler (lines 39-60) *)

Module Treemap.

Record Dimensions : Type := mkDimensions { width : number; height : number }.

Definition orDefault (w d : N) : N := if (w =? 0)%N then d else w.

Definition ofN (n : N) : number := inject_Z (Z.of_N n).

(** The handler only touches the [dimensions] cell: [None] when
    [setDimensions] is not called. *)
Definition handleResize (containerRef : option N) : option Dimensions :=
  match containerRef with
  | Some clientWidth =>
      let containerWidth := ofN (orDefault clientWidth 800) in
      Some {| width := containerWidth;
              height := Qmin (containerWidth * 0.75) 600 |}
  | None => None
  end.

(** *** Leaf cells (lines 158-202)

    What the layout leaves in a leaf of the hierarchy: the name of its datum
    and the corners of its cell. *)
Module Leaf.
Record t : Type := mk {
  name : string;
  x0 : number; y0 : number; x1 : number; y1 : number
}.
End Leaf.

(** [a < b] on numbers. *)
Definition ltb (a b : number) : bool := negb (Qle_bool b a).

(** [Math.max(0, d.x1 - d.x0 - 1)] and [Math.max(0, d.y1 - d.y0 - 1)] *)
Definition rectWidth (d : Leaf.t) : number := Qmax 0 (Leaf.x1 d - Leaf.x0 d - 1).
Definition rectHeight (d : Leaf.t) : number := Qmax 0 (Leaf.y1 d - Leaf.y0 d - 1).

(** The data of the label's [tspan]s (lines 184-193); a string is its
    sequence of code units. *)
Definition labelLines (d : Leaf.t) : list string :=
  let name := Leaf.name d in
  if ltb (Leaf.x1 d - Leaf.x0 d) 30 || ltb (Leaf.y1 d - Leaf.y0 d) 20 then []
  else if (String.length name <=? 15)%nat then [name]
  else [String.substring 0 14 name +:+ "..."].

End Treemap.

(** ** PackedCircles.tsx *)

Module PackedCircles.

Record Dimensions : Type := mkDimensions { width : number; height : number }.

Definition orDefault (w d : N) : N := if (w =? 0)%N then d else w.

Definition ofN (n : N) : number := inject_Z (Z.of_N n).

(** The resize handler (lines 42-63): [None] when [setDimensions] is not
    called. *)
Definition handleResize (containerRef : option N) : option Dimensions :=
  match containerRef with
  | Some clientWidth =>
      let containerWidth := ofN (orDefault clientWidth 800) in
      Some {| width := containerWidth; height := Qmin containerWidth 600 |}
  | None => None
  end.

(** What the render effect reads of a node of the packed hierarchy: its depth,
    whether it has a [children] array (the handles of its children), and the
    radius of its circle. *)
Module Node.
Record t : Type := mk {
  name : string;
  depth : nat;
  children : option (list nat);
  r : number
}.
End Node.

Definition ltb (a b : number) : bool := negb (Qle_bool b a).

(** [d.children ? 0.3 : 0.8] (lines 160, 191) *)
Definition fillOpacity (d : Node.t) : number :=
  match Node.children d with Some _ => 0.3 | None => 0.8 end.

(** *** The label groups (lines 198-228)

    Both groups are built with d3-selection, which is not among the
    sources; the operations they chain are modelled after the library, for
    a selection with one parent.  A selection holds slots, each an element
    (given here by the datum bound to it) or empty.  [selection.data] returns
    the update selection, with one slot per datum, filled where an element
    already exists, and keeps the placeholders of the other data in its
    [_enter] field; [selection.filter] keeps the elements that pass the
    test and returns a plain selection, without an [_enter] field;
    [selection.join] appends one element per placeholder of [enter()], which
    for a selection without [_enter] is as many empty slots as the selection
    has, and merges them with the elements of the selection. *)
Module Selection.
Section Selection.

Context {D : Type}.

Record t : Type := mk {
  _groups : list (option D);
  _enter : option (list (option D))
}.

(** [g.selectAll(name)] on a group that was just appended: no element. *)
Definition selectAll : t := {| _groups := []; _enter := None |}.

(** [selection.data(values)], binding by index. *)
Definition data (values : list D) (sel : t) : t :=
  let bound (i : nat) : bool :=
    match _groups sel !! i with Some (Some _) => true | _ => false end in
  {| _groups := imap (fun i v => if bound i then Some v else None) values;
     _enter := Some (imap (fun i v => if bound i then None else Some v) values) |}.

(** [selection.filter(test)] *)
Definition filter (test : D → bool) (sel : t) : t :=
  {| _groups := Some <$> List.filter test (omap id (_groups sel)); _enter := None |}.

(** [selection.enter()] *)
Definition enter (sel : t) : list (option D) :=
  match _enter sel with
  | Some placeholders => placeholders
  | None => (fun _ => None) <$> _groups sel
  end.

(** [selection.join(name)]: the data of the elements of
    [enter.append(name).merge(update)], in order. *)
Definition join (sel : t) : list D :=
  omap id
    (imap (fun i e => match e with
                      | Some d => Some d
                      | None => mjoin (_groups sel !! i)
                      end)
       (enter sel)).

End Selection.
End Selection.

(** The data of the texts in the two label groups: the parent labels
    (lines 199-203), [selectAll("text").data(...).join("text")], and the
    leaf labels (lines 214-222),
    [selectAll("text").data(...).filter(d => d.r > 20).join("text")]. *)
Definition parentLabels (descendants : list Node.t) : list Node.t :=
  Selection.join
    (Selection.data (List.filter (fun d => (Node.depth d =? 1)%nat) descendants)
       Selection.selectAll).

Definition leafLabels (descendants : list Node.t) : list Node.t :=
  Selection.join
    (Selection.filter (fun d => ltb 20 (Node.r d))
       (Selection.data
          (List.filter (fun d => negb (bool_decide (is_Some (Node.children d)))
                                 || (1 <? Node.depth d)%nat) descendants)
          Selection.selectAll)).

(** [Math.min(d.r / 3, 14)], the font size of a leaf label in px. *)
Definition fontSize (d : Node.t) : number := Qmin (Node.r d / 3) 14.

End PackedCircles.

(** * Vocabulary of the statements *)

Import NetworkGraph.

(** A link is well-formed for a payload when both endpoints name a node. *)
Definition endpointsKnown (raw : NetworkData.t) (link : NetworkLink.t) : Prop :=
  NetworkLink.source link ∈ (NetworkNode.id <$> NetworkData.nodes raw) ∧
  NetworkLink.target link ∈ (NetworkNode.id <$> NetworkData.nodes raw).

#[global] Instance endpointsKnown_dec (raw : NetworkData.t) (link : NetworkLink.t) :
  Decision (endpointsKnown raw link).
Proof. unfold endpointsKnown. apply _. Defined.

(** What a link connects, read from the payload and read through the
    references of a simulation link. *)
Definition endpoints (link : NetworkLink.t) : string * string * number :=
  (NetworkLink.source link, NetworkLink.target link, NetworkLink.value link).

Definition simEndpoints (store : list SimNode) (link : SimulationLink.t)
  : string * string * number :=
  (sourceId store link, targetId store link, SimulationLink.value link).

(** The component right after a payload has loaded. *)
Definition loadedState (d : NetworkData.t) : State :=
  {| data := Some d;
     dimensions := {| width := 800; height := 600 |};
     isLoading := false;
     error := None;
     zoomLevel := 1 |}.

Definition loaded
    (random : nat → number)
    (physics : Forces → number → list SimNode → nat → Kinematics)
    (alphaDecay : number) (d : NetworkData.t) : Component :=
  {| state := loadedState d;
     refs := {| svgRef := Some freshSvg; zoomBehaviorRef := Some zoomBehavior |};
     scene := Some (buildScene random physics alphaDecay 0 (dimensions (loadedState d)) d);
     requests := 1;
     randomCalls := (0 + 2 * length (NetworkData.nodes d))%nat |}.

(** The closed interval the scale factor lives in. *)
Definition inRange (z : number) : Prop := (0.5 <= z)%Q ∧ (z <= 3)%Q.

(** The scale factors of a view: the [zoomLevel] cell and, when the [svg] is
    mounted, the scale of its zoom transform. *)
Definition scaleFactors (c : State * Refs) : list number :=
  zoomLevel (fst c) ::
  match svgRef (snd c) with
  | Some svg => [D3Zoom.k (__zoom svg)]
  | None => []
  end.

(** The only zoom behaviour the component ever stores in its ref. *)
Definition ownBehavior (r : Refs) : Prop :=
  ∀ zb, zoomBehaviorRef r = Some zb → zb = zoomBehavior.

(** The sample view used to exercise the zoom lemmas: a mounted [svg] zoomed
    to 2.9 and a translation rule that keeps the origin. *)
Definition sampleAnchor (t : D3Zoom.Transform) (k1 : number) : number * number :=
  (D3Zoom.x t, D3Zoom.y t).

Definition sampleView : State * Refs :=
  (setZoomLevel 2.9 initialState,
   {| svgRef := Some {| __zoom := {| D3Zoom.k := 2.9; D3Zoom.x := 10; D3Zoom.y := -4 |};
                        g_transform := None |};
      zoomBehaviorRef := Some zoomBehavior |}).

(** The distinct values of a list in first-seen order: each value at its first
    occurrence, later occurrences dropped. *)
Fixpoint firstSeen (l : list Z) : list Z :=
  match l with
  | [] => []
  | v :: rest => v :: filter (λ w, w ≠ v) (firstSeen rest)
  end.

(** The dataset of the specification's end-to-end example. *)
Definition exampleData : NetworkData.t :=
  {| NetworkData.nodes :=
       [ {| NetworkNode.id := "a"; NetworkNode.group := 1 |};
         {| NetworkNode.id := "b"; NetworkNode.group := 1 |};
         {| NetworkNode.id := "x"; NetworkNode.group := 2 |} ];
     NetworkData.links :=
       [ {| NetworkLink.source := "a"; NetworkLink.target := "b"; NetworkLink.value := 4 |};
         {| NetworkLink.source := "a"; NetworkLink.target := "missing";
            NetworkLink.value := 1 |} ] |}.

(** The colour the scale answers for a group. *)
Definition colorOf (d : NetworkData.t) (g : Z) : option string :=
  fst (D3Scale.scale (colorScale d) g).

(** Number of link ends at node [s]: links leaving it plus links entering it. *)
Definition degree (links : list NetworkLink.t) (s : string) : nat :=
  (length (filter (λ l, NetworkLink.source l = s) links)
   + length (filter (λ l, NetworkLink.target l = s) links))%nat.

(** [x] is one link hop away from [s]. *)
Definition adjacent (links : list NetworkLink.t) (s x : string) : Prop :=
  ∃ l, l ∈ links ∧
       ((NetworkLink.source l = s ∧ NetworkLink.target l = x) ∨
        (NetworkLink.target l = s ∧ NetworkLink.source l = x)).

(** A simulation link and a dataset link connect the same two ids. *)
Definition sameEnds (store : list SimNode) (l : SimulationLink.t) (dl : NetworkLink.t) : Prop :=
  sourceId store l = NetworkLink.source dl ∧ targetId store l = NetworkLink.target dl.

(** The scene [sc] is a scene of dataset [d]. *)
Definition sceneFor (d : NetworkData.t) (sc : Scene.t) : Prop :=
  SimulationNetworkNode.id <$> nodes (Scene.simulation sc)
    = NetworkNode.id <$> NetworkData.nodes d ∧
  simEndpoints (nodes (Scene.simulation sc)) <$> Scene.links sc
    = endpoints <$> filter (endpointsKnown d) (NetworkData.links d) ∧
  ∀ s, default 0%nat (Scene.counts sc !! s)
       = degree (filter (endpointsKnown d) (NetworkData.links d)) s.

(** The component shows dataset [d]. *)
Definition showing (d : NetworkData.t) (c : Component) : Prop :=
  data (state c) = Some d ∧ isLoading (state c) = false ∧ error (state c) = None ∧
  is_Some (svgRef (refs c)) ∧
  ∃ sc, scene c = Some sc ∧ sceneFor d sc.

(** The run of the component on a payload that loaded, after any events. *)
Definition afterLoad
    (anchor : D3Zoom.Transform → number → number * number)
    (random : nat → number)
    (physics : Forces → number → list SimNode → nat → Kinematics)
    (alphaDecay : number) (raw : NetworkData.t) (evs : list Event) : Component :=
  run anchor random physics alphaDecay
    (fst (settle random physics alphaDecay (Response true (Parsed raw))
            (mount random physics alphaDecay)))
    evs.

(** A concrete engine for the examples: every call of [Math.random()]
    answers 0.5 and a step moves a pinned node to its pin and leaves the
    others where they are. *)
Definition sampleRandom (n : nat) : number := 0.5.

Definition samplePhysics (f : Forces) (a : number) (ns : list SimNode) (i : nat)
  : Kinematics :=
  {| kx := default (SimulationNetworkNode.x (deref ns i))
                   (SimulationNetworkNode.fx (deref ns i));
     ky := default (SimulationNetworkNode.y (deref ns i))
                   (SimulationNetworkNode.fy (deref ns i));
     kvx := 0; kvy := 0 |}.

Definition sampleDecay : number := 0.0228.

(** The number-to-string conversion of the examples: decimal digits, which
    is what JavaScript prints for the small integers they use. *)
Definition sampleToString (n : Z) : string := pretty n.

(** Links A-B and A-C, no link B-C, and a node D that no link touches. *)
Definition hoverData : NetworkData.t :=
  {| NetworkData.nodes :=
       [ {| NetworkNode.id := "A"; NetworkNode.group := 1 |};
         {| NetworkNode.id := "B"; NetworkNode.group := 1 |};
         {| NetworkNode.id := "C"; NetworkNode.group := 2 |};
         {| NetworkNode.id := "D"; NetworkNode.group := 2 |} ];
     NetworkData.links :=
       [ {| NetworkLink.source := "A"; NetworkLink.target := "B"; NetworkLink.value := 1 |};
         {| NetworkLink.source := "C"; NetworkLink.target := "A"; NetworkLink.value := 2 |} ] |}.

(** A self-loop on a, a link a-b, and a node c that no link touches. *)
Definition loopData : NetworkData.t :=
  {| NetworkData.nodes :=
       [ {| NetworkNode.id := "a"; NetworkNode.group := 1 |};
         {| NetworkNode.id := "b"; NetworkNode.group := 1 |};
         {| NetworkNode.id := "c"; NetworkNode.group := 2 |} ];
     NetworkData.links :=
       [ {| NetworkLink.source := "a"; NetworkLink.target := "a"; NetworkLink.value := 1 |};
         {| NetworkLink.source := "a"; NetworkLink.target := "b"; NetworkLink.value := 2 |} ] |}.

(** Two seeded nodes and, on them, one finger holding node 0 while a second
    finger taps node 1. *)
Definition twoNodes : Simulation :=
  forceSimulation {| width := 800; height := 600 |}
    [ simNode {| width := 800; height := 600 |} 0.5 0.5
        {| NetworkNode.id := "a"; NetworkNode.group := 1 |};
      simNode {| width := 800; height := 600 |} 0.25 0.75
        {| NetworkNode.id := "b"; NetworkNode.group := 1 |} ]
    [].

Definition held : Simulation :=
  onDragStart {| active := 0; subject := 0; x := 400; y := 300 |} twoNodes.

(** The scene of the two seeded nodes, nothing painted yet. *)
Definition twoNodesScene : Scene.t :=
  {| Scene.simulation := twoNodes;
     Scene.links := [];
     Scene.scale := D3Scale.scaleOrdinal;
     Scene.counts := ∅;
     Scene.listening := true;
     Scene.painted := [] |}.

(** The engine honours pins: a step leaves a pinned node at its pin, as
    d3-force does, which ends every step with [node.x = node.fx] and
    [node.y = node.fy] on the nodes that are pinned. *)
Definition honoursPins
    (physics : Forces → number → list SimNode → nat → Kinematics) : Prop :=
  ∀ f a ns i n px py,
    ns !! i = Some n →
    SimulationNetworkNode.fx n = Some px → SimulationNetworkNode.fy n = Some py →
    kx (physics f a ns i) = px ∧ ky (physics f a ns i) = py.

(** Node [i] is pinned at ([px], [py]) and sits there. *)
Definition pinnedAt (i : nat) (px py : number) (sim : Simulation) : Prop :=
  ∃ m, nodes sim !! i = Some m ∧
       SimulationNetworkNode.x m = px ∧ SimulationNetworkNode.y m = py ∧
       SimulationNetworkNode.fx m = Some px ∧ SimulationNetworkNode.fy m = Some py.

(** The engine moves every node by ([dx], [dy]) in every step. *)
Definition drifts
    (physics : Forces → number → list SimNode → nat → Kinematics) (dx dy : number) : Prop :=
  ∀ f a ns i n,
    ns !! i = Some n →
    (kx (physics f a ns i) == SimulationNetworkNode.x n + dx)%Q ∧
    (ky (physics f a ns i) == SimulationNetworkNode.y n + dy)%Q.

(** An engine for the examples that moves every node one unit to the right
    in every step. *)
Definition driftPhysics (f : Forces) (a : number) (ns : list SimNode) (i : nat)
  : Kinematics :=
  {| kx := SimulationNetworkNode.x (deref ns i) + 1;
     ky := SimulationNetworkNode.y (deref ns i);
     kvx := 1; kvy := 0 |}.

Definition tapStart : D3DragEvent := {| active := 1; subject := 1; x := 375; y := 325 |}.
Definition tapEnd : D3DragEvent := {| active := 1; subject := 1; x := 375; y := 325 |}.

(** The fetch fails: transport failure, non-OK response, or a body that is
    not JSON. *)
Definition fetchFails (r : FetchOutcome) : bool :=
  match r with
  | TransportFailure => true
  | Response ok body =>
      negb ok || match body with Malformed => true | Parsed _ => false end
  end.

(** The component in its error state. *)
Definition failed : Component :=
  {| state := {| data := None;
                 dimensions := {| width := 800; height := 600 |};
                 isLoading := false;
                 error := Some "Error loading network graph data";
                 zoomLevel := 1 |};
     refs := {| svgRef := None; zoomBehaviorRef := None |};
     scene := None;
     requests := 1;
     randomCalls := 0 |}.

(** ** Vocabulary of the further properties *)

(** The greatest index at which a node of the array carries the id [s]. *)
Fixpoint lastIndexOf (s : string) (ns : list NetworkNode.t) : option nat :=
  match ns with
  | [] => None
  | n :: rest =>
      match lastIndexOf s rest with
      | Some j => Some (S j)
      | None => if bool_decide (NetworkNode.id n = s) then Some 0%nat else None
      end
  end.

(** The pointer moves of a gesture, first to last. *)
Definition dragMoves (moves : list D3DragEvent) (sim : Simulation) : Simulation :=
  fold_left (fun sim event => onDrag event sim) moves sim.

(** Where the pin of the dragged node is after the moves of a gesture that
    found the node at [start]. *)
Definition lastPointer (start : number * number) (moves : list D3DragEvent)
  : number * number :=
  fold_left (fun _ event => (x event, y event)) moves start.

(** A geometry keeps its lines attached: labels sit on the circles and line
    number [j] runs between the circles of the two nodes link number [j]
    refers to. *)
Definition attached (links : list SimulationLink.t) (g : Geometry) : Prop :=
  labels g = circles g ∧
  length (lines g) = length links ∧
  ∀ j l, links !! j = Some l →
    ∃ ps pt, circles g !! SimulationLink.source l = Some ps ∧
             circles g !! SimulationLink.target l = Some pt ∧
             lines g !! j = Some (ps, pt).

(** Pointer-enter on the circle with handle [h], or pointer-leave. *)
Inductive HoverEvent : Type :=
| Over (h : nat)
| Out.

(** A sequence of hover events on the elements of a scene, first to last. *)
Definition hover (numberToString : Z → string)
    (store : list SimNode) (simulationLinks : list SimulationLink.t)
    (counts : gmap string nat) (transform : D3Zoom.Transform)
    (svgRect : option (number * number)) (events : list HoverEvent) (dom : Dom.t) : Dom.t :=
  fold_left
    (fun dom event =>
       match event with
       | Over h =>
           mouseover numberToString store simulationLinks counts transform svgRect h dom
       | Out => mouseout dom
       end)
    events dom.

(** The styles [mouseover] leaves on a lit and on a dimmed element. *)
Definition litNode : Style.t := setAll 1 "#fff" (Literal 2) noStyle.
Definition litLink (value : number) : Style.t := setAll 1 "#555" (SqrtValuePlus1 value) noStyle.

(** The styles [mouseout] leaves. *)
Definition restingNode : Style.t := setAll 1 "#fff" (Literal nodeStrokeWidth) noStyle.
Definition restingLink (value : number) : Style.t := setAll 0.6 "#999" (SqrtValue value) noStyle.

(** [Math.random()] answers a number in [0, 1). *)
Definition unitInterval (random : nat → number) : Prop :=
  ∀ n, (0 <= random n)%Q ∧ (random n < 1)%Q.

(** A scene over [n] nodes keeps its lines attached: every handle of a link
    is a handle of the store and every geometry painted so far has one
    circle per node and its lines attached. *)
Definition paintsAttached (n : nat) (sc : Scene.t) : Prop :=
  length (nodes (Scene.simulation sc)) = n ∧
  Forall (λ l, (SimulationLink.source l < n)%nat ∧ (SimulationLink.target l < n)%nat)
    (Scene.links sc) ∧
  Scene.painted sc ≠ [] ∧
  Forall (λ g, length (circles g) = n ∧ attached (Scene.links sc) g) (Scene.painted sc).

(** * Verification *)

(** ** Dataset loader *)

Section Loader.

Implicit Types (raw : NetworkData.t) (link : NetworkLink.t).

Lemma has_nodeIds raw (s : string) :
  has (nodeIds raw) s = true ↔ s ∈ (NetworkNode.id <$> NetworkData.nodes raw).
Proof.
  unfold has, nodeIds. rewrite bool_decide_eq_true. apply elem_of_list_to_set.
Qed.

Lemma isValidLink_spec raw link :
  isValidLink (nodeIds raw) link = true ↔ endpointsKnown raw link.
Proof.
  unfold isValidLink, endpointsKnown.
  rewrite andb_true_iff, !has_nodeIds. reflexivity.
Qed.

Lemma isInvalidLink_negb ids link :
  isInvalidLink ids link = negb (isValidLink ids link).
Proof. unfold isInvalidLink, isValidLink. by rewrite negb_andb. Qed.

Lemma jsFilter_spec raw (l : list NetworkLink.t) :
  jsFilter (isValidLink (nodeIds raw)) l = filter (endpointsKnown raw) l.
Proof.
  unfold jsFilter. induction l as [|a l IH]; [done|]. simpl.
  rewrite filter_cons. destruct (isValidLink (nodeIds raw) a) eqn:E.
  - apply isValidLink_spec in E. rewrite decide_True by done. by f_equal.
  - rewrite decide_False; [done|]. intros H. apply isValidLink_spec in H. congruence.
Qed.

Lemma jsFilter_invalid_spec raw (l : list NetworkLink.t) :
  jsFilter (isInvalidLink (nodeIds raw)) l = filter (λ link, ¬ endpointsKnown raw link) l.
Proof.
  unfold jsFilter. induction l as [|a l IH]; [done|]. simpl.
  rewrite filter_cons, isInvalidLink_negb.
  destruct (isValidLink (nodeIds raw) a) eqn:E; simpl.
  - apply isValidLink_spec in E. rewrite decide_False by tauto. done.
  - rewrite decide_True; [by f_equal|]. intros H. apply isValidLink_spec in H. congruence.
Qed.

Lemma filter_none_invalid raw (l : list NetworkLink.t) :
  filter (λ link, ¬ endpointsKnown raw link) l = [] → filter (endpointsKnown raw) l = l.
Proof.
  induction l as [|a l IH]; [done|]. rewrite !filter_cons.
  destruct (decide (endpointsKnown raw a)).
  - rewrite decide_False by tauto. intros H. f_equal. by apply IH.
  - rewrite decide_True by done. discriminate.
Qed.

Lemma length_filter_split {A} (P : A → Prop) `{∀ x, Decision (P x)} (l : list A) :
  length l = (length (filter P l) + length (filter (λ x, ¬ P x) l))%nat.
Proof.
  induction l as [|a l IH]; [done|]. rewrite !filter_cons.
  destruct (decide (P a)).
  - rewrite decide_False by tauto. simpl. lia.
  - rewrite decide_True by done. simpl. lia.
Qed.

Lemma validate_nodes raw :
  NetworkData.nodes (fst (validate raw)) = NetworkData.nodes raw.
Proof. unfold validate. by destruct (0 <? _)%nat. Qed.

Lemma validate_links raw :
  NetworkData.links (fst (validate raw)) = filter (endpointsKnown raw) (NetworkData.links raw).
Proof.
  unfold validate. destruct (0 <? _)%nat eqn:E; simpl.
  - apply jsFilter_spec.
  - apply Nat.ltb_ge in E. unfold invalidLinks in E.
    rewrite jsFilter_invalid_spec in E.
    symmetry. apply filter_none_invalid.
    destruct (filter _ _); [done|simpl in E; lia].
Qed.

Lemma validate_valid raw link :
  link ∈ NetworkData.links (fst (validate raw)) → endpointsKnown (fst (validate raw)) link.
Proof.
  rewrite validate_links. intros [H _]%list_elem_of_filter.
  unfold endpointsKnown. by rewrite validate_nodes.
Qed.

End Loader.

(** ** Layout adapter: handles resolve to the node they were made for *)

Section AdapterFacts.

Variable random : nat → number.

Lemma mapNodes_ids dims calls i (ns : list NetworkNode.t) m :
  SimulationNetworkNode.id <$> fst (mapNodes random dims calls i ns m)
  = NetworkNode.id <$> ns.
Proof.
  revert calls i m. induction ns as [|n ns IH]; intros calls i m; [done|].
  simpl. specialize (IH (S (S calls)) (S i) (<[NetworkNode.id n := i]> m)).
  destruct (mapNodes _ _ _ _ ns _) as [sims m']. simpl in *. by f_equal.
Qed.

(** Every entry of the final [nodeMap] is either an old one or the handle of a
    node of the array carrying that id. *)
Lemma mapNodes_lookup dims calls i (ns : list NetworkNode.t) m (s : string) (h : nat) :
  snd (mapNodes random dims calls i ns m) !! s = Some h →
  (∃ j n, h = (i + j)%nat ∧ ns !! j = Some n ∧ NetworkNode.id n = s) ∨ m !! s = Some h.
Proof.
  revert calls i m. induction ns as [|n ns IH]; intros calls i m; [by right|].
  simpl. specialize (IH (S (S calls)) (S i) (<[NetworkNode.id n := i]> m)).
  destruct (mapNodes _ _ _ _ ns _) as [sims m']. simpl in *.
  intros H. destruct (IH H) as [(j & n' & -> & Hj & Hid)|Hm].
  - left. exists (S j), n'. split; [lia|done].
  - destruct (decide (NetworkNode.id n = s)) as [<-|Hne].
    + rewrite lookup_insert_eq in Hm. injection Hm as <-.
      left. exists 0%nat, n. split; [lia|done].
    + rewrite lookup_insert_ne in Hm by done. by right.
Qed.

Lemma mapNodes_keeps dims calls i (ns : list NetworkNode.t) m (s : string) :
  is_Some (m !! s) → is_Some (snd (mapNodes random dims calls i ns m) !! s).
Proof.
  revert calls i m. induction ns as [|n ns IH]; intros calls i m; [done|].
  simpl. specialize (IH (S (S calls)) (S i) (<[NetworkNode.id n := i]> m)).
  destruct (mapNodes _ _ _ _ ns _) as [sims m']. simpl in *.
  intros H. apply IH. rewrite lookup_insert_is_Some. 
  destruct (decide (NetworkNode.id n = s)); [by left|by right].
Qed.

Lemma mapNodes_total dims calls i (ns : list NetworkNode.t) m (s : string) :
  s ∈ (NetworkNode.id <$> ns) → is_Some (snd (mapNodes random dims calls i ns m) !! s).
Proof.
  revert calls i m. induction ns as [|n ns IH]; intros calls i m; [by intros ?%elem_of_nil|].
  simpl. pose proof (IH (S (S calls)) (S i) (<[NetworkNode.id n := i]> m)) as IH'.
  pose proof (mapNodes_keeps dims (S (S calls)) (S i) ns (<[NetworkNode.id n := i]> m) s) as K.
  destruct (mapNodes _ _ _ _ ns _) as [sims m']. simpl in *.
  intros [->|H]%elem_of_cons; [|by apply IH'].
  apply K. rewrite lookup_insert_eq. by eexists.
Qed.

Lemma mapNodes_unknown dims calls i (ns : list NetworkNode.t) (s : string) :
  s ∉ (NetworkNode.id <$> ns) → snd (mapNodes random dims calls i ns ∅) !! s = None.
Proof.
  intros Hs. destruct (snd _ !! s) as [h|] eqn:E; [|done].
  apply mapNodes_lookup in E as [(j & n & _ & Hj & <-)|E]; [|by rewrite lookup_empty in E].
  exfalso. apply Hs. apply list_elem_of_fmap. exists n. split; [done|].
  by eapply list_elem_of_lookup_2.
Qed.

(** The id read through a handle, in any store with the ids of the array. *)
Lemma deref_handle dims calls (ns : list NetworkNode.t) (store : list SimNode)
    (s : string) (h : nat) :
  SimulationNetworkNode.id <$> store = NetworkNode.id <$> ns →
  snd (mapNodes random dims calls 0 ns ∅) !! s = Some h →
  SimulationNetworkNode.id (deref store h) = s.
Proof.
  intros Hids [(j & n & -> & Hj & <-)|E]%mapNodes_lookup; [|by rewrite lookup_empty in E].
  simpl. unfold deref.
  assert ((SimulationNetworkNode.id <$> store) !! j = Some (NetworkNode.id n)) as H.
  { rewrite Hids, list_lookup_fmap, Hj. done. }
  rewrite list_lookup_fmap in H. destruct (store !! j); simpl in *; congruence.
Qed.

End AdapterFacts.

Section SimulationFacts.

Variable random : nat → number.
Variable physics : Forces → number → list SimNode → nat → Kinematics.
Variable alphaDecay : number.

Lemma simulationLinks_endpoints dims calls (d : NetworkData.t) (store : list SimNode) :
  SimulationNetworkNode.id <$> store = NetworkNode.id <$> NetworkData.nodes d →
  simEndpoints store <$>
    simulationLinks (snd (mapNodes random dims calls 0 (NetworkData.nodes d) ∅))
      (NetworkData.links d)
  = endpoints <$> filter (endpointsKnown d) (NetworkData.links d).
Proof.
  intros Hids. unfold simulationLinks.
  induction (NetworkData.links d) as [|l ls IH]; [done|].
  rewrite filter_cons. simpl. unfold simLink at 1.
  destruct (decide (endpointsKnown d l)) as [[Hs Ht]|Hn].
  - destruct (mapNodes_total random dims calls 0 _ ∅ _ Hs) as [hs Es].
    destruct (mapNodes_total random dims calls 0 _ ∅ _ Ht) as [ht Et].
    rewrite Es, Et. simpl. f_equal; [|exact IH].
    unfold simEndpoints, endpoints, sourceId, targetId. simpl.
    by rewrite (deref_handle random dims calls _ store _ _ Hids Es),
               (deref_handle random dims calls _ store _ _ Hids Et).
  - destruct (decide (NetworkLink.source l ∈ (NetworkNode.id <$> NetworkData.nodes d)))
      as [Hs|Hs].
    + assert (NetworkLink.target l ∉ (NetworkNode.id <$> NetworkData.nodes d)) as Ht
        by (intros ?; apply Hn; by split).
      rewrite (mapNodes_unknown random dims calls 0 _ _ Ht).
      by destruct (_ !! NetworkLink.source l).
    + by rewrite (mapNodes_unknown random dims calls 0 _ _ Hs).
Qed.

Lemma tick_ids sim :
  SimulationNetworkNode.id <$> nodes (tick physics alphaDecay sim)
  = SimulationNetworkNode.id <$> nodes sim.
Proof.
  unfold tick. cbn [nodes setNodes setAlpha forces alpha alphaTarget]. generalize (physics (forces sim)
    (alpha sim + (alphaTarget sim - alpha sim) * alphaDecay)%Q (nodes sim)).
  intros f. revert f. induction (nodes sim) as [|n ns IH]; intros f; [done|].
  simpl. f_equal. apply (IH (f ∘ S)).
Qed.

Lemma iter_tick_ids k sim :
  SimulationNetworkNode.id <$> nodes (Nat.iter k (tick physics alphaDecay) sim)
  = SimulationNetworkNode.id <$> nodes sim.
Proof.
  induction k as [|k IH]; [done|].
  change (Nat.iter (S k) (tick physics alphaDecay) sim)
    with (tick physics alphaDecay (Nat.iter k (tick physics alphaDecay) sim)).
  by rewrite tick_ids.
Qed.

#[local] Arguments prewarm : simpl never.
#[local] Arguments tick : simpl never.

Lemma prewarm_ids sim :
  SimulationNetworkNode.id <$> nodes (prewarm physics alphaDecay sim)
  = SimulationNetworkNode.id <$> nodes sim.
Proof. apply iter_tick_ids. Qed.

Lemma nodes_restart sim : nodes (restart sim) = nodes sim.
Proof. reflexivity. Qed.
Lemma nodes_setAlpha a sim : nodes (setAlpha a sim) = nodes sim.
Proof. reflexivity. Qed.

Lemma buildScene_eq calls dims (d : NetworkData.t) :
  buildScene random physics alphaDecay calls dims d =
  let r := mapNodes random dims calls 0 (NetworkData.nodes d) ∅ in
  let links := simulationLinks (snd r) (NetworkData.links d) in
  let simulation := prewarm physics alphaDecay (forceSimulation dims (fst r) links) in
  {| Scene.simulation := restart (setAlpha 1 simulation);
     Scene.links := links;
     Scene.scale := colorScale d;
     Scene.counts := nodeConnectionCounts (nodes simulation) links;
     Scene.listening := true;
     Scene.painted := [updatePositions simulation links] |}.
Proof.
  unfold buildScene. destruct (mapNodes _ _ _ _ _ _) as [sims m]. reflexivity.
Qed.

Lemma buildScene_ids calls dims (d : NetworkData.t) :
  SimulationNetworkNode.id <$> nodes (Scene.simulation (buildScene random physics alphaDecay calls dims d))
  = NetworkNode.id <$> NetworkData.nodes d.
Proof.
  rewrite buildScene_eq. cbv zeta. cbn [Scene.simulation].
  rewrite nodes_restart, nodes_setAlpha, prewarm_ids.
  cbn [forceSimulation nodes]. apply mapNodes_ids.
Qed.

Lemma buildScene_links calls dims (d : NetworkData.t) (store : list SimNode) :
  SimulationNetworkNode.id <$> store = NetworkNode.id <$> NetworkData.nodes d →
  simEndpoints store <$> Scene.links (buildScene random physics alphaDecay calls dims d)
  = endpoints <$> filter (endpointsKnown d) (NetworkData.links d).
Proof.
  intros Hids. rewrite buildScene_eq. cbv zeta. cbn [Scene.links].
  by apply simulationLinks_endpoints.
Qed.

End SimulationFacts.

(** ** The component after a successful load *)

Section Loaded.

Variable random : nat → number.
Variable physics : Forces → number → list SimNode → nat → Kinematics.
Variable alphaDecay : number.

Lemma mount_eq :
  mount random physics alphaDecay =
  {| state := initialState;
     refs := {| svgRef := None; zoomBehaviorRef := None |};
     scene := None; requests := 1; randomCalls := 0 |}.
Proof. reflexivity. Qed.

Lemma settle_ok (raw : NetworkData.t) :
  settle random physics alphaDecay (Response true (Parsed raw))
    (mount random physics alphaDecay)
  = (loaded random physics alphaDecay (fst (validate raw)), snd (validate raw)).
Proof.
  rewrite mount_eq. unfold settle, fetchData, fetchBody.
  cbn [fetch json mbind result_bind mret result_ret negb fst snd].
  destruct (validate raw) as [d out]. reflexivity.
Qed.

End Loaded.

(** C1. For every raw payload that loads, the dataset published to the
    component keeps exactly the raw links whose source and target are both ids
    of nodes of the payload (same order, same multiplicity), the links of the
    scene built for layout connect exactly those, and the raw links split
    into the kept ones and the ones with an unknown endpoint. *)
Theorem C1_layout_links_are_the_valid_raw_links
    (random : nat → number)
    (physics : Forces → number → list SimNode → nat → Kinematics)
    (alphaDecay : number) (raw : NetworkData.t) :
  let c := fst (settle random physics alphaDecay (Response true (Parsed raw))
                  (mount random physics alphaDecay)) in
  ∃ d sc,
    data (state c) = Some d ∧ scene c = Some sc ∧
    NetworkData.links d = filter (endpointsKnown raw) (NetworkData.links raw) ∧
    (∀ link, link ∈ NetworkData.links d ↔
             link ∈ NetworkData.links raw ∧ endpointsKnown raw link) ∧
    simEndpoints (nodes (Scene.simulation sc)) <$> Scene.links sc
      = endpoints <$> filter (endpointsKnown raw) (NetworkData.links raw) ∧
    length (NetworkData.links raw)
      = (length (NetworkData.links d)
         + length (filter (λ link, ¬ endpointsKnown raw link) (NetworkData.links raw)))%nat.
Proof.
  intros c. subst c. rewrite settle_ok. cbn [fst].
  set (d := fst (validate raw)).
  exists d, (buildScene random physics alphaDecay 0 (dimensions (loadedState d)) d).
  assert (NetworkData.links d = filter (endpointsKnown raw) (NetworkData.links raw)) as Hl
    by apply validate_links.
  split; [reflexivity|]. split; [reflexivity|]. split; [exact Hl|]. split.
  { intros link. rewrite Hl, list_elem_of_filter. tauto. }
  split.
  - rewrite (buildScene_links random physics alphaDecay 0 _ d _
               (buildScene_ids random physics alphaDecay 0 _ d)).
    f_equal. rewrite Hl. clear Hl.
    induction (NetworkData.links raw) as [|l ls IH]; [done|].
    rewrite filter_cons. destruct (decide (endpointsKnown raw l)) as [H|H]; [|exact IH].
    rewrite filter_cons, decide_True.
    + by rewrite IH.
    + unfold endpointsKnown, d. rewrite validate_nodes. exact H.
  - rewrite Hl. apply length_filter_split.
Qed.

(** ** Zoom controls *)

Section ZoomFacts.

Variable anchor : D3Zoom.Transform → number → number * number.

Lemma constrainScale_inRange (k1 : number) :
  inRange (D3Zoom.constrainScale zoomBehavior k1).
Proof.
  unfold inRange, D3Zoom.constrainScale, zoomBehavior. cbn [D3Zoom.scaleExtent fst snd].
  split.
  - apply Q.le_max_l.
  - apply Q.max_lub; [done|apply Q.le_min_l].
Qed.

Lemma zoomIn_level_inRange (z : number) : inRange z → inRange (Qmin (z + 0.2) 3).
Proof.
  intros [Hlo Hhi]. split.
  - apply Q.min_glb; [|done].
    apply Qle_trans with z; [done|]. rewrite <- (Qplus_0_r z) at 1.
    apply Qplus_le_r. done.
  - apply Q.le_min_r.
Qed.

Lemma zoomOut_level_inRange (z : number) : inRange z → inRange (Qmax (z - 0.2) 0.5).
Proof.
  intros [Hlo Hhi]. split.
  - apply Q.le_max_r.
  - apply Q.max_lub; [|done].
    apply Qle_trans with z; [|done]. rewrite <- (Qplus_0_r z) at 2.
    unfold Qminus. apply Qplus_le_r. done.
Qed.

Lemma constrainScale_fixed (v : number) :
  inRange v → (D3Zoom.constrainScale zoomBehavior v == v)%Q.
Proof.
  intros [Hlo Hhi]. unfold D3Zoom.constrainScale, zoomBehavior.
  cbn [D3Zoom.scaleExtent fst snd].
  assert (Qmin 3 v == v)%Q as Hmin by (by apply Q.min_r).
  rewrite Q.max_r; [exact Hmin|]. by rewrite Hmin.
Qed.

(** On a mounted view a zoom-in trigger adds 0.2 and caps at 3, a zoom-out
    trigger subtracts 0.2 and stops at 0.5; the zoom transform follows. *)
Lemma handleZoomIn_level (s : State) (svg : Svg) :
  inRange (zoomLevel s) →
  let c := handleZoomIn anchor s {| svgRef := Some svg; zoomBehaviorRef := Some zoomBehavior |} in
  (zoomLevel (fst c) == Qmin (zoomLevel s + 0.2) 3)%Q ∧
  ∃ svg', svgRef (snd c) = Some svg' ∧
          (D3Zoom.k (__zoom svg') == Qmin (zoomLevel s + 0.2) 3)%Q.
Proof.
  intros H c. pose proof (constrainScale_fixed _ (zoomIn_level_inRange _ H)) as E.
  split; [exact E|]. eexists. split; [reflexivity|exact E].
Qed.

Lemma handleZoomOut_level (s : State) (svg : Svg) :
  inRange (zoomLevel s) →
  let c := handleZoomOut anchor s {| svgRef := Some svg; zoomBehaviorRef := Some zoomBehavior |} in
  (zoomLevel (fst c) == Qmax (zoomLevel s - 0.2) 0.5)%Q ∧
  ∃ svg', svgRef (snd c) = Some svg' ∧
          (D3Zoom.k (__zoom svg') == Qmax (zoomLevel s - 0.2) 0.5)%Q.
Proof.
  intros H c. pose proof (constrainScale_fixed _ (zoomOut_level_inRange _ H)) as E.
  split; [exact E|]. eexists. split; [reflexivity|exact E].
Qed.

Lemma zoomOp_invariant op (c : State * Refs) :
  ownBehavior (snd c) → Forall inRange (scaleFactors c) →
  ownBehavior (snd (zoomOp anchor op c)) ∧ Forall inRange (scaleFactors (zoomOp anchor op c)).
Proof.
  destruct c as [s [svg zb]]. unfold ownBehavior, scaleFactors. cbn [fst snd svgRef zoomBehaviorRef].
  intros Hown Hin.
  destruct op; unfold zoomOp, handleZoomIn, handleZoomOut, handleZoomReset;
    cbn [fst snd svgRef zoomBehaviorRef];
    destruct svg as [svg|], zb as [zb|]; try (split; assumption);
    rewrite (Hown zb eq_refl);
    (split; [intros ? [= <-]; reflexivity|]);
    cbn [zoomTransition handleZoom scaleTo fst snd svgRef zoomLevel setZoomLevel __zoom D3Zoom.k];
    repeat constructor;
    try apply constrainScale_inRange; try done.
Qed.

Lemma zoomOps_invariant ops (c : State * Refs) :
  ownBehavior (snd c) → Forall inRange (scaleFactors c) →
  ownBehavior (snd (zoomOps anchor ops c)) ∧ Forall inRange (scaleFactors (zoomOps anchor ops c)).
Proof.
  revert c. induction ops as [|op ops IH]; intros c Hown Hin; [by split|].
  unfold zoomOps. simpl. destruct (zoomOp_invariant op c Hown Hin) as [Hown' Hin'].
  apply (IH _ Hown' Hin').
Qed.

End ZoomFacts.

(** C2. From any view whose scale factors lie in [0.5, 3], any sequence of
    zoom-in, zoom-out and reset triggers ends in a view whose scale factors
    (the zoom level shown by the component and the scale of the zoom
    transform) lie in [0.5, 3] again. *)
Theorem C2_zoom_scale_stays_in_range
    (anchor : D3Zoom.Transform → number → number * number)
    (ops : list ZoomOp) (c : State * Refs) :
  ownBehavior (snd c) →
  Forall inRange (scaleFactors c) →
  Forall inRange (scaleFactors (zoomOps anchor ops c)).
Proof. intros Hown Hin. by apply zoomOps_invariant. Qed.

Lemma C2_zoom_scale_stays_in_range_witness :
  ownBehavior (snd sampleView) ∧
  Forall inRange (scaleFactors sampleView) ∧
  Forall inRange
    (scaleFactors (zoomOps sampleAnchor [ZoomIn; ZoomIn; ZoomOut; ZoomReset; ZoomOut] sampleView)).
Proof.
  assert (ownBehavior (snd sampleView)) as Hown.
  { intros zb [= <-]. reflexivity. }
  assert (Forall inRange (scaleFactors sampleView)) as Hin.
  { repeat constructor; vm_compute; discriminate. }
  split; [exact Hown|]. split; [exact Hin|].
  apply (C2_zoom_scale_stays_in_range sampleAnchor _ sampleView Hown Hin).
Defined.

(** C4. On a mounted view, whatever its transform, zoom-reset leaves the zoom
    level at exactly 1 and the zoom transform (also as applied to the zoom
    container) at the identity: scale 1, translation (0, 0).  Resetting again,
    any number of times, changes nothing more. *)
Theorem C4_zoom_reset_identity_idempotent
    (s : State) (svg : Svg) (zb : D3Zoom.ZoomBehavior) (r : Refs) (n : nat) :
  let mountedRefs := {| svgRef := Some svg; zoomBehaviorRef := Some zb |} in
  let reset (c : State * Refs) := handleZoomReset (fst c) (snd c) in
  (zoomLevel (fst (handleZoomReset s mountedRefs)) = 1%Q ∧
   svgRef (snd (handleZoomReset s mountedRefs))
     = Some {| __zoom := D3Zoom.zoomIdentity; g_transform := Some D3Zoom.zoomIdentity |} ∧
   D3Zoom.k D3Zoom.zoomIdentity = 1%Q ∧
   D3Zoom.x D3Zoom.zoomIdentity = 0%Q ∧
   D3Zoom.y D3Zoom.zoomIdentity = 0%Q) ∧
  reset (reset (s, r)) = reset (s, r) ∧
  Nat.iter (S n) reset (s, r) = reset (s, r).
Proof.
  intros mountedRefs reset.
  assert (∀ c, reset (reset c) = reset c) as Hidem.
  { intros [s0 [[svg0|] [zb0|]]]; reflexivity. }
  split; [repeat split|]. split; [apply Hidem|].
  induction n as [|n IH]; [reflexivity|].
  change (Nat.iter (S (S n)) reset (s, r)) with (reset (Nat.iter (S n) reset (s, r))).
  rewrite IH. apply Hidem.
Qed.

(** ** Resize *)

Lemma orDefault_pos (W d : N) : (0 < W)%N → NetworkGraph.orDefault W d = W.
Proof. intros H. unfold NetworkGraph.orDefault. destruct (N.eqb_spec W 0); [lia|done]. Qed.

Lemma treemap_orDefault_pos (W d : N) : (0 < W)%N → Treemap.orDefault W d = W.
Proof. intros H. unfold Treemap.orDefault. destruct (N.eqb_spec W 0); [lia|done]. Qed.

Lemma Qmin_mult_comm (a b c : Q) : (Qmin (a * b) c == Qmin (b * a) c)%Q.
Proof.
  assert (a * b == b * a)%Q as H by apply Qmult_comm.
  destruct (Qlt_le_dec c (a * b)) as [Hlt|Hle].
  - rewrite !Q.min_r; [reflexivity| |]; [rewrite <- H|]; by apply Qlt_le_weak.
  - rewrite !Q.min_l; [exact H| |]; [rewrite <- H|]; done.
Qed.

(** C7 as stated fails for a reported width of 0: the handler substitutes 800
    for it, so the height becomes 600 where min(0.75 * 0, 600) is 0. *)
Lemma C7_counterexample_zero_width :
  ¬ (height (dimensions (handleResize (Some 0%N) initialState))
     == Qmin (0.75 * ofN 0) 600)%Q ∧
  ¬ (∃ dims, Treemap.handleResize (Some 0%N) = Some dims ∧
             (Treemap.height dims == Qmin (0.75 * Treemap.ofN 0) 600)%Q).
Proof.
  split.
  - vm_compute. discriminate.
  - intros (dims & [= <-] & H). vm_compute in H. discriminate.
Qed.

(** C7, amended. For every positive width W the mounted container reports,
    both components store width W and height min(0.75 * W, 600); a reported
    width of 0 is replaced by 800 first, which gives 800 by 600. *)
Theorem C7_resize_recomputes_height (W : N) (s : State) :
  (0 < W)%N →
  (width (dimensions (handleResize (Some W) s)) = ofN W ∧
   (height (dimensions (handleResize (Some W) s)) == Qmin (0.75 * ofN W) 600)%Q) ∧
  (∃ dims, Treemap.handleResize (Some W) = Some dims ∧
           Treemap.width dims = Treemap.ofN W ∧
           (Treemap.height dims == Qmin (0.75 * Treemap.ofN W) 600)%Q) ∧
  (width (dimensions (handleResize (Some 0%N) s)) = 800%Q ∧
   (height (dimensions (handleResize (Some 0%N) s)) == 600)%Q) ∧
  (∃ dims, Treemap.handleResize (Some 0%N) = Some dims ∧
           Treemap.width dims = 800%Q ∧ (Treemap.height dims == 600)%Q).
Proof.
  intros HW. repeat split.
  - cbn [handleResize setDimensions dimensions width]. by rewrite orDefault_pos.
  - cbn [handleResize setDimensions dimensions height]. rewrite orDefault_pos by done.
    apply Qmin_mult_comm.
  - eexists. split; [reflexivity|]. cbn [Treemap.width Treemap.height].
    rewrite treemap_orDefault_pos by done. split; [done|apply Qmin_mult_comm].
  - eexists. split; [reflexivity|]. split; [reflexivity|]. vm_compute. reflexivity.
Qed.

Lemma C7_resize_recomputes_height_witness :
  (0 < 400)%N ∧
  (height (dimensions (handleResize (Some 400%N) initialState)) == 300)%Q ∧
  (height (dimensions (handleResize (Some 1024%N) initialState)) == 600)%Q.
Proof.
  split; [reflexivity|]. split.
  - destruct (C7_resize_recomputes_height 400 initialState eq_refl) as [[_ H] _].
    rewrite H. vm_compute. reflexivity.
  - destruct (C7_resize_recomputes_height 1024 initialState eq_refl) as [[_ H] _].
    rewrite H. vm_compute. reflexivity.
Defined.

(** ** Colour assignment *)

Section ColourFacts.

Lemma filter_all {A} (P : A → Prop) `{∀ x, Decision (P x)} (l : list A) :
  (∀ x, x ∈ l → P x) → filter P l = l.
Proof.
  induction l as [|a l IH]; intros HP; [done|].
  rewrite filter_cons_True by (apply HP; left).
  f_equal. apply IH. intros x Hx. apply HP. by right.
Qed.

Lemma newSet_acc (l acc : list Z) :
  fold_left JsSet.add l acc = (acc ++ filter (λ w, w ∉ acc) (firstSeen l))%list.
Proof.
  revert acc. induction l as [|v l IH]; intros acc; simpl.
  - by rewrite filter_nil, app_nil_r.
  - rewrite IH. unfold JsSet.add. rewrite filter_cons. case_bool_decide as Hv.
    + rewrite decide_False by tauto. f_equal.
      rewrite list_filter_filter_l; [done|]. intros w Hw ->. done.
    + rewrite decide_True by done. rewrite <- app_assoc. simpl. do 2 f_equal.
      rewrite list_filter_filter. apply list_filter_iff.
      intros w. rewrite elem_of_app, list_elem_of_singleton. tauto.
Qed.

Lemma newSet_firstSeen (l : list Z) : JsSet.newSet l = firstSeen l.
Proof.
  unfold JsSet.newSet. rewrite newSet_acc. simpl.
  apply filter_all. intros x _. apply not_elem_of_nil.
Qed.

Lemma firstSeen_elem (l : list Z) (x : Z) : x ∈ firstSeen l ↔ x ∈ l.
Proof.
  induction l as [|v l IH]; [done|]. simpl.
  rewrite !elem_of_cons, list_elem_of_filter, IH.
  destruct (decide (x = v)); tauto.
Qed.

Lemma firstSeen_NoDup (l : list Z) : NoDup (firstSeen l).
Proof.
  induction l as [|v l IH]; simpl; [constructor|].
  apply NoDup_cons. split.
  - rewrite list_elem_of_filter. tauto.
  - by apply NoDup_filter.
Qed.

Lemma firstSeen_fixed (l : list Z) : NoDup l → firstSeen l = l.
Proof.
  induction 1 as [|v l Hv Hl IH]; [done|]. simpl. rewrite IH. f_equal.
  apply filter_all. intros w Hw ->. done.
Qed.

Lemma indexOf_lookup (dom : list Z) (i : nat) (g : Z) :
  NoDup dom → dom !! i = Some g → D3Scale.indexOf g dom = Some i.
Proof.
  intros Hnd. revert i. induction Hnd as [|v dom Hv Hnd IH]; intros i Hi; [done|].
  simpl. destruct i as [|i]; simpl in Hi.
  - injection Hi as ->. by rewrite bool_decide_eq_true_2.
  - rewrite bool_decide_eq_false_2.
    + by rewrite (IH i Hi).
    + intros ->. apply Hv. by eapply list_elem_of_lookup_2.
Qed.

Lemma colorScale_domain (d : NetworkData.t) :
  D3Scale.domain (colorScale d) = groupIds d.
Proof.
  unfold colorScale. cbn [D3Scale.setRange D3Scale.setDomain D3Scale.domain].
  rewrite newSet_firstSeen. apply firstSeen_fixed.
  unfold groupIds. rewrite newSet_firstSeen. apply firstSeen_NoDup.
Qed.

Lemma colorScale_range (d : NetworkData.t) :
  D3Scale.range (colorScale d) = D3Scale.schemeCategory10.
Proof. reflexivity. Qed.

Lemma groupIds_NoDup (d : NetworkData.t) : NoDup (groupIds d).
Proof. unfold groupIds. rewrite newSet_firstSeen. apply firstSeen_NoDup. Qed.

Lemma palette_NoDup : NoDup D3Scale.schemeCategory10.
Proof. apply (bool_decide_unpack _). vm_compute. exact I. Qed.

Lemma palette_lookup (i : nat) :
  ∃ color, D3Scale.schemeCategory10 !! (i mod 10)%nat = Some color.
Proof.
  apply lookup_lt_is_Some. change (length D3Scale.schemeCategory10) with 10%nat.
  apply Nat.mod_upper_bound. done.
Qed.

Lemma scale_known (d : NetworkData.t) (i : nat) (g : Z) :
  groupIds d !! i = Some g →
  D3Scale.scale (colorScale d) g
  = (D3Scale.schemeCategory10 !! (i mod 10)%nat, colorScale d).
Proof.
  intros Hi. unfold D3Scale.scale. rewrite colorScale_domain.
  rewrite (indexOf_lookup _ _ _ (groupIds_NoDup d) Hi). by rewrite colorScale_range.
Qed.

End ColourFacts.

(** C5. The group list is the list of distinct node groups in first-seen
    order; the group at position i of it is painted with palette entry
    i mod 10, and asking for it leaves the scale as it was; the assignment
    depends on the sequence of node groups only; groups whose positions
    differ modulo 10 get different colours, and so do any two different
    groups when there are at most 10 of them. *)
Theorem C5_colour_assignment (d : NetworkData.t) :
  groupIds d = firstSeen (NetworkNode.group <$> NetworkData.nodes d) ∧
  (∀ i g, groupIds d !! i = Some g →
     ∃ color, D3Scale.schemeCategory10 !! (i mod 10)%nat = Some color ∧
              D3Scale.scale (colorScale d) g = (Some color, colorScale d)) ∧
  (∀ d', NetworkNode.group <$> NetworkData.nodes d' = NetworkNode.group <$> NetworkData.nodes d →
     colorScale d' = colorScale d) ∧
  (∀ i j g h, groupIds d !! i = Some g → groupIds d !! j = Some h →
     (i mod 10)%nat ≠ (j mod 10)%nat → colorOf d g ≠ colorOf d h) ∧
  ((length (groupIds d) ≤ 10)%nat →
   ∀ g h, g ∈ groupIds d → h ∈ groupIds d → g ≠ h → colorOf d g ≠ colorOf d h).
Proof.
  assert (∀ i j g h, groupIds d !! i = Some g → groupIds d !! j = Some h →
            (i mod 10)%nat ≠ (j mod 10)%nat → colorOf d g ≠ colorOf d h) as Hmod.
  { intros i j g h Hi Hj Hne. unfold colorOf.
    rewrite (scale_known d i g Hi), (scale_known d j h Hj). cbn [fst].
    destruct (palette_lookup i) as [c Hc]. rewrite Hc. intros Heq. apply Hne.
    exact (NoDup_lookup _ _ _ c palette_NoDup Hc (eq_sym Heq)). }
  split; [apply newSet_firstSeen|]. split.
  { intros i g Hi. destruct (palette_lookup i) as [c Hc]. exists c. split; [done|].
    by rewrite (scale_known d i g Hi), Hc. }
  split.
  { intros d' Heq. unfold colorScale, groupIds. by rewrite Heq. }
  split; [exact Hmod|].
  intros Hlen g h [i Hi]%list_elem_of_lookup_1 [j Hj]%list_elem_of_lookup_1 Hgh.
  apply (Hmod i j g h Hi Hj).
  pose proof (lookup_lt_Some _ _ _ Hi). pose proof (lookup_lt_Some _ _ _ Hj).
  rewrite !Nat.mod_small by lia.
  intros ->. congruence.
Qed.

Lemma C5_colour_assignment_witness :
  groupIds exampleData = [1; 2]%Z ∧
  colorOf exampleData 1 = Some "#1f77b4" ∧
  colorOf exampleData 2 = Some "#ff7f0e" ∧
  colorOf exampleData 1 ≠ colorOf exampleData 2.
Proof.
  destruct (C5_colour_assignment exampleData) as (Hids & Hcol & _ & _ & Hdistinct).
  split; [rewrite Hids; reflexivity|].
  assert (groupIds exampleData !! 0%nat = Some 1%Z) as H0 by reflexivity.
  assert (groupIds exampleData !! 1%nat = Some 2%Z) as H1 by reflexivity.
  split.
  { destruct (Hcol 0%nat 1%Z H0) as (c & Hc & Hs). unfold colorOf. rewrite Hs.
    simpl in Hc. by rewrite <- Hc. }
  split.
  { destruct (Hcol 1%nat 2%Z H1) as (c & Hc & Hs). unfold colorOf. rewrite Hs.
    simpl in Hc. by rewrite <- Hc. }
  apply Hdistinct.
  - vm_compute. lia.
  - by apply (list_elem_of_lookup_2 _ 0%nat).
  - by apply (list_elem_of_lookup_2 _ 1%nat).
  - discriminate.
Defined.

(** ** Hover and tooltip: what the scene knows about the dataset *)

Section HoverFacts.

Lemma sameEnds_of_endpoints (store : list SimNode) links (dls : list NetworkLink.t) :
  simEndpoints store <$> links = endpoints <$> dls →
  Forall2 (sameEnds store) links dls.
Proof.
  revert dls. induction links as [|l links IH]; intros [|dl dls] H; try done.
  injection H as Hs Ht _ H. constructor; [by split|by apply IH].
Qed.

Lemma simEndpoints_ext (s1 s2 : list SimNode) (l : SimulationLink.t) :
  SimulationNetworkNode.id <$> s1 = SimulationNetworkNode.id <$> s2 →
  simEndpoints s1 l = simEndpoints s2 l.
Proof.
  intros H. unfold simEndpoints, sourceId, targetId, deref.
  assert (∀ h, SimulationNetworkNode.id (default undefinedNode (s1 !! h))
             = SimulationNetworkNode.id (default undefinedNode (s2 !! h))) as E.
  { intros h. pose proof (f_equal (λ l, l !! h) H) as Hh. simpl in Hh.
    rewrite !list_lookup_fmap in Hh.
    destruct (s1 !! h), (s2 !! h); simpl in *; congruence. }
  by rewrite !E.
Qed.

Lemma bump_lookup (k s : string) (m : gmap string nat) :
  default 0%nat (bump k m !! s)
  = (default 0%nat (m !! s) + if bool_decide (k = s) then 1 else 0)%nat.
Proof.
  unfold bump. case_bool_decide as E.
  - subst. by rewrite lookup_insert_eq.
  - rewrite lookup_insert_ne by done. lia.
Qed.

Lemma length_filter_cons_eq {A} (f : A → string) (s : string) (a : A) (l : list A) :
  length (filter (λ x, f x = s) (a :: l))
  = ((if bool_decide (f a = s) then 1 else 0) + length (filter (λ x, f x = s) l))%nat.
Proof. rewrite filter_cons. case_bool_decide; [by rewrite decide_True|by rewrite decide_False]. Qed.

(** The counting loop adds, at every id, the degree of that id. *)
Lemma counts_fold (store : list SimNode) links (dls : list NetworkLink.t)
    (m : gmap string nat) (s : string) :
  Forall2 (sameEnds store) links dls →
  default 0%nat
    (fold_left (λ m link, bump (targetId store link) (bump (sourceId store link) m)) links m
       !! s)
  = (default 0%nat (m !! s) + degree dls s)%nat.
Proof.
  intros H. revert m. induction H as [|l dl links dls [Hs Ht] _ IH]; intros m.
  - unfold degree. simpl. lia.
  - simpl. rewrite IH, !bump_lookup, Hs, Ht. unfold degree.
    rewrite !length_filter_cons_eq. lia.
Qed.

Lemma nodeConnectionCounts_degree (store : list SimNode) links (dls : list NetworkLink.t)
    (s : string) :
  Forall2 (sameEnds store) links dls →
  default 0%nat (nodeConnectionCounts store links !! s) = degree dls s.
Proof.
  intros H. unfold nodeConnectionCounts. rewrite (counts_fold _ _ _ _ _ H).
  by rewrite lookup_empty.
Qed.

(** The hover loop collects the hovered id and its neighbours. *)
Lemma connected_fold (store : list SimNode) links (dls : list NetworkLink.t)
    (s0 x : string) (acc : gset string) :
  Forall2 (sameEnds store) links dls → s0 ∈ acc →
  x ∈ fold_left
        (λ connected link,
           let s := sourceId store link in
           let t := targetId store link in
           if bool_decide (s = s0) || bool_decide (t = s0)
           then {[t]} ∪ ({[s]} ∪ connected) else connected)
        links acc
  ↔ x ∈ acc ∨ adjacent dls s0 x.
Proof.
  intros H. revert acc. induction H as [|l dl links dls [Hs Ht] _ IH]; intros acc Hacc.
  - simpl. unfold adjacent. split; [by left|]. intros [?|(l & []%elem_of_nil & _)]; done.
  - simpl. rewrite Hs, Ht.
    assert (∀ P, (P ∨ adjacent (dl :: dls) s0 x) ↔
      (P ∨ ((NetworkLink.source dl = s0 ∧ NetworkLink.target dl = x) ∨
            (NetworkLink.target dl = s0 ∧ NetworkLink.source dl = x)) ∨ adjacent dls s0 x))
      as Hadj.
    { intros P. unfold adjacent. split.
      - intros [?|(l' & [->|Hl]%elem_of_cons & Hc)]; [by left|right; by left|].
        right. right. by exists l'.
      - intros [?|[Hc|(l' & Hl & Hc)]]; [by left| |].
        + right. exists dl. split; [left|done].
        + right. exists l'. split; [by right|done]. }
    rewrite Hadj.
    destruct (decide (NetworkLink.source dl = s0)) as [E1|E1];
      destruct (decide (NetworkLink.target dl = s0)) as [E2|E2];
      rewrite ?(bool_decide_eq_true_2 _ E1), ?(bool_decide_eq_true_2 _ E2),
              ?(bool_decide_eq_false_2 _ E1), ?(bool_decide_eq_false_2 _ E2);
      cbn [orb]; rewrite IH; rewrite ?elem_of_union, ?elem_of_singleton;
      try assumption; try (right; right; assumption);
      intuition congruence.
Qed.

Lemma connectedNodeIds_adjacent (store : list SimNode) links (dls : list NetworkLink.t)
    (d : SimNode) (x : string) :
  Forall2 (sameEnds store) links dls →
  x ∈ connectedNodeIds store links d
  ↔ x = SimulationNetworkNode.id d ∨ adjacent dls (SimulationNetworkNode.id d) x.
Proof.
  intros H. unfold connectedNodeIds.
  rewrite (connected_fold store links dls _ x _ H) by set_solver. set_solver.
Qed.

End HoverFacts.

(** ** The scene stays a scene of the loaded dataset *)

Section Reachable.

Variable anchor : D3Zoom.Transform → number → number * number.
Variable random : nat → number.
Variable physics : Forces → number → list SimNode → nat → Kinematics.
Variable alphaDecay : number.

Lemma buildScene_sceneFor calls dims (d : NetworkData.t) :
  sceneFor d (buildScene random physics alphaDecay calls dims d).
Proof.
  pose proof (buildScene_ids random physics alphaDecay calls dims d) as Hids.
  split; [exact Hids|]. split; [by apply buildScene_links|].
  intros s. rewrite buildScene_eq. cbv zeta. cbn [Scene.counts].
  apply nodeConnectionCounts_degree, sameEnds_of_endpoints, simulationLinks_endpoints.
  rewrite prewarm_ids. cbn [forceSimulation nodes]. apply mapNodes_ids.
Qed.

Lemma alter_pin_ids fx fy (h : nat) (ns : list SimNode) :
  SimulationNetworkNode.id <$> alter (pin fx fy) h ns = SimulationNetworkNode.id <$> ns.
Proof.
  revert h. induction ns as [|n ns IH]; intros [|h]; simpl; try done.
  f_equal. apply IH.
Qed.

Lemma alter_pin_here_ids (h : nat) (ns : list SimNode) :
  SimulationNetworkNode.id <$>
    alter (λ n, pin (Some (SimulationNetworkNode.x n)) (Some (SimulationNetworkNode.y n)) n) h ns
  = SimulationNetworkNode.id <$> ns.
Proof.
  revert h. induction ns as [|n ns IH]; intros [|h]; simpl; try done.
  f_equal. apply IH.
Qed.

(** A change of the simulation that keeps the ids keeps the scene a scene of
    the same dataset. *)
Lemma sceneFor_withSimulation (d : NetworkData.t) (sc : Scene.t) (sim : Simulation)
    links painted listening :
  SimulationNetworkNode.id <$> nodes sim
    = SimulationNetworkNode.id <$> nodes (Scene.simulation sc) →
  links = Scene.links sc →
  sceneFor d sc →
  sceneFor d {| Scene.simulation := sim; Scene.links := links;
                Scene.scale := Scene.scale sc; Scene.counts := Scene.counts sc;
                Scene.listening := listening; Scene.painted := painted |}.
Proof.
  intros Hids -> (Hi & Hl & Hc). unfold sceneFor. cbn [Scene.simulation Scene.links Scene.counts].
  split; [by rewrite Hids|]. split; [|exact Hc].
  rewrite <- Hl. apply list_fmap_ext. intros _ l _. by apply simEndpoints_ext.
Qed.

Lemma frame_sceneFor (d : NetworkData.t) (sc : Scene.t) :
  sceneFor d sc → sceneFor d (frame physics alphaDecay sc).
Proof.
  intros H. unfold frame. destruct (running (Scene.simulation sc)); [|exact H].
  apply sceneFor_withSimulation; [|reflexivity|exact H].
  destruct (Qle_bool _ _); [apply tick_ids|].
  unfold stop. cbn [nodes]. apply tick_ids.
Qed.

Lemma drag_sceneFor (d : NetworkData.t) (sc : Scene.t) (event : D3DragEvent) :
  sceneFor d sc →
  sceneFor d (withSimulation (onDragStart event) sc) ∧
  sceneFor d (withSimulation (onDrag event) sc) ∧
  sceneFor d (withSimulation (onDragEnd event) sc).
Proof.
  intros H. unfold withSimulation.
  split; [|split]; (apply sceneFor_withSimulation; [|reflexivity|exact H]).
  - unfold onDragStart. cbn [setNodes nodes]. rewrite alter_pin_here_ids.
    by destruct (active event =? 0)%nat.
  - unfold onDrag. cbn [setNodes nodes]. apply alter_pin_ids.
  - unfold onDragEnd. cbn [setNodes nodes]. rewrite alter_pin_ids.
    by destruct (active event =? 0)%nat.
Qed.

Lemma zoomOp_keeps op (s : State) (r : Refs) :
  data (fst (zoomOp anchor op (s, r))) = data s ∧
  isLoading (fst (zoomOp anchor op (s, r))) = isLoading s ∧
  error (fst (zoomOp anchor op (s, r))) = error s ∧
  (is_Some (svgRef r) → is_Some (svgRef (snd (zoomOp anchor op (s, r))))).
Proof.
  destruct r as [[svg|] [zb|]], op; cbn; repeat split; auto; by eexists.
Qed.

Lemma commit_mounted (c : Component) :
  mounted (state c) = true →
  commit c = {| state := state c;
                refs := {| svgRef := Some (default freshSvg (svgRef (refs c)));
                           zoomBehaviorRef := zoomBehaviorRef (refs c) |};
                scene := scene c; requests := requests c; randomCalls := randomCalls c |}.
Proof. intros H. unfold commit. by rewrite H. Qed.

Lemma renderEffect_ready (c : Component) (d : NetworkData.t) (svg : Svg) :
  data (state c) = Some d → svgRef (refs c) = Some svg → isLoading (state c) = false →
  renderEffect random physics alphaDecay c
  = {| state := state c;
       refs := {| svgRef := Some {| __zoom := __zoom svg; g_transform := None |};
                  zoomBehaviorRef := Some zoomBehavior |};
       scene := Some (buildScene random physics alphaDecay (randomCalls c)
                        (dimensions (state c)) d);
       requests := requests c;
       randomCalls := (randomCalls c + 2 * length (NetworkData.nodes d))%nat |}.
Proof. intros Hd Hs Hl. unfold renderEffect. by rewrite Hd, Hs, Hl. Qed.

Lemma step_showing (d : NetworkData.t) (c : Component) (ev : Event) :
  showing d c → showing d (step anchor random physics alphaDecay c ev).
Proof.
  intros (Hd & Hl & He & [svg Hsvg] & sc & Hsc & Hfor).
  assert (mounted (state c) = true) as Hm.
  { unfold mounted. rewrite Hl, He. reflexivity. }
  destruct ev as [w|op| |event|event|event]; cbn [step].
  - rewrite Hm, commit_mounted by exact Hm.
    erewrite renderEffect_ready;
      [|cbn [state withState handleResize]; exact Hd
       |cbn [refs svgRef withState]; rewrite Hsvg; reflexivity
       |cbn [state withState handleResize]; exact Hl].
    unfold showing. cbn [state refs scene svgRef].
    split; [exact Hd|]. split; [exact Hl|]. split; [exact He|]. split; [by eexists|].
    eexists. split; [reflexivity|]. apply buildScene_sceneFor.
  - pose proof (zoomOp_keeps op (state c) (refs c)) as (Kd & Kl & Ke & Ks).
    destruct (zoomOp anchor op (state c, refs c)) as [s r]. cbn [fst snd] in *.
    rewrite commit_mounted by (cbn [state]; unfold mounted; by rewrite Kl, Ke, Hl, He).
    unfold showing. cbn [state refs scene svgRef].
    split; [congruence|]. split; [congruence|]. split; [congruence|].
    split; [by eexists|]. by exists sc.
  - unfold withScene, showing. cbn [state refs scene]. rewrite Hsc.
    do 4 (split; [done|]). eexists. split; [reflexivity|]. by apply frame_sceneFor.
  - unfold withScene, showing. cbn [state refs scene]. rewrite Hsc.
    do 4 (split; [done|]). eexists. split; [reflexivity|].
    by apply (drag_sceneFor d sc event).
  - unfold withScene, showing. cbn [state refs scene]. rewrite Hsc.
    do 4 (split; [done|]). eexists. split; [reflexivity|].
    by apply (drag_sceneFor d sc event).
  - unfold withScene, showing. cbn [state refs scene]. rewrite Hsc.
    do 4 (split; [done|]). eexists. split; [reflexivity|].
    by apply (drag_sceneFor d sc event).
Qed.

Lemma run_showing (d : NetworkData.t) (evs : list Event) (c : Component) :
  showing d c → showing d (run anchor random physics alphaDecay c evs).
Proof.
  revert c. induction evs as [|ev evs IH]; intros c H; [exact H|].
  unfold run. simpl. apply IH. by apply step_showing.
Qed.

Lemma loaded_showing (d : NetworkData.t) :
  showing d (loaded random physics alphaDecay d).
Proof.
  unfold showing, loaded. cbn [state refs scene svgRef loadedState data isLoading error].
  do 3 (split; [reflexivity|]). split; [by eexists|].
  eexists. split; [reflexivity|]. apply buildScene_sceneFor.
Qed.

End Reachable.

Section Validated.

Lemma validated_links_known (raw : NetworkData.t) :
  filter (endpointsKnown (fst (validate raw))) (NetworkData.links (fst (validate raw)))
  = NetworkData.links (fst (validate raw)).
Proof. apply filter_all. intros l Hl. by apply validate_valid. Qed.

Lemma degree_insert (l1 l2 : list NetworkLink.t) (l : NetworkLink.t) (s : string) :
  degree (l1 ++ l :: l2) s
  = ((if bool_decide (NetworkLink.source l = s) then 1 else 0)
     + (if bool_decide (NetworkLink.target l = s) then 1 else 0)
     + degree (l1 ++ l2) s)%nat.
Proof.
  unfold degree. rewrite !filter_app, !length_app, !length_filter_cons_eq. lia.
Qed.

Lemma degree_isolated (links : list NetworkLink.t) (s : string) :
  (∀ l, l ∈ links → NetworkLink.source l ≠ s ∧ NetworkLink.target l ≠ s) →
  degree links s = 0%nat.
Proof.
  intros H. unfold degree.
  induction links as [|l links IH]; [done|].
  rewrite !length_filter_cons_eq.
  destruct (H l) as [Hs Ht]; [left|].
  rewrite !bool_decide_eq_false_2 by done. simpl. apply IH.
  intros l' Hl'. apply H. by right.
Qed.

End Validated.

Lemma afterLoad_showing anchor random physics alphaDecay (raw : NetworkData.t) evs :
  showing (fst (validate raw)) (afterLoad anchor random physics alphaDecay raw evs).
Proof.
  unfold afterLoad. rewrite settle_ok. cbn [fst].
  apply run_showing, loaded_showing.
Qed.

(** C10. At any time after a payload has loaded, the scene holds one node per
    node of the dataset, and hovering the circle of any of them, whatever
    the circles and the tooltip looked like before, shows the tooltip with
    the text "<strong>id</strong><br>Group: group<br>Connections: count",
    where the count printed is the number of validated links leaving the
    node plus the number entering it; so a self-loop adds 2 to the count of
    its node, and a node no link touches shows 0. *)
Theorem C10_tooltip_counts_link_ends
    (numberToString : Z → string)
    (anchor : D3Zoom.Transform → number → number * number)
    (random : nat → number)
    (physics : Forces → number → list SimNode → nat → Kinematics)
    (alphaDecay : number) (raw : NetworkData.t) (evs : list Event)
    (transform : D3Zoom.Transform) (svgRect : option (number * number)) :
  let d := fst (validate raw) in
  let c := afterLoad anchor random physics alphaDecay raw evs in
  ∃ sc,
    data (state c) = Some d ∧ scene c = Some sc ∧
    SimulationNetworkNode.id <$> nodes (Scene.simulation sc)
      = NetworkNode.id <$> NetworkData.nodes raw ∧
    ∀ h n (dom : Dom.t), nodes (Scene.simulation sc) !! h = Some n →
      let tip :=
        Dom.tooltip (mouseover numberToString (nodes (Scene.simulation sc)) (Scene.links sc)
                       (Scene.counts sc) transform svgRect h dom) in
      let shown := tooltipConnections (Scene.counts sc) n in
      let me := SimulationNetworkNode.id n in
      Tooltip.opacity tip = Some 1%Q ∧
      Tooltip.html tip
        = Some ("<strong>" +:+ me +:+ "</strong><br>Group: "
                +:+ numberToString (SimulationNetworkNode.group n)
                +:+ "<br>Connections: " +:+ numberToString (Z.of_nat shown)) ∧
      shown = degree (NetworkData.links d) me ∧
      (∀ l1 loop l2,
         NetworkData.links d = l1 ++ loop :: l2 →
         NetworkLink.source loop = me → NetworkLink.target loop = me →
         shown = (2 + degree (l1 ++ l2) me)%nat) ∧
      ((∀ l, l ∈ NetworkData.links d →
             NetworkLink.source l ≠ me ∧ NetworkLink.target l ≠ me) →
       shown = 0%nat).
Proof.
  intros d c.
  destruct (afterLoad_showing anchor random physics alphaDecay raw evs)
    as (Hd & _ & _ & _ & sc & Hsc & Hids & _ & Hcounts).
  exists sc. split; [exact Hd|]. split; [exact Hsc|].
  split; [by rewrite Hids, validate_nodes|].
  intros h n dom Hn tip shown me.
  assert (shown = degree (NetworkData.links d) me) as Hshown.
  { unfold shown, tooltipConnections. rewrite Hcounts. fold d me.
    unfold d. by rewrite validated_links_known. }
  split; [reflexivity|]. split.
  { unfold tip, mouseover. cbn [Dom.tooltip Tooltip.html]. unfold deref.
    rewrite Hn. reflexivity. }
  split; [exact Hshown|]. split.
  - intros l1 loop l2 Hsplit Hs Ht. rewrite Hshown, Hsplit, degree_insert.
    by rewrite !bool_decide_eq_true_2.
  - intros Hiso. rewrite Hshown. by apply degree_isolated.
Qed.

(** C3. At any time after a payload has loaded, hovering a node of the scene
    highlights exactly its own id and the ids one validated link away from
    it.  So a node whose neighbours are exactly B and C (links A-B and A-C,
    whatever links B and C have) highlights {A, B, C}, and a node no link
    touches highlights only itself. *)
Theorem C3_hover_highlights_one_hop_neighbourhood
    (anchor : D3Zoom.Transform → number → number * number)
    (random : nat → number)
    (physics : Forces → number → list SimNode → nat → Kinematics)
    (alphaDecay : number) (raw : NetworkData.t) (evs : list Event) :
  let d := fst (validate raw) in
  let c := afterLoad anchor random physics alphaDecay raw evs in
  ∃ sc,
    scene c = Some sc ∧
    SimulationNetworkNode.id <$> nodes (Scene.simulation sc)
      = NetworkNode.id <$> NetworkData.nodes raw ∧
    ∀ n, n ∈ nodes (Scene.simulation sc) →
      let highlight := connectedNodeIds (nodes (Scene.simulation sc)) (Scene.links sc) n in
      let A := SimulationNetworkNode.id n in
      (∀ x, x ∈ highlight ↔ x = A ∨ adjacent (NetworkData.links d) A x) ∧
      (∀ B C, (∀ x, adjacent (NetworkData.links d) A x ↔ x = B ∨ x = C) →
              highlight = {[A; B; C]}) ∧
      ((∀ l, l ∈ NetworkData.links d →
             NetworkLink.source l ≠ A ∧ NetworkLink.target l ≠ A) →
       highlight = {[A]}).
Proof.
  intros d c.
  destruct (afterLoad_showing anchor random physics alphaDecay raw evs)
    as (_ & _ & _ & _ & sc & Hsc & Hids & Hlinks & _).
  exists sc. split; [exact Hsc|]. split; [by rewrite Hids, validate_nodes|].
  intros n _ highlight A.
  rewrite validated_links_known in Hlinks. fold d in Hlinks.
  assert (∀ x, x ∈ highlight ↔ x = A ∨ adjacent (NetworkData.links d) A x) as Hchar.
  { intros x. apply connectedNodeIds_adjacent. by apply sameEnds_of_endpoints. }
  split; [exact Hchar|]. split.
  - intros B C Hadj. apply set_eq. intros x.
    rewrite Hchar, Hadj, !elem_of_union, !elem_of_singleton. tauto.
  - intros Hiso. apply set_eq. intros x. rewrite Hchar, elem_of_singleton.
    split; [|by left]. intros [->|(l & Hl & Hc)]; [done|].
    destruct (Hiso l Hl) as [Hs Ht]. destruct Hc as [[? _]|[? _]]; done.
Qed.

Lemma validate_hoverData : fst (validate hoverData) = hoverData.
Proof. vm_compute. reflexivity. Qed.

Lemma validate_loopData : fst (validate loopData) = loopData.
Proof. vm_compute. reflexivity. Qed.

Lemma node_with_id (store : list SimNode) (ids : list string) (s : string) :
  SimulationNetworkNode.id <$> store = ids → s ∈ ids →
  ∃ n, n ∈ store ∧ SimulationNetworkNode.id n = s.
Proof.
  intros <- (n & -> & Hn)%list_elem_of_fmap. by exists n.
Qed.

Lemma C3_hover_highlights_one_hop_neighbourhood_witness :
  ∃ sc nA nD,
    scene (afterLoad sampleAnchor sampleRandom samplePhysics sampleDecay hoverData [Frame])
      = Some sc ∧
    nA ∈ nodes (Scene.simulation sc) ∧ SimulationNetworkNode.id nA = "A" ∧
    nD ∈ nodes (Scene.simulation sc) ∧ SimulationNetworkNode.id nD = "D" ∧
    connectedNodeIds (nodes (Scene.simulation sc)) (Scene.links sc) nA = {["A"; "B"; "C"]} ∧
    connectedNodeIds (nodes (Scene.simulation sc)) (Scene.links sc) nD = {["D"]}.
Proof.
  destruct (C3_hover_highlights_one_hop_neighbourhood
              sampleAnchor sampleRandom samplePhysics sampleDecay hoverData [Frame])
    as (sc & Hsc & Hids & Hhover).
  rewrite validate_hoverData in Hhover.
  destruct (node_with_id _ _ "A" Hids) as (nA & HnA & HA);
    [apply (bool_decide_unpack _); vm_compute; exact I|].
  destruct (node_with_id _ _ "D" Hids) as (nD & HnD & HD);
    [apply (bool_decide_unpack _); vm_compute; exact I|].
  exists sc, nA, nD. do 5 (split; [assumption|]). split.
  - destruct (Hhover nA HnA) as (_ & Hthree & _). rewrite HA in Hthree.
    apply Hthree. intros x. unfold adjacent, hoverData. cbn [NetworkData.links].
    split.
    + intros (l & Hl & Hc).
      apply elem_of_cons in Hl as [->|Hl]; [|apply elem_of_cons in Hl as [->|Hl]].
      * cbn in Hc. left. destruct Hc as [[_ <-]|[[=] _]]. reflexivity.
      * cbn in Hc. right. destruct Hc as [[[=] _]|[_ <-]]. reflexivity.
      * by apply elem_of_nil in Hl.
    + intros [->| ->]; eexists; (split; [|cbn]).
      * left.
      * left. by split.
      * right. left.
      * right. by split.
  - destruct (Hhover nD HnD) as (_ & _ & Hiso). rewrite HD in Hiso.
    apply Hiso. intros l Hl. unfold hoverData in Hl. cbn [NetworkData.links] in Hl.
    apply elem_of_cons in Hl as [->|Hl]; [|apply elem_of_cons in Hl as [->|Hl]].
    + by split.
    + by split.
    + by apply elem_of_nil in Hl.
Defined.

Lemma node_at_id (store : list SimNode) (ids : list string) (h : nat) (s : string) :
  SimulationNetworkNode.id <$> store = ids → ids !! h = Some s →
  ∃ n, store !! h = Some n ∧ SimulationNetworkNode.id n = s.
Proof.
  intros <- H. rewrite list_lookup_fmap in H.
  destruct (store !! h) as [n|]; [|done]. exists n. split; [done|]. by injection H.
Qed.

Lemma C10_tooltip_counts_link_ends_witness :
  ∃ sc na nc,
    scene (afterLoad sampleAnchor sampleRandom samplePhysics sampleDecay loopData [Frame])
      = Some sc ∧
    nodes (Scene.simulation sc) !! 0%nat = Some na ∧ SimulationNetworkNode.id na = "a" ∧
    nodes (Scene.simulation sc) !! 2%nat = Some nc ∧ SimulationNetworkNode.id nc = "c" ∧
    Tooltip.html
      (Dom.tooltip (mouseover sampleToString (nodes (Scene.simulation sc)) (Scene.links sc)
                      (Scene.counts sc) D3Zoom.zoomIdentity None 0
                      (joined (nodes (Scene.simulation sc)) (Scene.links sc))))
    = Some ("<strong>a</strong><br>Group: "
            +:+ sampleToString (SimulationNetworkNode.group na)
            +:+ "<br>Connections: 3") ∧
    Tooltip.html
      (Dom.tooltip (mouseover sampleToString (nodes (Scene.simulation sc)) (Scene.links sc)
                      (Scene.counts sc) D3Zoom.zoomIdentity None 2
                      (joined (nodes (Scene.simulation sc)) (Scene.links sc))))
    = Some ("<strong>c</strong><br>Group: "
            +:+ sampleToString (SimulationNetworkNode.group nc)
            +:+ "<br>Connections: 0").
Proof.
  destruct (C10_tooltip_counts_link_ends sampleToString
              sampleAnchor sampleRandom samplePhysics sampleDecay loopData [Frame]
              D3Zoom.zoomIdentity None) as (sc & _ & Hsc & Hids & Htip).
  rewrite validate_loopData in Htip.
  destruct (node_at_id _ _ 0 "a" Hids eq_refl) as (na & Hna & Ha).
  destruct (node_at_id _ _ 2 "c" Hids eq_refl) as (nc & Hnc & Hc).
  exists sc, na, nc. do 5 (split; [assumption|]).
  clear Hids. split.
  - destruct (Htip 0%nat na (joined (nodes (Scene.simulation sc)) (Scene.links sc)) Hna)
      as (_ & Hhtml & Hshown & _).
    rewrite Hhtml, Hshown, Ha. reflexivity.
  - destruct (Htip 2%nat nc (joined (nodes (Scene.simulation sc)) (Scene.links sc)) Hnc)
      as (_ & Hhtml & Hshown & _).
    rewrite Hhtml, Hshown, Hc. reflexivity.
Defined.

(** ** Drag *)

Section DragFacts.

Lemma alter_lookup_here {A} (f : A → A) (i : nat) (l : list A) (a : A) :
  l !! i = Some a → alter f i l !! i = Some (f a).
Proof. intros H. by rewrite list_lookup_alter_eq, H. Qed.

Lemma alter_lookup_other {A} (f : A → A) (i j : nat) (l : list A) :
  i ≠ j → alter f i l !! j = l !! j.
Proof. intros H. by apply list_lookup_alter_ne. Qed.

Lemma nodes_onDragStart event sim :
  nodes (onDragStart event sim)
  = alter (λ n, pin (Some (SimulationNetworkNode.x n)) (Some (SimulationNetworkNode.y n)) n)
      (subject event) (nodes sim).
Proof. unfold onDragStart. by destruct (active event =? 0)%nat. Qed.

Lemma nodes_onDragEnd event sim :
  nodes (onDragEnd event sim) = alter (pin None None) (subject event) (nodes sim).
Proof. unfold onDragEnd. by destruct (active event =? 0)%nat. Qed.

Lemma alphaTarget_onDragStart event sim :
  alphaTarget (onDragStart event sim)
  = if (active event =? 0)%nat then 0.3%Q else alphaTarget sim.
Proof. unfold onDragStart. by destruct (active event =? 0)%nat. Qed.

Lemma alphaTarget_onDragEnd event sim :
  alphaTarget (onDragEnd event sim)
  = if (active event =? 0)%nat then 0%Q else alphaTarget sim.
Proof. unfold onDragEnd. by destruct (active event =? 0)%nat. Qed.

End DragFacts.

(** While a node is pinned, an engine that honours pins keeps it where the
    gesture found it, through any number of steps and timer callbacks. *)
Section PinnedFrames.

Variable physics : Forces → number → list SimNode → nat → Kinematics.
Variable alphaDecay : number.

Lemma tick_lookup sim (i : nat) (n : SimNode) :
  nodes sim !! i = Some n →
  nodes (tick physics alphaDecay sim) !! i
  = Some (moved n (physics (forces sim)
                     (alpha sim + (alphaTarget sim - alpha sim) * alphaDecay)%Q
                     (nodes sim) i)).
Proof.
  intros H. unfold tick. cbn [setNodes setAlpha nodes forces alpha alphaTarget].
  by rewrite list_lookup_imap, H.
Qed.

Lemma iter_S {A} (f : A → A) (k : nat) (a : A) :
  Nat.iter (S k) f a = f (Nat.iter k f a).
Proof. reflexivity. Qed.

Lemma alphaTarget_tick sim :
  alphaTarget (tick physics alphaDecay sim) = alphaTarget sim.
Proof. reflexivity. Qed.

Hypothesis physics_honours_pin : honoursPins physics.

Lemma tick_keeps_pinned sim (i : nat) (px py : number) :
  pinnedAt i px py sim → pinnedAt i px py (tick physics alphaDecay sim).
Proof.
  intros (m & Hm & _ & _ & Hfx & Hfy).
  eexists. split; [by apply tick_lookup|].
  destruct (physics_honours_pin (forces sim)
              (alpha sim + (alphaTarget sim - alpha sim) * alphaDecay)%Q
              (nodes sim) i m px py Hm Hfx Hfy) as [Ex Ey].
  cbn [moved SimulationNetworkNode.x SimulationNetworkNode.y
       SimulationNetworkNode.fx SimulationNetworkNode.fy].
  by repeat split.
Qed.

Lemma frame_keeps_pinned (sc : Scene.t) (i : nat) (px py : number) :
  pinnedAt i px py (Scene.simulation sc) →
  pinnedAt i px py (Scene.simulation (frame physics alphaDecay sc)).
Proof.
  intros H. unfold frame. destruct (running (Scene.simulation sc)); [|exact H].
  cbn [Scene.simulation].
  destruct (Qle_bool alphaMin (alpha (tick physics alphaDecay (Scene.simulation sc)))).
  - by apply tick_keeps_pinned.
  - exact (tick_keeps_pinned _ _ _ _ H).
Qed.

Lemma frames_keep_pinned (k : nat) (sc : Scene.t) (i : nat) (px py : number) :
  pinnedAt i px py (Scene.simulation sc) →
  pinnedAt i px py (Scene.simulation (Nat.iter k (frame physics alphaDecay) sc)).
Proof.
  intros H. induction k as [|k IH]; [exact H|].
  rewrite iter_S. by apply frame_keeps_pinned.
Qed.

Lemma alphaTarget_frame (sc : Scene.t) :
  alphaTarget (Scene.simulation (frame physics alphaDecay sc))
  = alphaTarget (Scene.simulation sc).
Proof.
  unfold frame. destruct (running (Scene.simulation sc)); [|reflexivity].
  cbn [Scene.simulation].
  by destruct (Qle_bool alphaMin (alpha (tick physics alphaDecay (Scene.simulation sc)))).
Qed.

Lemma alphaTarget_frames (k : nat) (sc : Scene.t) :
  alphaTarget (Scene.simulation (Nat.iter k (frame physics alphaDecay) sc))
  = alphaTarget (Scene.simulation sc).
Proof.
  induction k as [|k IH]; [reflexivity|]. rewrite iter_S. by rewrite alphaTarget_frame.
Qed.

End PinnedFrames.

Lemma samplePhysics_honours_pin : honoursPins samplePhysics.
Proof.
  intros f a ns i n px py Hn Hfx Hfy. unfold samplePhysics, deref. rewrite Hn. simpl.
  by rewrite Hfx, Hfy.
Qed.

(** C6 as stated fails when another drag gesture is still in progress at
    release: the handler then leaves the temperature target where the other
    gesture raised it. *)
Lemma C6_counterexample_other_gesture_active :
  alphaTarget (onDragEnd tapEnd (onDragStart tapStart held)) = 0.3%Q ∧
  ¬ (alphaTarget (onDragEnd tapEnd (onDragStart tapStart held)) == 0)%Q.
Proof. split; [reflexivity|]. vm_compute. discriminate. Qed.

(** C6, amended. Pointer-down on a node followed by pointer-up, with no
    pointer movement and any number of timer callbacks of the simulation in
    between, on an engine that honours pins: for the whole gesture the node
    is pinned at the position the press found it at and sits exactly there,
    whatever the steps do to the other nodes; at release it is still there
    and its pin is cleared.  A gesture that starts while no other is active
    raises the temperature target to 0.3 and restarts the timer; the
    callbacks leave the target alone; a release while no other gesture is
    active sets the target back to 0, and a release while another is active
    leaves the target as it is. *)
Theorem C6_press_release_keeps_position
    (physics : Forces → number → list SimNode → nat → Kinematics)
    (alphaDecay : number)
    (sc : Scene.t) (n : SimNode) (down up : D3DragEvent) (frames : nat) :
  honoursPins physics →
  nodes (Scene.simulation sc) !! subject down = Some n →
  subject up = subject down →
  let px := SimulationNetworkNode.x n in
  let py := SimulationNetworkNode.y n in
  let pressed := withSimulation (onDragStart down) sc in
  let during k := Nat.iter k (frame physics alphaDecay) pressed in
  let released := withSimulation (onDragEnd up) (during frames) in
  (∀ k, ∃ m, nodes (Scene.simulation (during k)) !! subject down = Some m ∧
             SimulationNetworkNode.x m = px ∧ SimulationNetworkNode.y m = py ∧
             SimulationNetworkNode.fx m = Some px ∧ SimulationNetworkNode.fy m = Some py) ∧
  (∃ m, nodes (Scene.simulation released) !! subject down = Some m ∧
        SimulationNetworkNode.x m = px ∧ SimulationNetworkNode.y m = py ∧
        SimulationNetworkNode.fx m = None ∧ SimulationNetworkNode.fy m = None) ∧
  (active down = 0%nat →
   alphaTarget (Scene.simulation pressed) = 0.3%Q ∧
   running (Scene.simulation pressed) = true) ∧
  alphaTarget (Scene.simulation (during frames)) = alphaTarget (Scene.simulation pressed) ∧
  (active up = 0%nat → alphaTarget (Scene.simulation released) = 0%Q) ∧
  (active up ≠ 0%nat →
   alphaTarget (Scene.simulation released) = alphaTarget (Scene.simulation pressed)).
Proof.
  intros Hpins Hn Hsame px py pressed during released.
  assert (pinnedAt (subject down) px py (Scene.simulation pressed)) as Hp.
  { exists (pin (Some px) (Some py) n). split; [|by repeat split].
    unfold pressed, withSimulation. cbn [Scene.simulation]. rewrite nodes_onDragStart.
    exact (alter_lookup_here
             (λ n, pin (Some (SimulationNetworkNode.x n)) (Some (SimulationNetworkNode.y n)) n)
             _ _ _ Hn). }
  assert (∀ k, pinnedAt (subject down) px py (Scene.simulation (during k))) as Hduring.
  { intros k. unfold during. by apply frames_keep_pinned. }
  assert (alphaTarget (Scene.simulation (during frames))
          = alphaTarget (Scene.simulation pressed)) as Htarget.
  { unfold during. apply alphaTarget_frames. }
  split; [exact Hduring|]. split.
  { destruct (Hduring frames) as (m & Hm & Hx & Hy & _).
    exists (pin None None m). split; [|by repeat split].
    unfold released, withSimulation. cbn [Scene.simulation].
    rewrite nodes_onDragEnd, Hsame.
    exact (alter_lookup_here (pin None None) _ _ _ Hm). }
  split.
  { intros Ha. unfold pressed, withSimulation, onDragStart. cbn [Scene.simulation].
    rewrite Ha. by split. }
  split; [exact Htarget|]. split.
  - intros Ha. unfold released, withSimulation. cbn [Scene.simulation].
    by rewrite alphaTarget_onDragEnd, Ha.
  - intros Ha. unfold released, withSimulation. cbn [Scene.simulation].
    rewrite alphaTarget_onDragEnd, Htarget.
    destruct (Nat.eqb_spec (active up) 0); [done|reflexivity].
Qed.

Lemma C6_press_release_keeps_position_witness :
  let down := {| active := 0; subject := 1; x := 375; y := 325 |} in
  let up := {| active := 0; subject := 1; x := 375; y := 325 |} in
  let b := simNode {| width := 800; height := 600 |} 0.25 0.75
             {| NetworkNode.id := "b"; NetworkNode.group := 1 |} in
  let released :=
    withSimulation (onDragEnd up)
      (Nat.iter 3 (frame samplePhysics sampleDecay)
         (withSimulation (onDragStart down) twoNodesScene)) in
  honoursPins samplePhysics ∧
  nodes (Scene.simulation twoNodesScene) !! 1%nat = Some b ∧
  (∃ m, nodes (Scene.simulation released) !! 1%nat = Some m ∧
        SimulationNetworkNode.x m = SimulationNetworkNode.x b ∧
        SimulationNetworkNode.y m = SimulationNetworkNode.y b ∧
        SimulationNetworkNode.fx m = None ∧ SimulationNetworkNode.fy m = None) ∧
  alphaTarget (Scene.simulation released) = 0%Q.
Proof.
  intros down up b released.
  split; [exact samplePhysics_honours_pin|]. split; [reflexivity|].
  destruct (C6_press_release_keeps_position samplePhysics sampleDecay twoNodesScene b
              down up 3 samplePhysics_honours_pin eq_refl eq_refl)
    as (_ & Hreleased & _ & _ & Hzero & _).
  split; [exact Hreleased|exact (Hzero eq_refl)].
Defined.

(** ** Pre-warm and first paint *)

Section PaintFacts.

Variable physics : Forces → number → list SimNode → nat → Kinematics.
Variable alphaDecay : number.

Lemma prewarm_is_50_ticks sim :
  prewarm physics alphaDecay sim = Nat.iter 50 (tick physics alphaDecay) sim.
Proof. reflexivity. Qed.

Lemma frame_first_paint (sc : Scene.t) (g : Geometry) :
  head (Scene.painted sc) = Some g →
  head (Scene.painted (frame physics alphaDecay sc)) = Some g.
Proof.
  intros H. unfold frame. destruct (running (Scene.simulation sc)); [|exact H].
  cbn [Scene.painted]. destruct (Scene.listening sc); [|exact H].
  destruct (Scene.painted sc); [discriminate|exact H].
Qed.

Lemma frames_first_paint (k : nat) (sc : Scene.t) (g : Geometry) :
  head (Scene.painted sc) = Some g →
  head (Scene.painted (Nat.iter k (frame physics alphaDecay) sc)) = Some g.
Proof.
  intros H. induction k as [|k IH]; [exact H|].
  change (Nat.iter (S k) (frame physics alphaDecay) sc)
    with (frame physics alphaDecay (Nat.iter k (frame physics alphaDecay) sc)).
  by apply frame_first_paint.
Qed.

End PaintFacts.

Section PrewarmFacts.

Variable physics : Forces → number → list SimNode → nat → Kinematics.
Variable alphaDecay : number.

Lemma orZero_eq (v : number) : (orZero v == v)%Q.
Proof.
  unfold orZero. destruct (Qeq_bool v 0) eqn:E; [|reflexivity].
  apply Qeq_bool_iff in E. by symmetry.
Qed.

Lemma ticks_length (k : nat) sim :
  length (nodes (Nat.iter k (tick physics alphaDecay) sim)) = length (nodes sim).
Proof.
  pose proof (f_equal length (iter_tick_ids physics alphaDecay k sim)) as H.
  by rewrite !length_fmap in H.
Qed.

(** The circle a paint draws right after a step is where the engine has just
    put the node. *)
Lemma paint_after_tick sim (links : list SimulationLink.t) (i : nat) :
  (i < length (nodes sim))%nat →
  let step := physics (forces sim)
                (alpha sim + (alphaTarget sim - alpha sim) * alphaDecay)%Q (nodes sim) i in
  circles (updatePositions (tick physics alphaDecay sim) links) !! i
  = Some (orZero (kx step), orZero (ky step)).
Proof.
  intros [n Hn]%lookup_lt_is_Some step. unfold updatePositions. cbn [circles].
  rewrite list_lookup_fmap, (tick_lookup physics alphaDecay sim i n Hn). reflexivity.
Qed.

(** Under an engine that drifts, [k] steps displace every node [k] times. *)
Lemma drift_ticks (dx dy : number) (k : nat) sim (i : nat) (n : SimNode) :
  drifts physics dx dy →
  nodes sim !! i = Some n →
  ∃ w, nodes (Nat.iter k (tick physics alphaDecay) sim) !! i = Some w ∧
       (SimulationNetworkNode.x w
        == SimulationNetworkNode.x n + inject_Z (Z.of_nat k) * dx)%Q ∧
       (SimulationNetworkNode.y w
        == SimulationNetworkNode.y n + inject_Z (Z.of_nat k) * dy)%Q.
Proof.
  intros Hdrift Hn. induction k as [|k (w & Hw & Hx & Hy)].
  - exists n. split; [exact Hn|].
    change (inject_Z (Z.of_nat 0)) with 0%Q. split; lra.
  - rewrite iter_S. eexists. split; [by apply tick_lookup|].
    destruct (Hdrift (forces (Nat.iter k (tick physics alphaDecay) sim))
                (alpha (Nat.iter k (tick physics alphaDecay) sim)
                 + (alphaTarget (Nat.iter k (tick physics alphaDecay) sim)
                    - alpha (Nat.iter k (tick physics alphaDecay) sim)) * alphaDecay)%Q
                _ i w Hw) as [Ex Ey].
    cbn [moved SimulationNetworkNode.x SimulationNetworkNode.y].
    assert (inject_Z (Z.of_nat (S k)) == inject_Z (Z.of_nat k) + 1)%Q as Hk.
    { rewrite Nat2Z.inj_succ. unfold Z.succ. by rewrite inject_Z_plus. }
    revert Hk Ex Ey Hx Hy.
    generalize (inject_Z (Z.of_nat (S k))) (inject_Z (Z.of_nat k)).
    generalize (kx (physics (forces (Nat.iter k (tick physics alphaDecay) sim))
                      (alpha (Nat.iter k (tick physics alphaDecay) sim)
                       + (alphaTarget (Nat.iter k (tick physics alphaDecay) sim)
                          - alpha (Nat.iter k (tick physics alphaDecay) sim)) * alphaDecay)%Q
                      (nodes (Nat.iter k (tick physics alphaDecay) sim)) i)).
    generalize (ky (physics (forces (Nat.iter k (tick physics alphaDecay) sim))
                      (alpha (Nat.iter k (tick physics alphaDecay) sim)
                       + (alphaTarget (Nat.iter k (tick physics alphaDecay) sim)
                          - alpha (Nat.iter k (tick physics alphaDecay) sim)) * alphaDecay)%Q
                      (nodes (Nat.iter k (tick physics alphaDecay) sim)) i)).
    intros ky' kx' q1 q0 Hk Ex Ey Hx Hy.
    assert (q1 * dx == q0 * dx + dx)%Q as Mx by (rewrite Hk; ring).
    assert (q1 * dy == q0 * dy + dy)%Q as My by (rewrite Hk; ring).
    split; lra.
Qed.

End PrewarmFacts.

Lemma driftPhysics_drifts : drifts driftPhysics 1 0.
Proof.
  intros f a ns i n Hn. unfold driftPhysics, deref. rewrite Hn.
  simpl. split; lra.
Qed.

(** C8. The render effect runs 50 integration steps on the freshly seeded
    simulation before it writes any geometry: the first positional paint of
    the scene, which stays its first paint through all later frames, is the
    geometry of the simulation after those 50 steps, circle by circle the
    positions of its nodes and line by line those of the nodes its links
    refer to.  Every circle of that paint is where the engine put its node
    in the 50th step, computed from the nodes the 49 steps before had
    left; and under an engine that displaces every node by (dx, dy) per
    step, every circle of the first paint is 50 (dx, dy) away from the
    position its node was seeded at. *)
Theorem C8_first_paint_follows_prewarm
    (random : nat → number)
    (physics : Forces → number → list SimNode → nat → Kinematics)
    (alphaDecay : number)
    (calls : nat) (dims : Dimensions) (d : NetworkData.t) (frames : nat) :
  let adapted := mapNodes random dims calls 0 (NetworkData.nodes d) ∅ in
  let links := simulationLinks (snd adapted) (NetworkData.links d) in
  let seeded := forceSimulation dims (fst adapted) links in
  let before := Nat.iter 49 (tick physics alphaDecay) seeded in
  let warmed := Nat.iter 50 (tick physics alphaDecay) seeded in
  let sc := Nat.iter frames (frame physics alphaDecay)
              (buildScene random physics alphaDecay calls dims d) in
  let first := updatePositions warmed links in
  (0 < 50)%nat ∧
  head (Scene.painted sc) = Some first ∧
  circles first = position <$> nodes warmed ∧
  lines first
    = (λ l, (position (deref (nodes warmed) (SimulationLink.source l)),
             position (deref (nodes warmed) (SimulationLink.target l)))) <$> links ∧
  (∀ i, (i < length (NetworkData.nodes d))%nat →
     let step50 :=
       physics (forces before)
         (alpha before + (alphaTarget before - alpha before) * alphaDecay)%Q
         (nodes before) i in
     circles first !! i = Some (orZero (kx step50), orZero (ky step50))) ∧
  (∀ dx dy, drifts physics dx dy →
     ∀ i n, fst adapted !! i = Some n →
       ∃ p, circles first !! i = Some p ∧
            (fst p == SimulationNetworkNode.x n + 50 * dx)%Q ∧
            (snd p == SimulationNetworkNode.y n + 50 * dy)%Q).
Proof.
  intros adapted links seeded before warmed sc first.
  assert (length (fst adapted) = length (NetworkData.nodes d)) as Hlen.
  { pose proof (f_equal length
                  (mapNodes_ids random dims calls 0 (NetworkData.nodes d) ∅)) as H.
    by rewrite !length_fmap in H. }
  assert (warmed = tick physics alphaDecay before) as Hwarmed
    by (unfold warmed, before; apply iter_S).
  split; [lia|]. split.
  { unfold sc. apply frames_first_paint.
    rewrite buildScene_eq. cbv zeta. cbn [Scene.painted head].
    rewrite prewarm_is_50_ticks. reflexivity. }
  split; [reflexivity|]. split; [reflexivity|]. split.
  - intros i Hi step50. unfold first. rewrite Hwarmed.
    apply paint_after_tick. unfold before. rewrite ticks_length.
    unfold seeded. cbn [forceSimulation nodes]. lia.
  - intros dx dy Hdrift i n Hn.
    destruct (drift_ticks physics alphaDecay dx dy 50 seeded i n Hdrift Hn)
      as (w & Hw & Hx & Hy).
    fold warmed in Hw. exists (position w). split.
    + unfold first, updatePositions. cbn [circles]. by rewrite list_lookup_fmap, Hw.
    + unfold position. cbn [fst snd].
      pose proof (orZero_eq (SimulationNetworkNode.x w)) as Ox.
      pose proof (orZero_eq (SimulationNetworkNode.y w)) as Oy.
      assert (inject_Z (Z.of_nat 50) == 50)%Q as H50 by reflexivity.
      revert Hx Hy Ox Oy H50.
      generalize (inject_Z (Z.of_nat 50)) (orZero (SimulationNetworkNode.x w))
                 (orZero (SimulationNetworkNode.y w)).
      intros q ox oy Hx Hy Ox Oy H50.
      assert (q * dx == 50 * dx)%Q as Mx by (rewrite H50; reflexivity).
      assert (q * dy == 50 * dy)%Q as My by (rewrite H50; reflexivity).
      split; lra.
Qed.

Lemma C8_first_paint_follows_prewarm_witness :
  let dims := {| width := 800; height := 600 |} in
  let seed := simNode dims 0.5 0.5 {| NetworkNode.id := "a"; NetworkNode.group := 1 |} in
  drifts driftPhysics 1 0 ∧
  fst (mapNodes sampleRandom dims 0 0 (NetworkData.nodes exampleData) ∅) !! 0%nat
    = Some seed ∧
  (SimulationNetworkNode.x seed == 400)%Q ∧
  ∃ first p,
    head (Scene.painted (buildScene sampleRandom driftPhysics sampleDecay 0 dims exampleData))
      = Some first ∧
    circles first !! 0%nat = Some p ∧
    (fst p == 450)%Q ∧ (snd p == 300)%Q.
Proof.
  intros dims seed.
  destruct (C8_first_paint_follows_prewarm sampleRandom driftPhysics sampleDecay 0 dims
              exampleData 0) as (_ & Hhead & _ & _ & _ & Hdrift).
  destruct (Hdrift 1%Q 0%Q driftPhysics_drifts 0%nat seed eq_refl) as (p & Hp & Hx & Hy).
  split; [exact driftPhysics_drifts|]. split; [reflexivity|]. split; [reflexivity|].
  eexists _, p. split; [exact Hhead|]. split; [exact Hp|].
  assert (SimulationNetworkNode.x seed == 400)%Q as Sx by reflexivity.
  assert (SimulationNetworkNode.y seed == 300)%Q as Sy by reflexivity.
  revert Hx Hy Sx Sy.
  generalize (SimulationNetworkNode.x seed) (SimulationNetworkNode.y seed) (fst p) (snd p).
  clear. intros sx sy px py Hx Hy Sx Sy. split; lra.
Defined.

(** ** Failed load *)

Section FailureFacts.

Variable anchor : D3Zoom.Transform → number → number * number.
Variable random : nat → number.
Variable physics : Forces → number → list SimNode → nat → Kinematics.
Variable alphaDecay : number.

Lemma settle_failed (r : FetchOutcome) :
  fetchFails r = true →
  fst (settle random physics alphaDecay r (mount random physics alphaDecay)) = failed.
Proof.
  intros H. rewrite mount_eq.
  destruct r as [|[|] [|jsonData]]; try discriminate H; reflexivity.
Qed.

Lemma step_failed (ev : Event) :
  step anchor random physics alphaDecay failed ev = failed.
Proof. destruct ev as [w|[| |]| |event|event|event]; reflexivity. Qed.

Lemma run_failed (evs : list Event) :
  run anchor random physics alphaDecay failed evs = failed.
Proof.
  induction evs as [|ev evs IH]; [reflexivity|].
  unfold run. simpl. rewrite step_failed. exact IH.
Qed.

End FailureFacts.

(** C9. When the fetch fails (transport failure, non-OK response, malformed
    body), the component ends in its error state and stays there through
    every later event: the error message is set, no dataset is published,
    nothing is mounted or drawn, and [fetch] has been called exactly once. *)
Theorem C9_failed_load_is_terminal
    (anchor : D3Zoom.Transform → number → number * number)
    (random : nat → number)
    (physics : Forces → number → list SimNode → nat → Kinematics)
    (alphaDecay : number) (r : FetchOutcome) (evs : list Event) :
  fetchFails r = true →
  let c := run anchor random physics alphaDecay
             (fst (settle random physics alphaDecay r (mount random physics alphaDecay)))
             evs in
  c = failed ∧
  error (state c) = Some "Error loading network graph data" ∧
  isLoading (state c) = false ∧
  data (state c) = None ∧
  scene c = None ∧
  svgRef (refs c) = None ∧
  renderEffect random physics alphaDecay c = c ∧
  requests c = 1%nat.
Proof.
  intros H c. assert (c = failed) as ->.
  { unfold c. rewrite (settle_failed random physics alphaDecay r H). apply run_failed. }
  repeat split.
Qed.

Lemma C9_failed_load_is_terminal_witness :
  fetchFails (Response false (Parsed exampleData)) = true ∧
  run sampleAnchor sampleRandom samplePhysics sampleDecay
    (fst (settle sampleRandom samplePhysics sampleDecay
            (Response false (Parsed exampleData))
            (mount sampleRandom samplePhysics sampleDecay)))
    [Resize 500; Click ZoomIn; Frame; Click ZoomReset]
  = failed.
Proof.
  split; [reflexivity|].
  exact (proj1 (C9_failed_load_is_terminal sampleAnchor sampleRandom samplePhysics
                  sampleDecay (Response false (Parsed exampleData))
                  [Resize 500; Click ZoomIn; Frame; Click ZoomReset] eq_refl)).
Defined.

(** ** The end-to-end example of the specification

    The loader keeps 3 nodes and 1 link (the link to "missing" is dropped
    with a warning), the colour scale paints the two groups with two
    different colours, and hovering "a" highlights exactly a and b. *)
Example end_to_end_example :
  let loadedPair := settle sampleRandom samplePhysics sampleDecay
                      (Response true (Parsed exampleData))
                      (mount sampleRandom samplePhysics sampleDecay) in
  let d := fst (validate exampleData) in
  data (state (fst loadedPair)) = Some d ∧
  length (NetworkData.nodes d) = 3%nat ∧
  endpoints <$> NetworkData.links d = [("a", "b", 4%Q)] ∧
  (∃ dropped, snd loadedPair = [ConsoleWarn "Found invalid links referencing non-existent nodes:" dropped]
              ∧ endpoints <$> dropped = [("a", "missing", 1%Q)]) ∧
  groupIds d = [1; 2]%Z ∧
  colorOf d 1 ≠ colorOf d 2 ∧
  ∃ sc, scene (fst loadedPair) = Some sc ∧
        ∀ n, SimulationNetworkNode.id n = "a" →
             connectedNodeIds (nodes (Scene.simulation sc)) (Scene.links sc) n = {["a"; "b"]}.
Proof.
  intros loadedPair d. unfold loadedPair. clear loadedPair.
  rewrite settle_ok. cbn [fst snd].
  assert (d = {| NetworkData.nodes := NetworkData.nodes exampleData;
                 NetworkData.links :=
                   [ {| NetworkLink.source := "a"; NetworkLink.target := "b";
                        NetworkLink.value := 4 |} ] |}) as Hd
    by (vm_compute; reflexivity).
  split; [reflexivity|]. split; [by rewrite Hd|]. split; [by rewrite Hd|]. split.
  { exists [ {| NetworkLink.source := "a"; NetworkLink.target := "missing";
                NetworkLink.value := 1 |} ].
    split; [|reflexivity]. clear. vm_compute. reflexivity. }
  split; [by rewrite Hd|]. split; [rewrite Hd; vm_compute; discriminate|].
  destruct (loaded_showing sampleRandom samplePhysics sampleDecay d)
    as (_ & _ & _ & _ & sc & Hsc & _ & Hlinks & _).
  exists sc. split; [exact Hsc|]. intros n Hn.
  unfold d in Hlinks. rewrite validated_links_known in Hlinks. fold d in Hlinks.
  apply set_eq. intros x.
  rewrite (connectedNodeIds_adjacent _ _ _ n x (sameEnds_of_endpoints _ _ _ Hlinks)).
  rewrite Hn, Hd, elem_of_union, !elem_of_singleton. cbn [NetworkData.links].
  split.
  - intros [->|(l & ->%list_elem_of_singleton & Hc)]; [by left|].
    cbn in Hc. destruct Hc as [[_ <-]|[[=] _]]. by right.
  - intros [->| ->]; [by left|]. right. eexists. split; [by apply list_elem_of_singleton|].
    cbn. left. by split.
Qed.

(** * Further properties of the code *)

(** ** Loader: the diagnostic and re-validation *)

Section MoreLoader.

Lemma filter_endpointsKnown_nodes (raw raw' : NetworkData.t) (l : list NetworkLink.t) :
  NetworkData.nodes raw' = NetworkData.nodes raw →
  filter (endpointsKnown raw') l = filter (endpointsKnown raw) l.
Proof.
  intros H. apply list_filter_iff. intros link. unfold endpointsKnown. by rewrite H.
Qed.

Lemma invalidLinks_spec (raw : NetworkData.t) :
  invalidLinks raw = filter (λ link, ¬ endpointsKnown raw link) (NetworkData.links raw).
Proof. apply jsFilter_invalid_spec. Qed.

Lemma validate_silent (raw : NetworkData.t) :
  invalidLinks raw = [] → validate raw = (raw, []).
Proof. intros H. unfold validate. cbv zeta. rewrite H. reflexivity. Qed.

Lemma validate_warns (raw : NetworkData.t) :
  invalidLinks raw ≠ [] →
  snd (validate raw)
  = [ConsoleWarn "Found invalid links referencing non-existent nodes:" (invalidLinks raw)].
Proof.
  intros H. unfold validate. cbv zeta.
  destruct (invalidLinks raw) as [|l ls]; [done|reflexivity].
Qed.

Lemma validated_has_no_invalid (raw : NetworkData.t) :
  invalidLinks (fst (validate raw)) = [].
Proof.
  rewrite invalidLinks_spec.
  assert (∀ link, link ∈ NetworkData.links (fst (validate raw)) →
                  endpointsKnown (fst (validate raw)) link) as Hall
    by (intros link; apply validate_valid).
  induction (NetworkData.links (fst (validate raw))) as [|l ls IH]; [done|].
  rewrite filter_cons, decide_False.
  - apply IH. intros link Hl. apply Hall. by right.
  - intros Hn. apply Hn, Hall. by left.
Qed.

End MoreLoader.

(** X1. A successful load writes to the console exactly when links are
    dropped: with no invalid link the payload is published as it came and
    nothing is written; otherwise one warning is written, which lists the
    dropped links, that is the raw links with an unknown endpoint, in payload
    order.  The nodes are published as they came in both cases. *)
Theorem X1_warning_lists_exactly_the_dropped_links (raw : NetworkData.t) (s : State) :
  let result := fetchData (Response true (Parsed raw)) s in
  let dropped := filter (λ link, ¬ endpointsKnown raw link) (NetworkData.links raw) in
  (∃ d, data (fst result) = Some d ∧ NetworkData.nodes d = NetworkData.nodes raw ∧
        (dropped = [] → d = raw)) ∧
  error (fst result) = error s ∧
  isLoading (fst result) = false ∧
  (dropped = [] → snd result = []) ∧
  (dropped ≠ [] →
   snd result = [ConsoleWarn "Found invalid links referencing non-existent nodes:" dropped]).
Proof.
  intros result dropped. unfold result, fetchData, fetchBody.
  cbn [fetch json mbind result_bind mret result_ret negb fst snd].
  pose proof (invalidLinks_spec raw) as Hinv. fold dropped in Hinv.
  pose proof (validate_nodes raw) as Hn.
  destruct (validate raw) as [d out] eqn:E. cbn [fst snd] in *.
  split.
  { exists d. split; [reflexivity|]. split; [exact Hn|].
    intros H0. rewrite <- Hinv in H0. rewrite (validate_silent raw H0) in E. congruence. }
  split; [reflexivity|]. split; [reflexivity|]. split.
  - intros H0. rewrite <- Hinv in H0. rewrite (validate_silent raw H0) in E. congruence.
  - intros H0. rewrite <- Hinv in H0. pose proof (validate_warns raw H0) as Hw.
    rewrite E in Hw. cbn [snd] in Hw. by rewrite Hw, Hinv.
Qed.

(** X2. Validation is idempotent: a dataset that came out of validation goes
    through it again unchanged and without a warning. *)
Theorem X2_validation_is_idempotent (raw : NetworkData.t) :
  validate (fst (validate raw)) = (fst (validate raw), []).
Proof. apply validate_silent, validated_has_no_invalid. Qed.

(** ** Layout adapter: duplicate ids and seeding *)

Section MoreAdapter.

Variable random : nat → number.

Lemma lastIndexOf_None (s : string) (ns : list NetworkNode.t) :
  lastIndexOf s ns = None ↔ ∀ j n, ns !! j = Some n → NetworkNode.id n ≠ s.
Proof.
  induction ns as [|n ns IH]; simpl.
  - split; [intros _ j n' Hj; done|done].
  - destruct (lastIndexOf s ns) as [j|] eqn:E.
    + split; [done|]. intros H. exfalso.
      assert (Some j = None) as Hc; [|done].
      apply IH. intros j' n' Hj'. apply (H (S j') n' Hj').
    + case_bool_decide as Hid.
      * split; [done|]. intros H. exfalso. by apply (H 0%nat n).
      * split; [|done]. intros _ [|j] n' Hj; simpl in Hj.
        -- by injection Hj as <-.
        -- by apply (proj1 IH eq_refl j n').
Qed.

Lemma lastIndexOf_Some (s : string) (ns : list NetworkNode.t) (h : nat) :
  lastIndexOf s ns = Some h ↔
  (∃ n, ns !! h = Some n ∧ NetworkNode.id n = s) ∧
  (∀ j n, (h < j)%nat → ns !! j = Some n → NetworkNode.id n ≠ s).
Proof.
  revert h. induction ns as [|n ns IH]; intros h; simpl.
  - split; [done|]. by intros [(n & Hn & _) _].
  - destruct (lastIndexOf s ns) as [j|] eqn:E.
    + split.
      * intros [= <-]. destruct (proj1 (IH j) eq_refl) as [Hex Hlater].
        split; [exact Hex|]. intros [|j'] n' Hlt Hj'; [lia|].
        apply (Hlater j' n'); [lia|exact Hj'].
      * intros [(n' & Hn' & Hid) Hlater]. destruct h as [|h].
        -- exfalso. destruct (proj1 (IH j) eq_refl) as [(nj & Hnj & Hidj) _].
           apply (Hlater (S j) nj); [lia|exact Hnj|exact Hidj].
        -- f_equal. f_equal. assert (Some j = Some h) as [= ->]; [|done].
           apply IH. split; [by exists n'|].
           intros j' n'' Hlt Hj'. apply (Hlater (S j') n''); [lia|exact Hj'].
    + pose proof (proj1 (lastIndexOf_None s ns) E) as Hnone.
      case_bool_decide as Hid.
      * split.
        -- intros [= <-]. split; [by exists n|].
           intros [|j'] n' Hlt Hj'; [lia|]. by apply (Hnone j' n').
        -- intros [(n' & Hn' & Hid') _]. destruct h as [|h]; [done|].
           exfalso. by apply (Hnone h n').
      * split; [done|]. intros [(n' & Hn' & Hid') _]. destruct h as [|h].
        -- simpl in Hn'. injection Hn' as <-. done.
        -- exfalso. by apply (Hnone h n').
Qed.

Lemma mapNodes_lookup_last dims calls i (ns : list NetworkNode.t) (m : gmap string nat)
    (s : string) :
  snd (mapNodes random dims calls i ns m) !! s
  = match lastIndexOf s ns with
    | Some j => Some (i + j)%nat
    | None => m !! s
    end.
Proof.
  revert calls i m. induction ns as [|n ns IH]; intros calls i m; [done|].
  simpl. specialize (IH (S (S calls)) (S i) (<[NetworkNode.id n := i]> m)).
  destruct (mapNodes _ _ _ _ ns _) as [sims m']. simpl in *. rewrite IH.
  destruct (lastIndexOf s ns) as [j|]; [f_equal; lia|].
  case_bool_decide as Hid.
  - subst. rewrite lookup_insert_eq. f_equal. lia.
  - by rewrite lookup_insert_ne.
Qed.

Lemma mapNodes_nth dims calls i (ns : list NetworkNode.t) (m : gmap string nat)
    (j : nat) (n : NetworkNode.t) :
  ns !! j = Some n →
  fst (mapNodes random dims calls i ns m) !! j
  = Some (simNode dims (random (calls + 2 * j)%nat) (random (S (calls + 2 * j))) n).
Proof.
  revert calls i m j. induction ns as [|n0 ns IH]; intros calls i m j Hj; [done|].
  simpl. specialize (IH (S (S calls)) (S i) (<[NetworkNode.id n0 := i]> m)).
  destruct (mapNodes _ _ _ _ ns _) as [sims m']. simpl in *.
  destruct j as [|j]; simpl in *.
  - injection Hj as <-. by rewrite Nat.add_0_r.
  - rewrite (IH j Hj). do 2 f_equal; f_equal; lia.
Qed.

Lemma mapNodes_length dims calls i (ns : list NetworkNode.t) (m : gmap string nat) :
  length (fst (mapNodes random dims calls i ns m)) = length ns.
Proof.
  pose proof (f_equal length (mapNodes_ids random dims calls i ns m)) as H.
  by rewrite !length_fmap in H.
Qed.

End MoreAdapter.

(** X3. A node reference resolves to the last node of the array that carries
    the id: [nodeMap] sends id s to handle h exactly when node h has id s and
    no later node has; the simulation node at that handle is the one seeded
    for it, and an id no node carries has no entry.  So with duplicate ids
    every link attaches to the last duplicate. *)
Theorem X3_node_reference_is_the_last_node_with_the_id
    (random : nat → number) (dims : Dimensions) (calls : nat)
    (ns : list NetworkNode.t) (s : string) (h : nat) :
  let adapted := mapNodes random dims calls 0 ns ∅ in
  (snd adapted !! s = Some h ↔
   (∃ n, ns !! h = Some n ∧ NetworkNode.id n = s) ∧
   (∀ j n, (h < j)%nat → ns !! j = Some n → NetworkNode.id n ≠ s)) ∧
  (snd adapted !! s = Some h →
   ∃ n, ns !! h = Some n ∧
        fst adapted !! h
        = Some (simNode dims (random (calls + 2 * h)%nat) (random (S (calls + 2 * h))) n)) ∧
  (snd adapted !! s = None ↔ s ∉ (NetworkNode.id <$> ns)).
Proof.
  intros adapted. unfold adapted.
  assert (snd (mapNodes random dims calls 0 ns ∅) !! s = lastIndexOf s ns) as E.
  { rewrite mapNodes_lookup_last. destruct (lastIndexOf s ns); [done|apply lookup_empty]. }
  rewrite E. split; [apply lastIndexOf_Some|]. split.
  - intros (( n & Hn & _) & _)%lastIndexOf_Some. exists n. split; [exact Hn|].
    by apply mapNodes_nth.
  - rewrite lastIndexOf_None. split.
    + intros H (n & -> & Hn)%list_elem_of_fmap.
      apply list_elem_of_lookup_1 in Hn as [j Hj]. by apply (H j n).
    + intros H j n Hj <-. apply H, list_elem_of_fmap. exists n. split; [done|].
      by eapply list_elem_of_lookup_2.
Qed.

(** X4. When [Math.random()] answers in [0, 1), every node is seeded in the
    closed square of side 100 around the centre of the surface (the upper
    edge included: the sum is rounded, and can reach it), at rest and
    unpinned, carrying the id and group of the node it was made for, one
    simulation node per node of the dataset in the same order. *)
Theorem X4_nodes_are_seeded_around_the_centre
    (random : nat → number) (dims : Dimensions) (calls i : nat)
    (ns : list NetworkNode.t) (m : gmap string nat) :
  unitInterval random →
  length (fst (mapNodes random dims calls i ns m)) = length ns ∧
  ∀ j n, ns !! j = Some n →
    ∃ sim, fst (mapNodes random dims calls i ns m) !! j = Some sim ∧
      SimulationNetworkNode.id sim = NetworkNode.id n ∧
      SimulationNetworkNode.group sim = NetworkNode.group n ∧
      (width dims / 2 - 50 <= SimulationNetworkNode.x sim)%Q ∧
      (SimulationNetworkNode.x sim <= width dims / 2 + 50)%Q ∧
      (height dims / 2 - 50 <= SimulationNetworkNode.y sim)%Q ∧
      (SimulationNetworkNode.y sim <= height dims / 2 + 50)%Q ∧
      SimulationNetworkNode.vx sim = 0%Q ∧ SimulationNetworkNode.vy sim = 0%Q ∧
      SimulationNetworkNode.fx sim = None ∧ SimulationNetworkNode.fy sim = None.
Proof.
  intros Hr. split; [apply mapNodes_length|].
  intros j n Hj. eexists. split; [by apply mapNodes_nth|].
  cbn [simNode SimulationNetworkNode.id SimulationNetworkNode.group
       SimulationNetworkNode.x SimulationNetworkNode.y SimulationNetworkNode.vx
       SimulationNetworkNode.vy SimulationNetworkNode.fx SimulationNetworkNode.fy].
  destruct (Hr (calls + 2 * j)%nat) as [H1 H2].
  destruct (Hr (S (calls + 2 * j))) as [H3 H4].
  repeat split; try reflexivity; lra.
Qed.

Lemma sampleRandom_unitInterval : unitInterval sampleRandom.
Proof. intros n. split; vm_compute; [discriminate|reflexivity]. Qed.

Lemma X4_nodes_are_seeded_around_the_centre_witness :
  unitInterval sampleRandom ∧
  length (fst (mapNodes sampleRandom {| width := 800; height := 600 |} 0 0
                 (NetworkData.nodes exampleData) ∅)) = 3%nat.
Proof.
  split; [exact sampleRandom_unitInterval|].
  exact (proj1 (X4_nodes_are_seeded_around_the_centre sampleRandom
                  {| width := 800; height := 600 |} 0 0
                  (NetworkData.nodes exampleData) ∅ sampleRandom_unitInterval)).
Defined.

(** ** Resize: the stored dimensions and the rebuild *)

Section MoreResize.

Lemma ofN_ge_1 (w : N) : (0 < w)%N → (1 <= inject_Z (Z.of_N w))%Q.
Proof. intros H. unfold Qle. simpl. lia. Qed.

Lemma orDefault_800_pos (W : N) : (0 < NetworkGraph.orDefault W 800)%N.
Proof. unfold NetworkGraph.orDefault. destruct (N.eqb_spec W 0); lia. Qed.

Lemma three_quarters_bounds (w : Q) :
  (1 <= w)%Q →
  (0 < Qmin (w * 0.75) 600)%Q ∧ (Qmin (w * 0.75) 600 <= 600)%Q ∧ (Qmin (w * 0.75) 600 <= w)%Q.
Proof.
  intros H. destruct (Q.min_spec (w * 0.75) 600) as [[H1 H2]|[H1 H2]]; repeat split; lra.
Qed.

Lemma square_bounds (w : Q) :
  (1 <= w)%Q →
  (0 < Qmin w 600)%Q ∧ (Qmin w 600 <= 600)%Q ∧ (Qmin w 600 <= w)%Q.
Proof.
  intros H. destruct (Q.min_spec w 600) as [[H1 H2]|[H1 H2]]; repeat split; lra.
Qed.

End MoreResize.

(** X6. Whatever width the container reports, 0 included, each of the three
    resize handlers stores a surface that is at least 1 wide, of positive
    height, at most 600 high and never higher than wide. *)
Theorem X6_resize_never_stores_an_empty_surface (W : N) (s : State) :
  (let dims := dimensions (handleResize (Some W) s) in
   (1 <= width dims)%Q ∧ (0 < height dims)%Q ∧
   (height dims <= 600)%Q ∧ (height dims <= width dims)%Q) ∧
  (∃ dims, Treemap.handleResize (Some W) = Some dims ∧
     (1 <= Treemap.width dims)%Q ∧ (0 < Treemap.height dims)%Q ∧
     (Treemap.height dims <= 600)%Q ∧ (Treemap.height dims <= Treemap.width dims)%Q) ∧
  (∃ dims, PackedCircles.handleResize (Some W) = Some dims ∧
     (1 <= PackedCircles.width dims)%Q ∧ (0 < PackedCircles.height dims)%Q ∧
     (PackedCircles.height dims <= 600)%Q ∧
     (PackedCircles.height dims <= PackedCircles.width dims)%Q).
Proof.
  pose proof (ofN_ge_1 _ (orDefault_800_pos W)) as Hw.
  split; [|split].
  - cbn [handleResize setDimensions dimensions width height].
    split; [exact Hw|]. by apply three_quarters_bounds.
  - eexists. split; [reflexivity|]. cbn [Treemap.width Treemap.height].
    split; [exact Hw|]. by apply three_quarters_bounds.
  - eexists. split; [reflexivity|]. cbn [PackedCircles.width PackedCircles.height].
    split; [exact Hw|]. by apply square_bounds.
Qed.

Section MoreComponent.

Variable anchor : D3Zoom.Transform → number → number * number.
Variable random : nat → number.
Variable physics : Forces → number → list SimNode → nat → Kinematics.
Variable alphaDecay : number.

Lemma resize_showing (d : NetworkData.t) (c : Component) (W : N) :
  showing d c →
  ∃ svg, svgRef (refs c) = Some svg ∧
  step anchor random physics alphaDecay c (Resize W)
  = {| state := handleResize (Some W) (state c);
       refs := {| svgRef := Some {| __zoom := __zoom svg; g_transform := None |};
                  zoomBehaviorRef := Some zoomBehavior |};
       scene := Some (buildScene random physics alphaDecay (randomCalls c)
                        (dimensions (handleResize (Some W) (state c))) d);
       requests := requests c;
       randomCalls := (randomCalls c + 2 * length (NetworkData.nodes d))%nat |}.
Proof.
  intros (Hd & Hl & He & [svg Hsvg] & _). exists svg. split; [exact Hsvg|].
  assert (mounted (state c) = true) as Hm.
  { unfold mounted. rewrite Hl, He. reflexivity. }
  cbn [step]. rewrite Hm, commit_mounted by exact Hm.
  erewrite renderEffect_ready;
    [|cbn [state withState handleResize]; exact Hd
     |cbn [refs svgRef withState]; rewrite Hsvg; reflexivity
     |cbn [state withState handleResize]; exact Hl].
  reflexivity.
Qed.

Lemma requests_renderEffect (c : Component) :
  requests (renderEffect random physics alphaDecay c) = requests c.
Proof.
  unfold renderEffect.
  destruct (data (state c)), (svgRef (refs c)), (isLoading (state c)); reflexivity.
Qed.

Lemma requests_commit (c : Component) : requests (commit c) = requests c.
Proof. unfold commit. by destruct (mounted (state c)). Qed.

Lemma requests_step (c : Component) (ev : Event) :
  requests (step anchor random physics alphaDecay c ev) = requests c.
Proof.
  destruct ev as [w|op| |event|event|event]; cbn [step]; try reflexivity.
  - destruct (mounted (state c)); [|reflexivity].
    by rewrite requests_renderEffect, requests_commit.
  - destruct (zoomOp anchor op (state c, refs c)) as [s r]. by rewrite requests_commit.
Qed.

Lemma run_cons (c : Component) (ev : Event) (evs : list Event) :
  run anchor random physics alphaDecay c (ev :: evs)
  = run anchor random physics alphaDecay (step anchor random physics alphaDecay c ev) evs.
Proof. reflexivity. Qed.

Lemma requests_run (evs : list Event) (c : Component) :
  requests (run anchor random physics alphaDecay c evs) = requests c.
Proof.
  revert c. induction evs as [|ev evs IH]; intros c; [reflexivity|].
  by rewrite run_cons, IH, requests_step.
Qed.

Lemma requests_settle (r : FetchOutcome) :
  requests (fst (settle random physics alphaDecay r (mount random physics alphaDecay))) = 1%nat.
Proof.
  rewrite mount_eq. unfold settle. destruct (fetchData r _) as [s out]. cbn [fst].
  by rewrite requests_renderEffect, requests_commit.
Qed.

(** The zoom state of a component is in order: its zoom behaviour is the
    component's own and its scale factors are in range. *)
Lemma step_zoom_in_range (d : NetworkData.t) (c : Component) (ev : Event) :
  showing d c →
  ownBehavior (refs c) ∧ Forall inRange (scaleFactors (state c, refs c)) →
  ownBehavior (refs (step anchor random physics alphaDecay c ev)) ∧
  Forall inRange (scaleFactors (state (step anchor random physics alphaDecay c ev),
                                refs (step anchor random physics alphaDecay c ev))).
Proof.
  intros Hshow [Hown Hin].
  destruct ev as [w|op| |event|event|event]; try (split; assumption).
  - destruct (resize_showing d c w Hshow) as (svg & Hsvg & ->).
    cbn [state refs]. split; [intros zb [= <-]; reflexivity|].
    unfold scaleFactors in *. cbn [fst snd svgRef zoomLevel handleResize setDimensions __zoom] in *.
    rewrite Hsvg in Hin. exact Hin.
  - destruct Hshow as (_ & Hl & He & [svg Hsvg] & _).
    pose proof (zoomOp_invariant anchor op (state c, refs c) Hown Hin) as [Hown' Hin'].
    pose proof (zoomOp_keeps anchor op (state c) (refs c)) as (_ & Kl & Ke & Ks).
    cbn [step].
    destruct (zoomOp anchor op (state c, refs c)) as [s r]. cbn [fst snd] in *.
    rewrite commit_mounted by (cbn [state]; unfold mounted; by rewrite Kl, Ke, Hl, He).
    cbn [state refs]. destruct (Ks (ex_intro _ svg Hsvg)) as [svg' Hsvg'].
    split.
    + intros zb Hzb. cbn [zoomBehaviorRef] in Hzb. by apply Hown'.
    + unfold scaleFactors in *. cbn [fst snd svgRef] in *. rewrite Hsvg' in *. exact Hin'.
Qed.

Lemma run_zoom_in_range (d : NetworkData.t) (evs : list Event) (c : Component) :
  showing d c →
  ownBehavior (refs c) ∧ Forall inRange (scaleFactors (state c, refs c)) →
  ownBehavior (refs (run anchor random physics alphaDecay c evs)) ∧
  Forall inRange (scaleFactors (state (run anchor random physics alphaDecay c evs),
                                refs (run anchor random physics alphaDecay c evs))).
Proof.
  revert c. induction evs as [|ev evs IH]; intros c Hshow Hz; [exact Hz|].
  rewrite run_cons.
  apply IH; [by apply step_showing|by apply (step_zoom_in_range d)].
Qed.

End MoreComponent.

(** X5. On a component that shows a dataset, a resize event stores the new
    dimensions and rebuilds the scene from the dataset, the new dimensions and
    fresh values of [Math.random()] alone: nothing of the old scene, its
    positions or pins, enters the new one, and the dataset and the zoom level
    stay as they were. *)
Theorem X5_resize_rebuilds_the_scene_from_the_dataset
    (anchor : D3Zoom.Transform → number → number * number)
    (random : nat → number)
    (physics : Forces → number → list SimNode → nat → Kinematics)
    (alphaDecay : number) (d : NetworkData.t) (c : Component) (W : N) :
  showing d c →
  let c' := step anchor random physics alphaDecay c (Resize W) in
  state c' = handleResize (Some W) (state c) ∧
  data (state c') = Some d ∧
  zoomLevel (state c') = zoomLevel (state c) ∧
  scene c' = Some (buildScene random physics alphaDecay (randomCalls c)
                     (dimensions (state c')) d) ∧
  randomCalls c' = (randomCalls c + 2 * length (NetworkData.nodes d))%nat ∧
  showing d c' ∧
  (∀ other, showing d other → state other = state c → randomCalls other = randomCalls c →
            scene (step anchor random physics alphaDecay other (Resize W)) = scene c').
Proof.
  intros Hshow c'.
  pose proof (step_showing anchor random physics alphaDecay d c (Resize W) Hshow) as Hshow'.
  fold c' in Hshow'.
  destruct (resize_showing anchor random physics alphaDecay d c W Hshow) as (svg & Hsvg & E).
  fold c' in E. rewrite E in Hshow' |- *. cbn [state scene randomCalls].
  split; [reflexivity|]. split; [apply Hshow|]. split; [reflexivity|].
  split; [reflexivity|]. split; [reflexivity|]. split; [exact Hshow'|].
  intros other Hother Hstate Hcalls.
  destruct (resize_showing anchor random physics alphaDecay d other W Hother)
    as (svg' & Hsvg' & E').
  rewrite E'. cbn [scene]. by rewrite Hstate, Hcalls.
Qed.

Lemma X5_resize_rebuilds_the_scene_from_the_dataset_witness :
  let c := loaded sampleRandom samplePhysics sampleDecay hoverData in
  let c' := step sampleAnchor sampleRandom samplePhysics sampleDecay c (Resize 400) in
  showing hoverData c ∧
  scene c' = Some (buildScene sampleRandom samplePhysics sampleDecay 8
                     {| width := ofN 400; height := Qmin (ofN 400 * 0.75) 600 |} hoverData) ∧
  randomCalls c' = 16%nat.
Proof.
  intros c c'.
  pose proof (loaded_showing sampleRandom samplePhysics sampleDecay hoverData) as Hshow.
  destruct (X5_resize_rebuilds_the_scene_from_the_dataset sampleAnchor sampleRandom
              samplePhysics sampleDecay hoverData c 400 Hshow)
    as (Hstate & _ & _ & Hscene & Hcalls & _).
  split; [exact Hshow|]. split; [|exact Hcalls].
  fold c' in Hscene, Hstate. rewrite Hscene, Hstate. reflexivity.
Defined.

Section MoreZoomRef.

Variable anchor : D3Zoom.Transform → number → number * number.
Variable random : nat → number.
Variable physics : Forces → number → list SimNode → nat → Kinematics.
Variable alphaDecay : number.

Lemma zoomOp_ref op (s : State) (r : Refs) :
  zoomBehaviorRef (snd (zoomOp anchor op (s, r))) = zoomBehaviorRef r.
Proof. destruct r as [[svg|] [zb|]], op; reflexivity. Qed.

Lemma step_zoom_ref (d : NetworkData.t) (c : Component) (ev : Event) :
  showing d c →
  zoomBehaviorRef (refs c) = Some zoomBehavior →
  zoomBehaviorRef (refs (step anchor random physics alphaDecay c ev)) = Some zoomBehavior.
Proof.
  intros Hshow Href.
  destruct ev as [w|op| |event|event|event]; try exact Href.
  - destruct (resize_showing anchor random physics alphaDecay d c w Hshow) as (svg & _ & ->).
    reflexivity.
  - destruct Hshow as (_ & Hl & He & _).
    pose proof (zoomOp_keeps anchor op (state c) (refs c)) as (_ & Kl & Ke & _).
    pose proof (zoomOp_ref op (state c) (refs c)) as Kr.
    cbn [step]. destruct (zoomOp anchor op (state c, refs c)) as [s r]. cbn [fst snd] in *.
    rewrite commit_mounted by (cbn [state]; unfold mounted; by rewrite Kl, Ke, Hl, He).
    cbn [refs zoomBehaviorRef]. by rewrite Kr.
Qed.

Lemma run_zoom_ref (d : NetworkData.t) (evs : list Event) (c : Component) :
  showing d c →
  zoomBehaviorRef (refs c) = Some zoomBehavior →
  zoomBehaviorRef (refs (run anchor random physics alphaDecay c evs)) = Some zoomBehavior.
Proof.
  revert c. induction evs as [|ev evs IH]; intros c Hshow Href; [exact Href|].
  rewrite run_cons. apply IH; [by apply step_showing|by apply (step_zoom_ref d)].
Qed.

End MoreZoomRef.

(** X16. Whatever the fetch answers and whatever events follow, [fetch] has
    been called exactly once: no event handler and no effect fetches again,
    after a success as after a failure. *)
Theorem X16_the_dataset_is_fetched_exactly_once
    (anchor : D3Zoom.Transform → number → number * number)
    (random : nat → number)
    (physics : Forces → number → list SimNode → nat → Kinematics)
    (alphaDecay : number) (r : FetchOutcome) (evs : list Event) :
  requests (mount random physics alphaDecay) = 1%nat ∧
  requests (run anchor random physics alphaDecay
              (fst (settle random physics alphaDecay r (mount random physics alphaDecay)))
              evs) = 1%nat.
Proof.
  split; [reflexivity|]. by rewrite requests_run, requests_settle.
Qed.

(** ** Drag: the pin follows the pointer *)

Section MoreDrag.

Lemma nodes_onDrag event sim :
  nodes (onDrag event sim)
  = alter (pin (Some (x event)) (Some (y event))) (subject event) (nodes sim).
Proof. reflexivity. Qed.

Lemma dragMoves_cons event moves sim :
  dragMoves (event :: moves) sim = dragMoves moves (onDrag event sim).
Proof. reflexivity. Qed.

Lemma dragMoves_pinned (moves : list D3DragEvent) sim (i : nat) (n : SimNode)
    (p : number * number) :
  nodes sim !! i = Some (pin (Some (fst p)) (Some (snd p)) n) →
  Forall (λ event, subject event = i) moves →
  nodes (dragMoves moves sim) !! i
    = Some (pin (Some (fst (lastPointer p moves))) (Some (snd (lastPointer p moves))) n) ∧
  (∀ j, j ≠ i → nodes (dragMoves moves sim) !! j = nodes sim !! j) ∧
  alphaTarget (dragMoves moves sim) = alphaTarget sim ∧
  alpha (dragMoves moves sim) = alpha sim ∧
  running (dragMoves moves sim) = running sim.
Proof.
  revert sim p. induction moves as [|event moves IH]; intros sim p Hn Hall.
  - repeat split; try reflexivity. exact Hn.
  - apply Forall_cons in Hall as [Hsub Hall]. rewrite dragMoves_cons.
    destruct (IH (onDrag event sim) (x event, y event)) as (H1 & H2 & H3 & H4 & H5).
    + rewrite nodes_onDrag, Hsub.
      rewrite (alter_lookup_here (pin (Some (x event)) (Some (y event))) _ _ _ Hn).
      reflexivity.
    + exact Hall.
    + split; [exact H1|]. split; [|by rewrite H3, H4, H5].
      intros j Hj. rewrite (H2 j Hj), nodes_onDrag, Hsub. by apply alter_lookup_other.
Qed.

End MoreDrag.

(** X8. During a drag gesture the pin follows the pointer: after pointer-down
    on a node and any pointer moves, the node is pinned at the pointer of the
    last move (at its own position when there was none), its position and
    velocity are as the gesture found them, no other node has been touched
    and the moves have not changed the temperature target; pointer-up then
    clears the pin. *)
Theorem X8_the_pin_follows_the_pointer
    (sim : Simulation) (n : SimNode) (down up : D3DragEvent) (moves : list D3DragEvent) :
  nodes sim !! subject down = Some n →
  Forall (λ event, subject event = subject down) moves →
  subject up = subject down →
  let start := (SimulationNetworkNode.x n, SimulationNetworkNode.y n) in
  let during := dragMoves moves (onDragStart down sim) in
  nodes during !! subject down
    = Some (pin (Some (fst (lastPointer start moves))) (Some (snd (lastPointer start moves))) n) ∧
  (∀ j, j ≠ subject down → nodes during !! j = nodes sim !! j) ∧
  alphaTarget during = alphaTarget (onDragStart down sim) ∧
  nodes (onDragEnd up during) !! subject down = Some (pin None None n) ∧
  (∀ j, j ≠ subject down → nodes (onDragEnd up during) !! j = nodes sim !! j).
Proof.
  intros Hn Hmoves Hup start during.
  assert (nodes (onDragStart down sim) !! subject down
          = Some (pin (Some (fst start)) (Some (snd start)) n)) as Hp.
  { rewrite nodes_onDragStart.
    exact (alter_lookup_here
             (λ n, pin (Some (SimulationNetworkNode.x n)) (Some (SimulationNetworkNode.y n)) n)
             _ _ _ Hn). }
  destruct (dragMoves_pinned moves (onDragStart down sim) (subject down) n start Hp Hmoves)
    as (H1 & H2 & H3 & _).
  fold during in H1, H2, H3.
  assert (∀ j, j ≠ subject down → nodes during !! j = nodes sim !! j) as Hothers.
  { intros j Hj. rewrite (H2 j Hj), nodes_onDragStart. by apply alter_lookup_other. }
  split; [exact H1|]. split; [exact Hothers|]. split; [exact H3|]. split.
  - rewrite nodes_onDragEnd, Hup.
    rewrite (alter_lookup_here (pin None None) _ _ _ H1). reflexivity.
  - intros j Hj. rewrite nodes_onDragEnd, Hup, alter_lookup_other by done.
    by apply Hothers.
Qed.

Lemma X8_the_pin_follows_the_pointer_witness :
  let down := {| active := 0; subject := 1; x := 375; y := 325 |} in
  let moves := [ {| active := 0; subject := 1; x := 380; y := 330 |};
                 {| active := 0; subject := 1; x := 410; y := 290 |} ] in
  let up := {| active := 0; subject := 1; x := 410; y := 290 |} in
  (∃ n, nodes (dragMoves moves (onDragStart down twoNodes)) !! 1%nat = Some n ∧
        SimulationNetworkNode.fx n = Some 410%Q ∧ SimulationNetworkNode.fy n = Some 290%Q ∧
        (SimulationNetworkNode.x n == 375)%Q) ∧
  nodes (onDragEnd up (dragMoves moves (onDragStart down twoNodes))) = nodes twoNodes.
Proof.
  intros down moves up.
  destruct (X8_the_pin_follows_the_pointer twoNodes
              (simNode {| width := 800; height := 600 |} 0.25 0.75
                 {| NetworkNode.id := "b"; NetworkNode.group := 1 |})
              down up moves eq_refl)
    as (Hduring & _).
  - repeat constructor.
  - reflexivity.
  - split; [|reflexivity]. eexists. split; [exact Hduring|].
    split; [reflexivity|]. split; reflexivity.
Defined.

(** ** Paints: lines stay attached to circles *)

Section MorePaint.

Variable anchor : D3Zoom.Transform → number → number * number.
Variable random : nat → number.
Variable physics : Forces → number → list SimNode → nat → Kinematics.
Variable alphaDecay : number.

Lemma simulationLinks_handles dims calls (ns : list NetworkNode.t) (ls : list NetworkLink.t) :
  Forall (λ l, (SimulationLink.source l < length ns)%nat ∧
               (SimulationLink.target l < length ns)%nat)
    (simulationLinks (snd (mapNodes random dims calls 0 ns ∅)) ls).
Proof.
  apply Forall_forall. intros l Hl. unfold simulationLinks in Hl.
  apply list_elem_of_omap in Hl as (dl & _ & Hdl). unfold simLink in Hdl.
  destruct (_ !! NetworkLink.source dl) as [hs|] eqn:Es; [|done].
  destruct (_ !! NetworkLink.target dl) as [ht|] eqn:Et; [|done].
  injection Hdl as <-. cbn [SimulationLink.source SimulationLink.target].
  apply mapNodes_lookup in Es as [(js & n & -> & Hjs & _)|Es]; [|by rewrite lookup_empty in Es].
  apply mapNodes_lookup in Et as [(jt & n' & -> & Hjt & _)|Et]; [|by rewrite lookup_empty in Et].
  apply lookup_lt_Some in Hjs, Hjt. simpl. lia.
Qed.

Lemma updatePositions_attached sim (links : list SimulationLink.t) :
  Forall (λ l, (SimulationLink.source l < length (nodes sim))%nat ∧
               (SimulationLink.target l < length (nodes sim))%nat) links →
  length (circles (updatePositions sim links)) = length (nodes sim) ∧
  attached links (updatePositions sim links).
Proof.
  intros Hvalid. unfold updatePositions, attached. cbn [circles lines labels].
  split; [apply length_fmap|]. split; [reflexivity|]. split; [apply length_fmap|].
  intros j l Hj.
  pose proof (proj1 (Forall_forall _ _) Hvalid l (list_elem_of_lookup_2 _ _ _ Hj)) as [Hs Ht].
  apply lookup_lt_is_Some in Hs as [ns Hns]. apply lookup_lt_is_Some in Ht as [nt Hnt].
  exists (position ns), (position nt).
  rewrite !list_lookup_fmap, Hns, Hnt, Hj. cbn. unfold deref. by rewrite Hns, Hnt.
Qed.

Lemma tick_length sim : length (nodes (tick physics alphaDecay sim)) = length (nodes sim).
Proof.
  pose proof (f_equal length (tick_ids physics alphaDecay sim)) as H.
  by rewrite !length_fmap in H.
Qed.

Lemma prewarm_length sim : length (nodes (prewarm physics alphaDecay sim)) = length (nodes sim).
Proof.
  pose proof (f_equal length (prewarm_ids physics alphaDecay sim)) as H.
  by rewrite !length_fmap in H.
Qed.

Lemma buildScene_paintsAttached calls dims (d : NetworkData.t) :
  paintsAttached (length (NetworkData.nodes d))
    (buildScene random physics alphaDecay calls dims d).
Proof.
  rewrite buildScene_eq. cbv zeta. unfold paintsAttached.
  cbn [Scene.simulation Scene.links Scene.painted].
  rewrite nodes_restart, nodes_setAlpha.
  set (links := simulationLinks _ _).
  set (warm := prewarm physics alphaDecay _).
  assert (length (nodes warm) = length (NetworkData.nodes d)) as Hlen.
  { unfold warm. rewrite prewarm_length. cbn [forceSimulation nodes]. apply mapNodes_length. }
  assert (Forall (λ l, (SimulationLink.source l < length (NetworkData.nodes d))%nat ∧
                       (SimulationLink.target l < length (NetworkData.nodes d))%nat) links)
    as Hvalid by apply simulationLinks_handles.
  split; [exact Hlen|]. split; [exact Hvalid|]. split; [done|].
  constructor; [|constructor]. rewrite <- Hlen. apply updatePositions_attached.
  by rewrite Hlen.
Qed.

Lemma frame_paintsAttached (n : nat) (sc : Scene.t) :
  paintsAttached n sc → paintsAttached n (frame physics alphaDecay sc).
Proof.
  intros (Hlen & Hvalid & Hne & Hall). unfold frame.
  destruct (running (Scene.simulation sc)); [|by repeat split].
  unfold paintsAttached. cbn [Scene.simulation Scene.links Scene.painted].
  assert (length (nodes (tick physics alphaDecay (Scene.simulation sc))) = n) as Hlen'
    by (by rewrite tick_length).
  split; [by destruct (Qle_bool _ _)|]. split; [exact Hvalid|].
  destruct (Scene.listening sc); [|by split]. split.
  - intros Happ. by apply app_eq_nil in Happ as [_ ?].
  - apply Forall_app. split; [exact Hall|]. constructor; [|constructor].
    rewrite <- Hlen'. apply updatePositions_attached. by rewrite Hlen'.
Qed.

Lemma withSimulation_paintsAttached (n : nat) (sc : Scene.t) (f : Simulation → Simulation) :
  length (nodes (f (Scene.simulation sc))) = length (nodes (Scene.simulation sc)) →
  paintsAttached n sc → paintsAttached n (withSimulation f sc).
Proof.
  intros Hf (Hlen & Hvalid & Hne & Hall). unfold paintsAttached, withSimulation.
  cbn [Scene.simulation Scene.links Scene.painted]. by rewrite Hf.
Qed.

Lemma drag_length sim event :
  length (nodes (onDragStart event sim)) = length (nodes sim) ∧
  length (nodes (onDrag event sim)) = length (nodes sim) ∧
  length (nodes (onDragEnd event sim)) = length (nodes sim).
Proof.
  rewrite nodes_onDragStart, nodes_onDrag, nodes_onDragEnd, !length_alter. done.
Qed.

Lemma step_paintsAttached (d : NetworkData.t) (c : Component) (ev : Event) :
  showing d c →
  (∀ sc, scene c = Some sc → paintsAttached (length (NetworkData.nodes d)) sc) →
  ∀ sc, scene (step anchor random physics alphaDecay c ev) = Some sc →
        paintsAttached (length (NetworkData.nodes d)) sc.
Proof.
  intros Hshow Hinv sc'.
  destruct ev as [w|op| |event|event|event].
  - destruct (resize_showing anchor random physics alphaDecay d c w Hshow) as (svg & _ & ->).
    cbn [scene]. intros [= <-]. apply buildScene_paintsAttached.
  - destruct Hshow as (_ & Hl & He & _).
    pose proof (zoomOp_keeps anchor op (state c) (refs c)) as (_ & Kl & Ke & _).
    cbn [step]. destruct (zoomOp anchor op (state c, refs c)) as [s r]. cbn [fst snd] in *.
    rewrite commit_mounted by (cbn [state]; unfold mounted; by rewrite Kl, Ke, Hl, He).
    cbn [scene]. apply Hinv.
  - cbn [step withScene scene]. destruct (scene c) as [sc|]; [|done].
    intros [= <-]. apply frame_paintsAttached. by apply Hinv.
  - cbn [step withScene scene]. destruct (scene c) as [sc|]; [|done].
    intros [= <-]. apply withSimulation_paintsAttached; [apply drag_length|by apply Hinv].
  - cbn [step withScene scene]. destruct (scene c) as [sc|]; [|done].
    intros [= <-]. apply withSimulation_paintsAttached; [apply drag_length|by apply Hinv].
  - cbn [step withScene scene]. destruct (scene c) as [sc|]; [|done].
    intros [= <-]. apply withSimulation_paintsAttached; [apply drag_length|by apply Hinv].
Qed.

Lemma run_paintsAttached (d : NetworkData.t) (evs : list Event) (c : Component) :
  showing d c →
  (∀ sc, scene c = Some sc → paintsAttached (length (NetworkData.nodes d)) sc) →
  ∀ sc, scene (run anchor random physics alphaDecay c evs) = Some sc →
        paintsAttached (length (NetworkData.nodes d)) sc.
Proof.
  revert c. induction evs as [|ev evs IH]; intros c Hshow Hinv; [exact Hinv|].
  rewrite run_cons. apply IH; [by apply step_showing|by apply step_paintsAttached].
Qed.

End MorePaint.

(** X9. At every state reached after a payload has loaded, every handle of a
    link of the scene is a handle of the node store, at least one geometry
    has been painted, and every geometry painted so far has one circle and
    one label per node of the dataset, each label on its circle, and one
    line per link, running between the circles of the two nodes the link
    refers to. *)
Theorem X9_painted_lines_join_the_circles_of_their_nodes
    (anchor : D3Zoom.Transform → number → number * number)
    (random : nat → number)
    (physics : Forces → number → list SimNode → nat → Kinematics)
    (alphaDecay : number) (raw : NetworkData.t) (evs : list Event) :
  let c := afterLoad anchor random physics alphaDecay raw evs in
  ∃ sc, scene c = Some sc ∧
        paintsAttached (length (NetworkData.nodes raw)) sc.
Proof.
  intros c.
  destruct (afterLoad_showing anchor random physics alphaDecay raw evs)
    as (_ & _ & _ & _ & sc & Hsc & _).
  exists sc. split; [exact Hsc|]. rewrite <- (validate_nodes raw).
  apply (run_paintsAttached anchor random physics alphaDecay (fst (validate raw)) evs
           (loaded random physics alphaDecay (fst (validate raw)))).
  - apply loaded_showing.
  - intros sc0 [= <-]. apply buildScene_paintsAttached.
  - unfold afterLoad in Hsc. rewrite settle_ok in Hsc. exact Hsc.
Qed.

(** ** What the scene owes to the dataset alone *)

Section MoreScene.

Lemma nodeMap_independent random random' dims dims' calls calls' (ns : list NetworkNode.t) :
  snd (mapNodes random dims calls 0 ns ∅) = snd (mapNodes random' dims' calls' 0 ns ∅).
Proof. apply map_eq. intros s. by rewrite !mapNodes_lookup_last. Qed.

Lemma nodeConnectionCounts_ext (s1 s2 : list SimNode) (links : list SimulationLink.t) :
  SimulationNetworkNode.id <$> s1 = SimulationNetworkNode.id <$> s2 →
  nodeConnectionCounts s1 links = nodeConnectionCounts s2 links.
Proof.
  intros H. unfold nodeConnectionCounts. generalize (∅ : gmap string nat).
  induction links as [|l links IH]; intros m; [reflexivity|].
  simpl. pose proof (simEndpoints_ext s1 s2 l H) as E. injection E as -> -> .
  apply IH.
Qed.

Lemma connectedNodeIds_ext (s1 s2 : list SimNode) (links : list SimulationLink.t)
    (d1 d2 : SimNode) :
  SimulationNetworkNode.id <$> s1 = SimulationNetworkNode.id <$> s2 →
  SimulationNetworkNode.id d1 = SimulationNetworkNode.id d2 →
  connectedNodeIds s1 links d1 = connectedNodeIds s2 links d2.
Proof.
  intros H Hd. unfold connectedNodeIds. rewrite Hd.
  generalize ({[SimulationNetworkNode.id d2]} : gset string).
  induction links as [|l links IH]; intros acc; [reflexivity|].
  simpl. pose proof (simEndpoints_ext s1 s2 l H) as E. injection E as -> -> .
  apply IH.
Qed.

Lemma buildScene_counts random physics alphaDecay calls dims (d : NetworkData.t) :
  Scene.counts (buildScene random physics alphaDecay calls dims d)
  = nodeConnectionCounts
      (nodes (Scene.simulation (buildScene random physics alphaDecay calls dims d)))
      (Scene.links (buildScene random physics alphaDecay calls dims d)).
Proof.
  rewrite buildScene_eq. cbv zeta. cbn [Scene.counts Scene.simulation Scene.links].
  rewrite nodes_restart, nodes_setAlpha. reflexivity.
Qed.

Lemma buildScene_scale random physics alphaDecay calls dims (d : NetworkData.t) :
  Scene.scale (buildScene random physics alphaDecay calls dims d) = colorScale d.
Proof. rewrite buildScene_eq. cbv zeta. cbn [Scene.scale]. reflexivity. Qed.

Lemma buildScene_links_eq random physics alphaDecay calls dims (d : NetworkData.t) :
  Scene.links (buildScene random physics alphaDecay calls dims d)
  = simulationLinks (snd (mapNodes random dims calls 0 (NetworkData.nodes d) ∅))
      (NetworkData.links d).
Proof. rewrite buildScene_eq. cbv zeta. cbn [Scene.links]. reflexivity. Qed.

End MoreScene.

(** X17. Randomness and physics move the nodes and nothing else: two scenes
    built for the same dataset, under any two sources of random numbers, any
    two integration steps and any two surface sizes, have the same links
    with the same node references, the same connection counts, the same
    colour scale and the same ids in the same order. *)
Theorem X17_only_positions_depend_on_randomness_and_physics
    (random random' : nat → number)
    (physics physics' : Forces → number → list SimNode → nat → Kinematics)
    (alphaDecay alphaDecay' : number) (calls calls' : nat) (dims dims' : Dimensions)
    (d : NetworkData.t) :
  let sc := buildScene random physics alphaDecay calls dims d in
  let sc' := buildScene random' physics' alphaDecay' calls' dims' d in
  Scene.links sc = Scene.links sc' ∧
  Scene.counts sc = Scene.counts sc' ∧
  Scene.scale sc = Scene.scale sc' ∧
  SimulationNetworkNode.id <$> nodes (Scene.simulation sc)
    = SimulationNetworkNode.id <$> nodes (Scene.simulation sc').
Proof.
  intros sc sc'.
  pose proof (buildScene_ids random physics alphaDecay calls dims d) as Hids.
  pose proof (buildScene_ids random' physics' alphaDecay' calls' dims' d) as Hids'.
  pose proof (buildScene_links_eq random physics alphaDecay calls dims d) as Hl.
  pose proof (buildScene_links_eq random' physics' alphaDecay' calls' dims' d) as Hl'.
  pose proof (buildScene_counts random physics alphaDecay calls dims d) as Hc.
  pose proof (buildScene_counts random' physics' alphaDecay' calls' dims' d) as Hc'.
  pose proof (buildScene_scale random physics alphaDecay calls dims d) as Hs.
  pose proof (buildScene_scale random' physics' alphaDecay' calls' dims' d) as Hs'.
  fold sc in Hids, Hl, Hc, Hs. fold sc' in Hids', Hl', Hc', Hs'.
  clearbody sc sc'.
  assert (Scene.links sc = Scene.links sc') as Hlinks.
  { rewrite Hl, Hl'. by rewrite (nodeMap_independent random random' dims dims' calls calls'). }
  split; [exact Hlinks|]. split; [|split].
  - rewrite Hc, Hc', Hlinks. apply nodeConnectionCounts_ext. by rewrite Hids, Hids'.
  - by rewrite Hs, Hs'.
  - by rewrite Hids, Hids'.
Qed.

(** ** Fill colours and legend *)

Section MoreColours.

Variable numberToString : Z → string.
Variable random : nat → number.
Variable physics : Forces → number → list SimNode → nat → Kinematics.
Variable alphaDecay : number.

Lemma mapNodes_groups dims calls i (ns : list NetworkNode.t) m :
  SimulationNetworkNode.group <$> fst (mapNodes random dims calls i ns m)
  = NetworkNode.group <$> ns.
Proof.
  revert calls i m. induction ns as [|n ns IH]; intros calls i m; [done|].
  simpl. specialize (IH (S (S calls)) (S i) (<[NetworkNode.id n := i]> m)).
  destruct (mapNodes _ _ _ _ ns _) as [sims m']. simpl in *. by f_equal.
Qed.

Lemma tick_groups sim :
  SimulationNetworkNode.group <$> nodes (tick physics alphaDecay sim)
  = SimulationNetworkNode.group <$> nodes sim.
Proof.
  unfold tick. cbn [nodes setNodes setAlpha forces alpha alphaTarget]. generalize (physics (forces sim)
    (alpha sim + (alphaTarget sim - alpha sim) * alphaDecay)%Q (nodes sim)).
  intros f. revert f. induction (nodes sim) as [|n ns IH]; intros f; [done|].
  simpl. f_equal. apply (IH (f ∘ S)).
Qed.

Lemma prewarm_groups sim :
  SimulationNetworkNode.group <$> nodes (prewarm physics alphaDecay sim)
  = SimulationNetworkNode.group <$> nodes sim.
Proof.
  rewrite prewarm_is_50_ticks. generalize 50%nat. intros k.
  induction k as [|k IH]; [done|].
  change (Nat.iter (S k) (tick physics alphaDecay) sim)
    with (tick physics alphaDecay (Nat.iter k (tick physics alphaDecay) sim)).
  by rewrite tick_groups.
Qed.

Lemma buildScene_groups calls dims (d : NetworkData.t) :
  SimulationNetworkNode.group <$>
    nodes (Scene.simulation (buildScene random physics alphaDecay calls dims d))
  = NetworkNode.group <$> NetworkData.nodes d.
Proof.
  rewrite buildScene_eq. cbv zeta. cbn [Scene.simulation].
  rewrite nodes_restart, nodes_setAlpha, prewarm_groups.
  cbn [forceSimulation nodes]. apply mapNodes_groups.
Qed.

Lemma group_in_groupIds (d : NetworkData.t) (g : Z) :
  g ∈ groupIds d ↔ g ∈ (NetworkNode.group <$> NetworkData.nodes d).
Proof. unfold groupIds. rewrite newSet_firstSeen. apply firstSeen_elem. Qed.

Lemma scale_in_domain (d : NetworkData.t) (g : Z) :
  g ∈ groupIds d →
  D3Scale.scale (colorScale d) g = (colorOf d g, colorScale d).
Proof.
  intros [i Hi]%list_elem_of_lookup_1. unfold colorOf.
  by rewrite (scale_known d i g Hi).
Qed.

Lemma fills_in_domain (d : NetworkData.t) (store : list SimNode) :
  (∀ n, n ∈ store → SimulationNetworkNode.group n ∈ groupIds d) →
  fills (colorScale d) store
  = ((λ n, colorOf d (SimulationNetworkNode.group n)) <$> store, colorScale d).
Proof.
  induction store as [|n store IH]; intros H; [reflexivity|].
  simpl. rewrite (scale_in_domain d _ (H n ltac:(left))).
  rewrite IH; [reflexivity|]. intros n' Hn'. apply H. by right.
Qed.

Lemma legendRows_in_domain (d : NetworkData.t) (i : nat) (gs : list Z) :
  (∀ g, g ∈ gs → g ∈ groupIds d) →
  snd (legendRows numberToString (colorScale d) i gs) = colorScale d ∧
  length (fst (legendRows numberToString (colorScale d) i gs)) = length gs ∧
  ∀ k g, gs !! k = Some g →
    fst (legendRows numberToString (colorScale d) i gs) !! k
    = Some {| translateY := ((i + k) * 20 + 20)%nat; fill := colorOf d g;
              text := "Group " +:+ numberToString g |}.
Proof.
  revert i. induction gs as [|g0 gs IH]; intros i H.
  - repeat split. intros k g Hk. done.
  - simpl. rewrite (scale_in_domain d _ (H g0 ltac:(left))).
    destruct (IH (S i)) as (Hs & Hlen & Hrows); [intros g Hg; apply H; by right|].
    destruct (legendRows numberToString (colorScale d) (S i) gs) as [rows s2]. cbn [fst snd] in *.
    split; [exact Hs|]. split; [simpl; by rewrite Hlen|].
    intros [|k] g Hk; simpl in *.
    + injection Hk as <-. by rewrite Nat.add_0_r.
    + rewrite (Hrows k g Hk). do 2 f_equal. f_equal. lia.
Qed.

End MoreColours.

(** X12. Filling the circles and then drawing the legend never extends the
    colour scale: it ends as it was made.  The legend has one row per
    distinct group, in first-seen order, row i placed 20 i + 20 down,
    labelled "Group " followed by the group as JavaScript prints the
    number, and painted with palette entry i mod 10; and
    every circle of the scene is filled with the colour of the legend row of
    its node's group. *)
Theorem X12_every_circle_has_the_colour_of_its_legend_row
    (numberToString : Z → string)
    (random : nat → number)
    (physics : Forces → number → list SimNode → nat → Kinematics)
    (alphaDecay : number) (calls : nat) (dims : Dimensions) (d : NetworkData.t) :
  let store := nodes (Scene.simulation (buildScene random physics alphaDecay calls dims d)) in
  let painted := paintColours numberToString d store in
  let nodeFills := fst (fst painted) in
  let rows := snd (fst painted) in
  snd painted = colorScale d ∧
  length rows = length (groupIds d) ∧
  length nodeFills = length (NetworkData.nodes d) ∧
  (∀ i g, groupIds d !! i = Some g →
     rows !! i = Some {| translateY := (i * 20 + 20)%nat;
                         fill := D3Scale.schemeCategory10 !! (i mod 10)%nat;
                         text := "Group " +:+ numberToString g |}) ∧
  (∀ k n, store !! k = Some n →
     ∃ i row, groupIds d !! i = Some (SimulationNetworkNode.group n) ∧
              rows !! i = Some row ∧
              nodeFills !! k = Some (fill row)).
Proof.
  intros store painted nodeFills rows.
  pose proof (buildScene_groups random physics alphaDecay calls dims d) as Hg.
  pose proof (f_equal length Hg) as Hlen. rewrite !length_fmap in Hlen.
  fold store in Hg, Hlen. clearbody store.
  assert (∀ n, n ∈ store → SimulationNetworkNode.group n ∈ groupIds d) as Hin.
  { intros n Hn. apply group_in_groupIds. rewrite <- Hg. apply list_elem_of_fmap. by exists n. }
  destruct (legendRows_in_domain numberToString d 0 (groupIds d) (λ g Hg, Hg)) as (Hs & Hrl & Hrows).
  assert (painted = ((λ n, colorOf d (SimulationNetworkNode.group n)) <$> store,
                     fst (legendRows numberToString (colorScale d) 0 (groupIds d)), colorScale d)) as E.
  { unfold painted, paintColours. rewrite (fills_in_domain d store Hin).
    destruct (legendRows numberToString (colorScale d) 0 (groupIds d)) as [rs s2]. cbn [fst snd] in *.
    by rewrite Hs. }
  unfold nodeFills, rows. rewrite E. cbn [fst snd]. clear E painted nodeFills rows.
  split; [reflexivity|]. split; [exact Hrl|]. split; [by rewrite length_fmap|].
  assert (∀ i g, groupIds d !! i = Some g →
            colorOf d g = D3Scale.schemeCategory10 !! (i mod 10)%nat) as Hcol.
  { intros i g Hi. unfold colorOf. by rewrite (scale_known d i g Hi). }
  split.
  - intros i g Hi. rewrite (Hrows i g Hi). by rewrite (Hcol i g Hi).
  - intros k n Hk.
    destruct (list_elem_of_lookup_1 _ _ (Hin n (list_elem_of_lookup_2 _ _ _ Hk))) as [i Hi].
    eexists i, _. split; [exact Hi|]. split; [exact (Hrows i _ Hi)|].
    rewrite list_lookup_fmap, Hk. reflexivity.
Qed.

(** ** Hover styling *)

Section MoreHover.

Lemma restyle_datum {D} (f : D → Style.t → Style.t) (sel : list (Element D)) :
  datum <$> restyle f sel = datum <$> sel.
Proof. unfold restyle. rewrite <- list_fmap_compose. by apply list_fmap_ext. Qed.

Lemma restyle_lookup {D} (f : D → Style.t → Style.t) (sel : list (Element D)) (i : nat) :
  restyle f sel !! i
  = (λ e, {| datum := datum e; style := f (datum e) (style e) |}) <$> sel !! i.
Proof. unfold restyle. apply list_lookup_fmap. Qed.

Lemma imap_datum_seq (store : list SimNode) (j : nat) :
  datum <$> imap (λ i _, {| datum := (j + i)%nat; style := noStyle |}) store
  = seq j (length store).
Proof.
  revert j. induction store as [|n store IH]; intros j; [reflexivity|].
  simpl. rewrite Nat.add_0_r. f_equal. rewrite <- (IH (S j)). f_equal.
  apply imap_ext. intros i x _. simpl. f_equal. lia.
Qed.

Lemma joinNodes_datum (store : list SimNode) :
  datum <$> joinNodes store = seq 0 (length store).
Proof. unfold joinNodes. rewrite <- (imap_datum_seq store 0). reflexivity. Qed.

Lemma joinLinks_datum (links : list SimulationLink.t) : datum <$> joinLinks links = links.
Proof.
  unfold joinLinks. rewrite <- list_fmap_compose. rewrite <- (list_fmap_id links) at 2.
  by apply list_fmap_ext.
Qed.

Variable numberToString : Z → string.
Variable store : list SimNode.
Variable links : list SimulationLink.t.
Variable counts : gmap string nat.
Variable transform : D3Zoom.Transform.
Variable svgRect : option (number * number).

Lemma mouseover_datum (h : nat) (dom : Dom.t) :
  datum <$> Dom.nodes (mouseover numberToString store links counts transform svgRect h dom)
    = datum <$> Dom.nodes dom ∧
  datum <$> Dom.links (mouseover numberToString store links counts transform svgRect h dom)
    = datum <$> Dom.links dom.
Proof.
  unfold mouseover, restyleWhere. cbn [Dom.nodes Dom.links].
  by rewrite !restyle_datum.
Qed.

Lemma mouseout_datum (dom : Dom.t) :
  datum <$> Dom.nodes (mouseout dom) = datum <$> Dom.nodes dom ∧
  datum <$> Dom.links (mouseout dom) = datum <$> Dom.links dom.
Proof. unfold mouseout. cbn [Dom.nodes Dom.links]. by rewrite !restyle_datum. Qed.

Lemma hover_datum (events : list HoverEvent) (dom : Dom.t) :
  datum <$> Dom.nodes (hover numberToString store links counts transform svgRect events dom)
    = datum <$> Dom.nodes dom ∧
  datum <$> Dom.links (hover numberToString store links counts transform svgRect events dom)
    = datum <$> Dom.links dom.
Proof.
  revert dom. induction events as [|[h|] events IH]; intros dom; [done| |].
  - simpl. destruct (IH (mouseover numberToString store links counts transform svgRect h dom)) as [-> ->].
    apply mouseover_datum.
  - simpl. destruct (IH (mouseout dom)) as [-> ->]. apply mouseout_datum.
Qed.

Lemma hover_joined_datum (events : list HoverEvent) :
  datum <$> Dom.nodes (hover numberToString store links counts transform svgRect events (joined store links))
    = seq 0 (length store) ∧
  datum <$> Dom.links (hover numberToString store links counts transform svgRect events (joined store links))
    = links.
Proof.
  destruct (hover_datum events (joined store links)) as [-> ->].
  cbn [joined Dom.nodes Dom.links]. split; [apply joinNodes_datum|apply joinLinks_datum].
Qed.

(** The element a selection holds at a position, from the data of the
    selection. *)
Lemma element_of_datum {D} (sel : list (Element D)) (data : list D) (i : nat) (x : D) :
  datum <$> sel = data → data !! i = Some x →
  ∃ e, sel !! i = Some e ∧ datum e = x.
Proof.
  intros <- H. rewrite list_lookup_fmap in H.
  destruct (sel !! i) as [e|]; [|done]. exists e. split; [done|]. by injection H.
Qed.

(** The hover loop only grows its set, and puts both ends of every incident
    link in it. *)
Lemma connected_fold_grows (d : SimNode) (ls : list SimulationLink.t) (acc : gset string)
    (x : string) :
  x ∈ acc →
  x ∈ fold_left
        (λ connected link,
           let s := sourceId store link in
           let t := targetId store link in
           if bool_decide (s = SimulationNetworkNode.id d)
              || bool_decide (t = SimulationNetworkNode.id d)
           then {[t]} ∪ ({[s]} ∪ connected) else connected)
        ls acc.
Proof.
  revert acc. induction ls as [|l ls IH]; intros acc Hx; [exact Hx|].
  simpl. apply IH. destruct (_ || _); [|exact Hx].
  apply elem_of_union_r, elem_of_union_r, Hx.
Qed.

Lemma connected_contains_ends (d : SimNode) (l : SimulationLink.t) :
  l ∈ links → incident store d l = true →
  sourceId store l ∈ connectedNodeIds store links d ∧
  targetId store l ∈ connectedNodeIds store links d.
Proof.
  unfold connectedNodeIds, incident.
  generalize ({[SimulationNetworkNode.id d]} : gset string).
  induction links as [|l0 ls IH]; intros acc Hl Hinc; [by apply elem_of_nil in Hl|].
  apply elem_of_cons in Hl as [<-|Hl].
  - simpl. rewrite Hinc. split; apply connected_fold_grows.
    + apply elem_of_union_r, elem_of_union_l, elem_of_singleton. reflexivity.
    + apply elem_of_union_l, elem_of_singleton. reflexivity.
  - simpl. by apply IH.
Qed.

(** The style [mouseover] leaves on the circle at a position. *)
Lemma mouseover_node (h : nat) (dom : Dom.t) (i : nat) (e : Element nat) :
  Dom.nodes dom !! i = Some e →
  Dom.nodes (mouseover numberToString store links counts transform svgRect h dom) !! i
  = Some {| datum := datum e;
            style := if has (connectedNodeIds store links (deref store h))
                          (SimulationNetworkNode.id (deref store (datum e)))
                     then litNode else setOpacity 0.2 (style e) |}.
Proof.
  intros He. unfold mouseover, restyleWhere. cbn [Dom.nodes].
  rewrite !restyle_lookup, He. cbn. by destruct (has _ _).
Qed.

Lemma mouseover_link (h : nat) (dom : Dom.t) (j : nat) (e : Element SimulationLink.t) :
  Dom.links dom !! j = Some e →
  Dom.links (mouseover numberToString store links counts transform svgRect h dom) !! j
  = Some {| datum := datum e;
            style := if incident store (deref store h) (datum e)
                     then litLink (SimulationLink.value (datum e))
                     else setOpacity 0.1 (style e) |}.
Proof.
  intros He. unfold mouseover, restyleWhere. cbn [Dom.links].
  rewrite !restyle_lookup, He. cbn. by destruct (incident _ _ _).
Qed.

End MoreHover.

(** X10. At any time after a payload has loaded, and whatever was hovered
    before, hovering a circle leaves exactly the circles of the hovered id
    and of the ids one validated link away fully lit and every other circle
    at opacity 0.2; exactly the lines of the links that touch the hovered id
    are fully lit and every other line is at opacity 0.1; both circles a lit
    line joins are lit; and the tooltip is shown. *)
Theorem X10_hover_lights_the_neighbourhood_and_dims_the_rest
    (numberToString : Z → string)
    (anchor : D3Zoom.Transform → number → number * number)
    (random : nat → number)
    (physics : Forces → number → list SimNode → nat → Kinematics)
    (alphaDecay : number) (raw : NetworkData.t) (evs : list Event)
    (transform : D3Zoom.Transform) (svgRect : option (number * number))
    (history : list HoverEvent) (h : nat) :
  let d := fst (validate raw) in
  let c := afterLoad anchor random physics alphaDecay raw evs in
  ∃ sc, scene c = Some sc ∧
    let store := nodes (Scene.simulation sc) in
    let ls := Scene.links sc in
    let dom := mouseover numberToString store ls (Scene.counts sc) transform svgRect h
                 (hover numberToString store ls (Scene.counts sc) transform svgRect history
                    (joined store ls)) in
    let hovered := SimulationNetworkNode.id (deref store h) in
    (∀ i n, store !! i = Some n →
       ∃ e, Dom.nodes dom !! i = Some e ∧ datum e = i ∧
            (SimulationNetworkNode.id n = hovered ∨
             adjacent (NetworkData.links d) hovered (SimulationNetworkNode.id n) →
             style e = litNode) ∧
            (¬ (SimulationNetworkNode.id n = hovered ∨
                adjacent (NetworkData.links d) hovered (SimulationNetworkNode.id n)) →
             Style.opacity (style e) = Some 0.2%Q)) ∧
    (∀ j l, ls !! j = Some l →
       ∃ e, Dom.links dom !! j = Some e ∧ datum e = l ∧
            (incident store (deref store h) l = true →
             style e = litLink (SimulationLink.value l) ∧
             ∀ en, en ∈ Dom.nodes dom →
                   datum en = SimulationLink.source l ∨ datum en = SimulationLink.target l →
                   style en = litNode) ∧
            (incident store (deref store h) l = false →
             Style.opacity (style e) = Some 0.1%Q)) ∧
    Tooltip.opacity (Dom.tooltip dom) = Some 1%Q.
Proof.
  intros d c.
  destruct (afterLoad_showing anchor random physics alphaDecay raw evs)
    as (_ & _ & _ & _ & sc & Hsc & Hids & Hlinks & _).
  exists sc. split; [exact Hsc|]. intros store ls dom hovered.
  rewrite validated_links_known in Hlinks. fold d store ls in Hlinks.
  pose proof (sameEnds_of_endpoints _ _ _ Hlinks) as Hends.
  set (dom0 := hover numberToString store ls (Scene.counts sc) transform svgRect history (joined store ls))
    in dom.
  destruct (hover_joined_datum numberToString store ls (Scene.counts sc) transform svgRect history)
    as [Hnd Hld].
  fold dom0 in Hnd, Hld.
  assert (∀ i, (i < length store)%nat →
            ∃ e0, Dom.nodes dom0 !! i = Some e0 ∧ datum e0 = i) as Hnode0.
  { intros i Hi. apply (element_of_datum _ _ _ _ Hnd). by apply lookup_seq_lt. }
  assert (∀ i n, store !! i = Some n →
            Dom.nodes dom !! i
            = Some {| datum := i;
                      style := if has (connectedNodeIds store ls (deref store h))
                                    (SimulationNetworkNode.id n)
                               then litNode
                               else setOpacity 0.2
                                      (from_option style noStyle (Dom.nodes dom0 !! i)) |})
    as Hnode.
  { intros i n Hn. destruct (Hnode0 i (lookup_lt_Some _ _ _ Hn)) as (e0 & He0 & Hd0).
    unfold dom. rewrite (mouseover_node _ _ _ _ _ _ _ _ _ _ He0), He0, Hd0.
    unfold deref at 2. rewrite Hn. reflexivity. }
  split; [|split; [|reflexivity]].
  - intros i n Hn. eexists. split; [exact (Hnode i n Hn)|]. split; [reflexivity|].
    cbn [style]. unfold has.
    pose proof (connectedNodeIds_adjacent store ls (NetworkData.links d) (deref store h)
                  (SimulationNetworkNode.id n) Hends) as Hchar.
    fold hovered in Hchar. split.
    + intros Hadj. by rewrite bool_decide_eq_true_2 by (by apply Hchar).
    + intros Hadj. rewrite bool_decide_eq_false_2; [reflexivity|].
      intros Hin. by apply Hadj, Hchar.
  - intros j l Hl.
    destruct (element_of_datum _ _ j l Hld Hl) as (e0 & He0 & Hd0).
    eexists. split; [unfold dom; exact (mouseover_link _ _ _ _ _ _ _ _ _ _ He0)|].
    cbn [datum style]. rewrite Hd0. split; [reflexivity|]. split.
    + intros Hinc. rewrite Hinc. split; [reflexivity|].
      intros en [i Hen]%list_elem_of_lookup_1 Hend.
      assert (i < length store)%nat as Hi.
      { destruct (mouseover_datum numberToString store ls (Scene.counts sc) transform svgRect h dom0)
          as [Hnd' _].
        fold dom in Hnd'. rewrite Hnd in Hnd'.
        apply lookup_lt_Some in Hen.
        pose proof (f_equal length Hnd') as Hlen.
        rewrite length_fmap, length_seq in Hlen. lia. }
      apply lookup_lt_is_Some in Hi as [n Hn].
      rewrite (Hnode i n Hn) in Hen. injection Hen as <-. cbn [datum style] in *.
      destruct (connected_contains_ends store ls (deref store h) l
                  (list_elem_of_lookup_2 _ _ _ Hl) Hinc) as [Hs Ht].
      assert (SimulationNetworkNode.id n ∈ connectedNodeIds store ls (deref store h)) as Hin.
      { destruct Hend as [-> | ->].
        - unfold sourceId, deref in Hs. by rewrite Hn in Hs.
        - unfold targetId, deref in Ht. by rewrite Hn in Ht. }
      unfold has. by rewrite bool_decide_eq_true_2.
    + intros Hinc. by rewrite Hinc.
Qed.

(** X11. Pointer-leave resets the styling whatever was hovered before: every
    circle is left at opacity 1 with a white stroke of 1.5, every line at
    opacity 0.6 with stroke #999 of width sqrt(value), exactly as pointer-leave
    on the fresh scene leaves them; the tooltip is hidden, with the position
    and text of the last hover still in it. *)
Theorem X11_pointer_leave_resets_the_styling
    (numberToString : Z → string)
    (store : list SimNode) (links : list SimulationLink.t) (counts : gmap string nat)
    (transform : D3Zoom.Transform) (svgRect : option (number * number))
    (history : list HoverEvent) :
  let before := hover numberToString store links counts transform svgRect history (joined store links) in
  let dom := mouseout before in
  Dom.nodes dom = (λ i, {| datum := i; style := restingNode |}) <$> seq 0 (length store) ∧
  Dom.links dom
    = (λ l, {| datum := l; style := restingLink (SimulationLink.value l) |}) <$> links ∧
  Dom.nodes dom = Dom.nodes (mouseout (joined store links)) ∧
  Dom.links dom = Dom.links (mouseout (joined store links)) ∧
  Tooltip.opacity (Dom.tooltip dom) = Some 0%Q ∧
  Tooltip.html (Dom.tooltip dom) = Tooltip.html (Dom.tooltip before) ∧
  Tooltip.left (Dom.tooltip dom) = Tooltip.left (Dom.tooltip before) ∧
  Tooltip.top (Dom.tooltip dom) = Tooltip.top (Dom.tooltip before).
Proof.
  intros before dom.
  assert (∀ dom0, datum <$> Dom.nodes dom0 = seq 0 (length store) →
            Dom.nodes (mouseout dom0)
            = (λ i, {| datum := i; style := restingNode |}) <$> seq 0 (length store)) as Hn.
  { intros dom0 <-. unfold mouseout, restyle. cbn [Dom.nodes].
    rewrite <- list_fmap_compose. by apply list_fmap_ext. }
  assert (∀ dom0, datum <$> Dom.links dom0 = links →
            Dom.links (mouseout dom0)
            = (λ l, {| datum := l; style := restingLink (SimulationLink.value l) |}) <$> links)
    as Hl.
  { intros dom0 <-. unfold mouseout, restyle. cbn [Dom.links].
    rewrite <- list_fmap_compose. by apply list_fmap_ext. }
  destruct (hover_joined_datum numberToString store links counts transform svgRect history) as [H1 H2].
  destruct (hover_joined_datum numberToString store links counts transform svgRect []) as [H3 H4].
  fold before in H1, H2. change (hover _ _ _ _ _ _ [] ?x) with x in H3, H4.
  unfold dom.
  rewrite (Hn before H1), (Hl before H2),
    (Hn (joined store links) H3), (Hl (joined store links) H4).
  repeat split.
Qed.

Section MoreLabels.

Lemma length_append (s t : string) :
  String.length (s +:+ t) = (String.length s + String.length t)%nat.
Proof. induction s as [|a s IH]; simpl; [reflexivity|]. by rewrite IH. Qed.

Lemma length_substring_0 (n : nat) (s : string) :
  String.length (String.substring 0 n s) = (n `min` String.length s)%nat.
Proof.
  revert s. induction n as [|n IH]; intros [|a s]; simpl; try reflexivity.
  by rewrite IH.
Qed.

Lemma treemap_ltb_false (a b : number) : Treemap.ltb a b = false → (b <= a)%Q.
Proof.
  unfold Treemap.ltb. intros H. apply negb_false_iff in H. by apply Qle_bool_iff.
Qed.

(** On a group that was just appended every datum enters. *)
Lemma data_fresh {D} (values : list D) :
  PackedCircles.Selection.data values PackedCircles.Selection.selectAll
  = {| PackedCircles.Selection._groups := (λ _, None) <$> values;
       PackedCircles.Selection._enter := Some (Some <$> values) |}.
Proof.
  unfold PackedCircles.Selection.data, PackedCircles.Selection.selectAll.
  cbn [PackedCircles.Selection._groups]. f_equal.
  - rewrite <- (imap_const (λ _ : D, None)). apply imap_ext. intros i x _.
    by rewrite lookup_nil.
  - f_equal. rewrite <- (imap_const Some). apply imap_ext. intros i x _.
    by rewrite lookup_nil.
Qed.

Lemma omap_id_Some {D} (l : list D) : omap id (Some <$> l) = l.
Proof. induction l as [|x l IH]; [reflexivity|]. cbn. f_equal. exact IH. Qed.

Lemma join_data_fresh {D} (values : list D) :
  PackedCircles.Selection.join
    (PackedCircles.Selection.data values PackedCircles.Selection.selectAll) = values.
Proof.
  rewrite data_fresh. unfold PackedCircles.Selection.join, PackedCircles.Selection.enter.
  cbn [PackedCircles.Selection._groups PackedCircles.Selection._enter].
  rewrite <- (omap_id_Some values) at 2. f_equal.
  rewrite imap_fmap, <- (imap_const Some). by apply imap_ext.
Qed.

Lemma omap_id_None {D} (l : list D) : omap id ((λ _, @None D) <$> l) = [].
Proof. induction l as [|x l IH]; [reflexivity|]. simpl. exact IH. Qed.

Lemma join_filter_data_fresh {D} (test : D → bool) (values : list D) :
  PackedCircles.Selection.join
    (PackedCircles.Selection.filter test
       (PackedCircles.Selection.data values PackedCircles.Selection.selectAll)) = [].
Proof.
  rewrite data_fresh. unfold PackedCircles.Selection.filter.
  cbn [PackedCircles.Selection._groups]. rewrite omap_id_None. reflexivity.
Qed.

End MoreLabels.

(** X13. A treemap cell that shows a label shows exactly one line of at most
    17 characters: the whole name when it has at most 15 characters, otherwise
    its first 14 characters followed by three dots; and such a cell's
    rectangle is at least 29 wide and 19 high. *)
Theorem X13_a_treemap_label_is_one_short_line_in_a_roomy_cell
    (d : Treemap.Leaf.t) (line : string) :
  line ∈ Treemap.labelLines d →
  Treemap.labelLines d = [line] ∧
  (String.length line ≤ 17)%nat ∧
  ((String.length (Treemap.Leaf.name d) ≤ 15)%nat ∧ line = Treemap.Leaf.name d ∨
   (15 < String.length (Treemap.Leaf.name d))%nat ∧
   String.length line = 17%nat ∧
   ∃ head, String.length head = 14%nat ∧
           String.prefix head (Treemap.Leaf.name d) = true ∧
           line = head +:+ "...") ∧
  (29 <= Treemap.rectWidth d)%Q ∧ (19 <= Treemap.rectHeight d)%Q.
Proof.
  unfold Treemap.labelLines, Treemap.rectWidth, Treemap.rectHeight. cbv zeta.
  destruct (Treemap.ltb (Treemap.Leaf.x1 d - Treemap.Leaf.x0 d) 30) eqn:Ew;
    [by intros ?%elem_of_nil|].
  destruct (Treemap.ltb (Treemap.Leaf.y1 d - Treemap.Leaf.y0 d) 20) eqn:Eh;
    [by intros ?%elem_of_nil|].
  apply treemap_ltb_false in Ew, Eh. cbn [orb].
  assert ((29 <= Qmax 0 (Treemap.Leaf.x1 d - Treemap.Leaf.x0 d - 1))%Q ∧
          (19 <= Qmax 0 (Treemap.Leaf.y1 d - Treemap.Leaf.y0 d - 1))%Q) as Hsize.
  { split.
    - destruct (Q.max_spec 0 (Treemap.Leaf.x1 d - Treemap.Leaf.x0 d - 1)) as [[? ?]|[? ?]]; lra.
    - destruct (Q.max_spec 0 (Treemap.Leaf.y1 d - Treemap.Leaf.y0 d - 1)) as [[? ?]|[? ?]]; lra. }
  destruct (String.length (Treemap.Leaf.name d) <=? 15)%nat eqn:El.
  - apply Nat.leb_le in El. intros ->%list_elem_of_singleton.
    split; [reflexivity|]. split; [lia|]. split; [|exact Hsize]. by left.
  - apply Nat.leb_gt in El. intros ->%list_elem_of_singleton.
    assert (String.length (String.substring 0 14 (Treemap.Leaf.name d)) = 14%nat) as H14.
    { rewrite length_substring_0. lia. }
    assert (String.length (String.substring 0 14 (Treemap.Leaf.name d) +:+ "...") = 17%nat)
      as H17.
    { rewrite length_append, H14. reflexivity. }
    split; [reflexivity|]. split; [lia|]. split; [|exact Hsize]. right.
    split; [exact El|]. split; [exact H17|].
    exists (String.substring 0 14 (Treemap.Leaf.name d)).
    split; [exact H14|]. split; [|reflexivity].
    apply String.prefix_correct. rewrite H14. reflexivity.
Qed.

Lemma X13_a_treemap_label_is_one_short_line_in_a_roomy_cell_witness :
  let d := {| Treemap.Leaf.name := "Engineering Department";
              Treemap.Leaf.x0 := 10; Treemap.Leaf.y0 := 10;
              Treemap.Leaf.x1 := 40; Treemap.Leaf.y1 := 30 |} in
  "Engineering De..." ∈ Treemap.labelLines d ∧
  (String.length "Engineering De..." ≤ 17)%nat ∧
  (29 <= Treemap.rectWidth d)%Q.
Proof.
  intros d.
  assert ("Engineering De..." ∈ Treemap.labelLines d) as Hin.
  { vm_compute. apply list_elem_of_here. }
  split; [exact Hin|].
  destruct (X13_a_treemap_label_is_one_short_line_in_a_roomy_cell d _ Hin)
    as (_ & Hlen & _ & Hw & _).
  split; [exact Hlen | exact Hw].
Defined.

(** X14. The labels of the packed circles.  The category group holds one
    label per circle at depth 1, in the order of the hierarchy, with or
    without children.  The centre-label group stays empty whatever the
    hierarchy and the radii: the radius test is applied to the update
    selection, which has no element in a group that was just appended, and
    the filtered selection has lost the placeholders [join] would turn into
    texts; the same holds for any test and any data.  A selection that is
    joined straight after [data] gets one element per datum. *)
Theorem X14_packed_circles_get_category_labels_only
    (descendants : list PackedCircles.Node.t) :
  PackedCircles.parentLabels descendants
    = List.filter (λ d, (PackedCircles.Node.depth d =? 1)%nat) descendants ∧
  (∀ d, d ∈ PackedCircles.parentLabels descendants
        ↔ d ∈ descendants ∧ PackedCircles.Node.depth d = 1%nat) ∧
  PackedCircles.leafLabels descendants = [] ∧
  (∀ (test : PackedCircles.Node.t → bool) (values : list PackedCircles.Node.t),
     PackedCircles.Selection.join
       (PackedCircles.Selection.filter test
          (PackedCircles.Selection.data values PackedCircles.Selection.selectAll)) = [] ∧
     PackedCircles.Selection.join
       (PackedCircles.Selection.data values PackedCircles.Selection.selectAll) = values).
Proof.
  assert (∀ values : list PackedCircles.Node.t,
            PackedCircles.Selection.join
              (PackedCircles.Selection.data values PackedCircles.Selection.selectAll) = values)
    as Hjoin by apply join_data_fresh.
  assert (∀ (test : PackedCircles.Node.t → bool) values,
            PackedCircles.Selection.join
              (PackedCircles.Selection.filter test
                 (PackedCircles.Selection.data values PackedCircles.Selection.selectAll)) = [])
    as Hnone by (intros test values; apply join_filter_data_fresh).
  unfold PackedCircles.parentLabels, PackedCircles.leafLabels.
  rewrite Hjoin, Hnone. split; [reflexivity|]. split; [|split; [reflexivity|]].
  - intros d. by rewrite list_elem_of_In, filter_In, Nat.eqb_eq, <- list_elem_of_In.
  - intros test values. split; [apply Hnone|apply Hjoin].
Qed.
